(** * parsecache: a filesystem-backed cache of parsed files and directory listings

    A shallow embedding of [parsecache.go] and the properties of its
    freshness algorithm ([CachedFile.Get], [CachedDir.Get]), of the two cache
    objects built on it ([FsCache], [ConcurrentFsCache]) and of the path
    normaliser ([cleanPath], [opener]). *)

From Stdlib Require Import ZArith Ascii String List Lia Bool.
From Equations Require Import Equations.
From Equations.Prop Require Import Logic.
From stdpp Require Import base option gmap strings list fin_maps.

Local Open Scope string_scope.
Local Open Scope list_scope.

(** ** Go's [path/filepath] on a system whose separator is the slash

    [filepath.Clean] belongs to the Go standard library, not to the
    repository. It is modelled after the algorithm of the library: one pass
    over the path with an output buffer, for a system without volume names
    whose only separator is the slash. *)

Module filepath.

Definition Separator : ascii := "/"%char.

Definition IsPathSeparator (c : ascii) : bool := Ascii.eqb c Separator.

(** [r == n || IsPathSeparator(path[r])] for the unread input [path[r:]]. *)
Definition at_end_or_separator (rest : list ascii) : bool :=
  match rest with
  | [] => true
  | c :: _ => IsPathSeparator c
  end.

(** The output buffer of [Clean] is kept with the byte written last in
    front: [out.append(c)] is [c :: out], [out.w] is [length out], and the
    byte [out.index(out.w)] read after [out.w--] is the one just dropped. *)

(** [out.w--; for out.w > dotdot && !IsPathSeparator(out.index(out.w)) { out.w-- }] *)
Fixpoint backtrack (out : list ascii) (dotdot : nat) : list ascii :=
  match out with
  | [] => []
  | c :: out' =>
      if (dotdot <? length out')%nat && negb (IsPathSeparator c)
      then backtrack out' dotdot
      else out'
  end.

(** [for ; r < n && !IsPathSeparator(path[r]); r++ { out.append(path[r]) }];
    returns the input left unread and the buffer. *)
Fixpoint copy_element (rest out : list ascii) : list ascii * list ascii :=
  match rest with
  | [] => ([], out)
  | c :: rest' =>
      if IsPathSeparator c then (rest, out) else copy_element rest' (c :: out)
  end.

Lemma copy_element_length rest out :
  (length (copy_element rest out).1 <= length rest)%nat.
Proof.
  revert out; induction rest as [|c rest IH]; intros out; simpl; [lia|].
  destruct (IsPathSeparator c); simpl; [lia|]. specialize (IH (c :: out)). lia.
Qed.

Lemma copy_element_progress c rest out :
  IsPathSeparator c = false ->
  (length (copy_element (c :: rest) out).1 < length (c :: rest))%nat.
Proof.
  intros Hc. simpl. rewrite Hc.
  pose proof (copy_element_length rest (c :: out)). simpl. lia.
Qed.

(** The body of [for r < n { switch { ... } }]: [rest] is [path[r:]]. *)
Equations? clean_loop (rooted : bool) (rest out : list ascii) (dotdot : nat)
  : list ascii by wf (length rest) lt :=
  clean_loop rooted [] out dotdot := out;
  clean_loop rooted (c :: rest') out dotdot with inspect (IsPathSeparator c) := {
    | exist _ true _ =>
        (* empty path element *)
        clean_loop rooted rest' out dotdot
    | exist _ false Hc =>
        if Ascii.eqb c "."%char && at_end_or_separator rest' then
          (* . element *)
          clean_loop rooted rest' out dotdot
        else if Ascii.eqb c "."%char
                && Ascii.eqb (hd "/"%char rest') "."%char
                && at_end_or_separator (tl rest') then
          (* .. element: remove to last separator *)
          if (dotdot <? length out)%nat then
            clean_loop rooted (tl rest') (backtrack out dotdot) dotdot
          else if negb rooted then
            let out1 := if (0 <? length out)%nat then Separator :: out else out in
            let out2 := "."%char :: "."%char :: out1 in
            clean_loop rooted (tl rest') out2 (length out2)
          else
            clean_loop rooted (tl rest') out dotdot
        else
          (* real path element: add slash if needed, copy element *)
          let out1 :=
            if rooted && negb (length out =? 1)%nat
               || negb rooted && negb (length out =? 0)%nat
            then Separator :: out else out in
          clean_loop rooted (copy_element (c :: rest') out1).1
                     (copy_element (c :: rest') out1).2 dotdot }.
Proof.
  all: try (simpl; lia).
  all: try (destruct rest'; simpl; lia).
  apply copy_element_progress; exact Hc.
Qed.

(** Modelled from the spec: [filepath.Clean] of Go's standard library, which
    the repository calls and does not contain. [cleanPath] is to return a
    path that starts with the separator and in which every [.] and [..] is
    resolved; [Clean] is given here by the algorithm of the library, with
    an empty volume name and [FromSlash] the identity. *)
Definition Clean (path : string) : string :=
  let p := list_ascii_of_string path in
  match p with
  | [] => "."
  | c :: _ =>
      let rooted := IsPathSeparator c in
      let out :=
        if rooted
        then clean_loop rooted (tl p) [Separator] 1
        else clean_loop rooted p [] 0 in
      string_of_list_ascii (rev (if (length out =? 0)%nat then ["."%char] else out))
  end.

End filepath.

(** [cleanPath]: the key under which a path is cached. *)
Definition cleanPath (path : string) : string :=
  filepath.Clean ("/" ++ path).

(** The canonical form that [cleanPath] produces. *)

Module Canonical.
Import filepath.

(** A name between two separators of a cleaned path: not empty, without
    a separator, and neither [.] nor [..]. *)
Definition resolved (name : list ascii) : Prop :=
  name <> [] /\ Forall (fun a => IsPathSeparator a = false) name
  /\ name <> ["."%char] /\ name <> ["."%char; "."%char].

(** The names joined by separators. *)
Fixpoint join (names : list (list ascii)) : list ascii :=
  match names with
  | [] => []
  | [name] => name
  | name :: names' => name ++ Separator :: join names'
  end.

(** The buffer of [Clean] for a rooted path: the names written so far, the
    last one first and each one backwards, down to the root's separator. *)
Fixpoint written (names : list (list ascii)) : list ascii :=
  match names with
  | [] => []
  | [name] => rev name
  | name :: names' => rev name ++ Separator :: written names'
  end.

Definition rooted_buffer (out : list ascii) : Prop :=
  exists names, Forall resolved names /\ out = written names ++ [Separator].

End Canonical.

(** ** Go's [time] package

    The package belongs to the Go standard library, not to the repository;
    what the cache uses of it is modelled as follows. A [Duration] is a
    signed 64-bit count of nanoseconds. A [Time] is a struct of three fields,
    [wall], [ext] and [loc]. The first two encode the instant on the wall
    clock ([sec()] and [nsec()], kept here as one count of nanoseconds since
    January 1, year 1, 00:00:00 UTC) and, when the [hasMonotonic] bit of
    [wall] is set, the reading of the monotonic clock; [loc] is a pointer to
    a [Location]. Each instant, with or without a monotonic reading, has one
    encoding, so that [==] on two [Time]s, which compares the three fields,
    holds exactly when the instants, the monotonic readings (or their
    absence) and the [Location] pointers are the same: it is the equality
    of the record below. *)

Module time.

Definition Duration : Type := Z.

Definition minDuration : Duration := (- 2 ^ 63)%Z.
Definition maxDuration : Duration := (2 ^ 63 - 1)%Z.

(** [*Location]: the address of a [Location], [None] the nil pointer (which
    stands for UTC). *)
Definition Location : Type := option N.

(** [time.Local], the address of the package's local [Location]. *)
Definition Local : Location := Some 1%N.

Record Time : Type := {
  (* nanoseconds on the wall clock since the zero time *)
  instant : Z;
  (* the reading of the monotonic clock, if the [Time] carries one *)
  monotonic : option Z;
  loc : Location
}.

(** [t == u] is [bool_decide (t = u)]. *)
#[global] Instance Time_eq_dec : EqDecision Time.
Proof. solve_decision. Defined.

(** [Time{}], the zero value *)
Definition Time_zero : Time := {| instant := 0; monotonic := None; loc := None |}.

(** Modelled from the spec: [Time.IsZero] of Go's standard library, whether
    [t] is the zero instant; a [Time] that carries a monotonic reading lies
    after the year 1885 and is never zero. The zero [Time] is the
    [lastLoadTime] of an entry that was never loaded. *)
Definition IsZero (t : Time) : bool :=
  match monotonic t with
  | Some _ => false
  | None => (instant t =? 0)%Z
  end.

(** Modelled from the spec: [Time.After] of Go's standard library; two
    [Time]s that both carry a monotonic reading are compared on the
    monotonic clock, any others on the wall clock. *)
Definition After (t u : Time) : bool :=
  match monotonic t, monotonic u with
  | Some m, Some n => (n <? m)%Z
  | _, _ => (instant u <? instant t)%Z
  end.

(** A difference of two clock readings as a [Duration]: out of range it is
    the nearest end of the range. *)
Definition saturate (d : Z) : Duration :=
  if (d <? minDuration)%Z then minDuration
  else if (maxDuration <? d)%Z then maxDuration
  else d.

(** Modelled from the spec: [Time.Sub] of Go's standard library, the elapsed
    time [t - u] of the freshness test, taken on the monotonic clock when
    both [Time]s carry a reading of it and on the wall clock otherwise; as
    in the library it saturates at the ends of the [Duration] range. *)
Definition Sub (t u : Time) : Duration :=
  match monotonic t, monotonic u with
  | Some m, Some n => saturate (m - n)
  | _, _ => saturate (instant t - instant u)
  end.

(** Modelled from the spec: [time.Since(t)] of Go's standard library, which is
    [time.Now().Sub(t)]; [now] is the clock reading. *)
Definition Since (now t : Time) : Duration := Sub now t.

(** [u] is a reading of the clocks not earlier than the reading [t]:
    neither the wall clock nor the monotonic clock went back in between,
    and the monotonic clock was read both times or neither time. *)
Definition le (t u : Time) : Prop :=
  (instant t <= instant u)%Z
  /\ match monotonic t, monotonic u with
     | Some m, Some n => (m <= n)%Z
     | None, None => True
     | _, _ => False
     end.

End time.

(** ** Results, outcomes and the filesystem interfaces *)

(** A Go pair [(A, error)] of which the value is used only when the error
    is nil. *)
Inductive result (error A : Type) : Type :=
| Ok (a : A)
| Err (err : error).
Arguments Ok {error A} a.
Arguments Err {error A} err.

(** What a call does to its caller: it returns a value with an error that
    may be nil, or it panics. *)
Inductive outcome (error A : Type) : Type :=
| Return (v : A) (err : option error)
| Panic (msg : string).
Arguments Return {error A} v err.
Arguments Panic {error A} msg.

(** The operations a [Get] performs on the filesystem, in order. *)
Inductive fsop : Type := OpOpen | OpStat | OpReadDir | OpParse | OpClose.

(** [fs.FileInfo], as far as [Get] looks at it. *)
Record FileInfo : Type := { Size : Z; ModTime : time.Time }.

(** [fs.File]: an open handle. [AsReadDirFile] is the type assertion
    [file.(fs.ReadDirFile)] followed by [ReadDir(0)]; it is [None] for a
    handle that does not implement [fs.ReadDirFile]. *)
Class fs_File (error DirEntry File : Type) : Type := {
  Stat : File -> result error FileInfo;
  AsReadDirFile : File -> option (result error (list DirEntry))
}.

Section Model.

Context {error DirEntry File : Type} `{!fs_File error DirEntry File}.
Context {T : Type}.
(** The zero value of [T]. *)
Variable zeroT : T.
(** The state of the outside world that an [fs.FS] serves files from. *)
Context {World : Type}.

(** [fs.FS]: [Open] in a given state of the world. *)
Definition FS : Type := World -> string -> result error File.

(** [Parser[T]] *)
Definition Parser : Type := File -> result error T.

(** [opener]: [inl] is the panic message. *)
Definition opener (filesystem : FS) (w : World) (path : string)
  : string + (unit -> result error File) :=
  if String.eqb path "/" then inr (fun _ => filesystem w ".")
  else match path with
       | EmptyString => inl "index out of range"
       | String c path' =>
           if Ascii.eqb c "/"%char || Ascii.eqb c filepath.Separator
           then inr (fun _ => filesystem w path')
           else inl "path not cleaned correctly"
       end.

(** *** Entries *)

Record CachedDir : Type := {
  d_lastLoadTime : time.Time;
  d_lastSize : Z;
  d_lastModTime : time.Time;
  entries : list DirEntry
}.

Record CachedFile : Type := {
  lastLoadTime : time.Time;
  lastSize : Z;
  lastModTime : time.Time;
  content : T
}.

(** [&CachedDir{}] and [&CachedFile[T]{}] *)
Definition CachedDir_zero : CachedDir :=
  {| d_lastLoadTime := time.Time_zero; d_lastSize := 0%Z; d_lastModTime := time.Time_zero;
     entries := [] |}.
Definition CachedFile_zero : CachedFile :=
  {| lastLoadTime := time.Time_zero; lastSize := 0%Z; lastModTime := time.Time_zero;
     content := zeroT |}.

(** The lock of the concurrency-safe wrappers is not part of the state: a
    call is followed from its start to its end with no other call in
    between. *)
Record ConcurrentCachedDir : Type := { cachedDir : CachedDir }.
Record ConcurrentCachedFile : Type := { cachedFile : CachedFile }.

Definition CachedDir_Cached (f : CachedDir) : list DirEntry * time.Time * bool :=
  (entries f, d_lastLoadTime f, negb (time.IsZero (d_lastLoadTime f))).

Definition CachedFile_Cached (f : CachedFile) : T * time.Time * bool :=
  (content f, lastLoadTime f, negb (time.IsZero (lastLoadTime f))).

Definition ConcurrentCachedDir_Cached (f : ConcurrentCachedDir) :=
  CachedDir_Cached (cachedDir f).

Definition ConcurrentCachedFile_Cached (f : ConcurrentCachedFile) :=
  CachedFile_Cached (cachedFile f).

(** *** The freshness engine

    A [Get] yields its outcome, the entry as the call leaves it and the
    filesystem operations it performed. [now] is what [time.Now()]
    returns. [defer file.Close()] closes the file after the rest of the
    body, on a panic too. *)

Definition deferClose {A E : Type} (body : outcome error A * E * list fsop)
  : outcome error A * E * list fsop :=
  let '(res, e, ops) := body in (res, e, ops ++ [OpClose]).

Definition afterOpen {A E : Type} (body : outcome error A * E * list fsop)
  : outcome error A * E * list fsop :=
  let '(res, e, ops) := body in (res, e, OpOpen :: ops).

Definition CachedDir_Get (f : CachedDir) (now : time.Time)
    (open : unit -> result error File) (maxAge : time.Duration)
  : outcome error (list DirEntry) * CachedDir * list fsop :=
  let loaded := negb (time.IsZero (d_lastLoadTime f)) in
  let loadTime := now in
  (* Always use the cached result if it's not too old. *)
  if loaded && (time.Sub loadTime (d_lastLoadTime f) <? maxAge)%Z then
    (Return (entries f) None, f, [])
  else
    (* Otherwise, get the stats to check if this cache entry is still valid. *)
    afterOpen
    match open tt with
    | Err err => (Return (entries f) (Some err), f, [])
    | Ok file =>
        deferClose
        match Stat file with
        | Err err => (Return (entries f) (Some err), f, [OpStat])
        | Ok stats =>
            let size := Size stats in
            let modTime := ModTime stats in
            (* Use the cached result if the mod time and size haven't changed *)
            if loaded && (size =? d_lastSize f)%Z
               && bool_decide (modTime = d_lastModTime f) then
              (Return (entries f) None,
               {| d_lastLoadTime := loadTime; d_lastSize := d_lastSize f;
                  d_lastModTime := d_lastModTime f; entries := entries f |},
               [OpStat])
            else
              (* Actually read the file *)
              match AsReadDirFile file with
              | None => (Panic "directory doesn't implement ReadDirFile", f, [OpStat])
              | Some (Err err) => (Return (entries f) (Some err), f, [OpStat; OpReadDir])
              | Some (Ok entries') =>
                  (Return entries' None,
                   {| d_lastLoadTime := loadTime; d_lastSize := size;
                      d_lastModTime := modTime; entries := entries' |},
                   [OpStat; OpReadDir])
              end
        end
    end.

Definition CachedFile_Get (f : CachedFile) (now : time.Time)
    (open : unit -> result error File) (parse : Parser) (maxAge : time.Duration)
  : outcome error T * CachedFile * list fsop :=
  let loaded := negb (time.IsZero (lastLoadTime f)) in
  let loadTime := now in
  (* Always use the cached result if it's not too old. *)
  if (time.Sub loadTime (lastLoadTime f) <? maxAge)%Z then
    (Return (content f) None, f, [])
  else
    (* Otherwise, get the stats to check if this cache entry is still valid. *)
    afterOpen
    match open tt with
    | Err err => (Return (content f) (Some err), f, [])
    | Ok file =>
        deferClose
        match Stat file with
        | Err err => (Return (content f) (Some err), f, [OpStat])
        | Ok stats =>
            let size := Size stats in
            let modTime := ModTime stats in
            (* Use the cached result if the mod time and size haven't changed *)
            if loaded && (size =? lastSize f)%Z
               && bool_decide (modTime = lastModTime f) then
              (Return (content f) None,
               {| lastLoadTime := loadTime; lastSize := lastSize f;
                  lastModTime := lastModTime f; content := content f |},
               [OpStat])
            else
              (* Actually read the file *)
              match parse file with
              | Err err => (Return (content f) (Some err), f, [OpStat; OpParse])
              | Ok content' =>
                  (Return content' None,
                   {| lastLoadTime := loadTime; lastSize := size;
                      lastModTime := modTime; content := content' |},
                   [OpStat; OpParse])
              end
        end
    end.

(** The concurrency-safe wrappers look at the entry under the read lock
    first ([now1] is the clock reading of [time.Since]) and run the
    engine under the write lock otherwise ([now2] is the reading of its
    [time.Now()]). *)

Definition ConcurrentCachedDir_Get (f : ConcurrentCachedDir) (now1 now2 : time.Time)
    (open : unit -> result error File) (maxAge : time.Duration)
  : outcome error (list DirEntry) * ConcurrentCachedDir * list fsop :=
  let '(entries, cachedAt, ok) := ConcurrentCachedDir_Cached f in
  if ok && (time.Since now1 cachedAt <? maxAge)%Z then
    (Return entries None, f, [])
  else
    let '(res, d, ops) := CachedDir_Get (cachedDir f) now2 open maxAge in
    (res, {| cachedDir := d |}, ops).

Definition ConcurrentCachedFile_Get (f : ConcurrentCachedFile) (now1 now2 : time.Time)
    (open : unit -> result error File) (parse : Parser) (maxAge : time.Duration)
  : outcome error T * ConcurrentCachedFile * list fsop :=
  let '(content, cachedAt, ok) := ConcurrentCachedFile_Cached f in
  if ok && (time.Since now1 cachedAt <? maxAge)%Z then
    (Return content None, f, [])
  else
    let '(res, c, ops) := CachedFile_Get (cachedFile f) now2 open parse maxAge in
    (res, {| cachedFile := c |}, ops).

(** *** The single-threaded cache *)

Record FsCache : Type := {
  fs : FS;
  parser : Parser;
  MaxAge : time.Duration;
  dirs : gmap string CachedDir;
  files : gmap string CachedFile
}.

Definition FsCache_with_dirs (cache : FsCache) (m : gmap string CachedDir) : FsCache :=
  {| fs := fs cache; parser := parser cache; MaxAge := MaxAge cache;
     dirs := m; files := files cache |}.

Definition FsCache_with_files (cache : FsCache) (m : gmap string CachedFile) : FsCache :=
  {| fs := fs cache; parser := parser cache; MaxAge := MaxAge cache;
     dirs := dirs cache; files := m |}.

Definition FsCache_ClearDirs (cache : FsCache) : FsCache := FsCache_with_dirs cache ∅.
Definition FsCache_ClearFiles (cache : FsCache) : FsCache := FsCache_with_files cache ∅.
Definition FsCache_Clear (cache : FsCache) : FsCache :=
  FsCache_ClearFiles (FsCache_ClearDirs cache).

Definition NewFsCache (fs : FS) (parser : Parser) (maxAge : time.Duration) : FsCache :=
  FsCache_Clear {| fs := fs; parser := parser; MaxAge := maxAge; dirs := ∅; files := ∅ |}.

Definition FsCache_GetDirEntry (cache : FsCache) (path : string) : option CachedDir :=
  dirs cache !! cleanPath path.

Definition FsCache_GetFileEntry (cache : FsCache) (path : string) : option CachedFile :=
  files cache !! cleanPath path.

(** The map holds pointers: the entry that [Get] changes is the one in the
    map, so the entry as [Get] leaves it is stored back under its key. *)
Definition FsCache_GetDirWithMaxAge (cache : FsCache) (w : World) (now : time.Time)
    (dir : string) (maxAge : time.Duration)
  : outcome error (list DirEntry) * FsCache * list fsop :=
  let path := cleanPath dir in
  let '(cached, dirs1) :=
    match dirs cache !! path with
    | Some cached => (cached, dirs cache)
    | None => (CachedDir_zero, <[path := CachedDir_zero]> (dirs cache))
    end in
  match opener (fs cache) w path with
  | inl msg => (Panic msg, FsCache_with_dirs cache dirs1, [])
  | inr open =>
      let '(res, cached', ops) := CachedDir_Get cached now open maxAge in
      let dirs2 := <[path := cached']> dirs1 in
      match res with
      | Return _ (Some _) => (res, FsCache_with_dirs cache (delete path dirs2), ops)
      | _ => (res, FsCache_with_dirs cache dirs2, ops)
      end
  end.

Definition FsCache_GetDir (cache : FsCache) (w : World) (now : time.Time) (dir : string) :=
  FsCache_GetDirWithMaxAge cache w now dir (MaxAge cache).

Definition FsCache_GetFileWithMaxAge (cache : FsCache) (w : World) (now : time.Time)
    (file : string) (maxAge : time.Duration)
  : outcome error T * FsCache * list fsop :=
  let path := cleanPath file in
  let '(cached, files1) :=
    match files cache !! path with
    | Some cached => (cached, files cache)
    | None => (CachedFile_zero, <[path := CachedFile_zero]> (files cache))
    end in
  match opener (fs cache) w path with
  | inl msg => (Panic msg, FsCache_with_files cache files1, [])
  | inr open =>
      let '(res, cached', ops) := CachedFile_Get cached now open (parser cache) maxAge in
      let files2 := <[path := cached']> files1 in
      match res with
      | Return _ (Some _) => (res, FsCache_with_files cache (delete path files2), ops)
      | _ => (res, FsCache_with_files cache files2, ops)
      end
  end.

Definition FsCache_GetFile (cache : FsCache) (w : World) (now : time.Time) (file : string) :=
  FsCache_GetFileWithMaxAge cache w now file (MaxAge cache).

(** *** The concurrency-safe cache, one call at a time *)

Record ConcurrentFsCache : Type := {
  cfs : FS;
  cparser : Parser;
  maxAge : time.Duration;
  cdirs : gmap string ConcurrentCachedDir;
  cfiles : gmap string ConcurrentCachedFile
}.

Definition ConcurrentFsCache_with_dirs (cache : ConcurrentFsCache)
    (m : gmap string ConcurrentCachedDir) : ConcurrentFsCache :=
  {| cfs := cfs cache; cparser := cparser cache; maxAge := maxAge cache;
     cdirs := m; cfiles := cfiles cache |}.

Definition ConcurrentFsCache_with_files (cache : ConcurrentFsCache)
    (m : gmap string ConcurrentCachedFile) : ConcurrentFsCache :=
  {| cfs := cfs cache; cparser := cparser cache; maxAge := maxAge cache;
     cdirs := cdirs cache; cfiles := m |}.

Definition ConcurrentFsCache_SetMaxAge (cache : ConcurrentFsCache) (maxAge' : time.Duration)
  : ConcurrentFsCache :=
  {| cfs := cfs cache; cparser := cparser cache; maxAge := maxAge';
     cdirs := cdirs cache; cfiles := cfiles cache |}.

Definition ConcurrentFsCache_ClearDirs (cache : ConcurrentFsCache) :=
  ConcurrentFsCache_with_dirs cache ∅.
Definition ConcurrentFsCache_ClearFiles (cache : ConcurrentFsCache) :=
  ConcurrentFsCache_with_files cache ∅.
Definition ConcurrentFsCache_Clear (cache : ConcurrentFsCache) :=
  ConcurrentFsCache_ClearFiles (ConcurrentFsCache_ClearDirs cache).

Definition NewConcurrentFsCache (fs : FS) (parser : Parser) (maxAge : time.Duration)
  : ConcurrentFsCache :=
  ConcurrentFsCache_Clear
    {| cfs := fs; cparser := parser; maxAge := maxAge; cdirs := ∅; cfiles := ∅ |}.

Definition ConcurrentFsCache_GetDirEntry (cache : ConcurrentFsCache) (path : string)
  : option ConcurrentCachedDir :=
  cdirs cache !! cleanPath path.

Definition ConcurrentFsCache_GetFileEntry (cache : ConcurrentFsCache) (path : string)
  : option ConcurrentCachedFile :=
  cfiles cache !! cleanPath path.

Definition getDir (cache : ConcurrentFsCache) (w : World) (now1 now2 : time.Time)
    (dir : string) (maxAge0 : time.Duration) (useMaxAge : bool)
  : outcome error (list DirEntry) * ConcurrentFsCache * list fsop :=
  let path := cleanPath dir in
  (* Read the existing cache entry (if it exists) and the maxAge *)
  let found := cdirs cache !! path in
  let maxAge1 := if negb useMaxAge then maxAge cache else maxAge0 in
  (* Create a new entry if one didn't exist *)
  let cached := default {| cachedDir := CachedDir_zero |} found in
  match opener (cfs cache) w path with
  | inl msg => (Panic msg, cache, [])
  | inr open =>
      (* Get the content from the entry! *)
      let '(res, cached', ops) := ConcurrentCachedDir_Get cached now1 now2 open maxAge1 in
      match found, res with
      | Some _, _ => (res, ConcurrentFsCache_with_dirs cache (<[path := cached']> (cdirs cache)), ops)
      | None, Return _ None =>
          (* Insert the new entry if required *)
          (res, ConcurrentFsCache_with_dirs cache (<[path := cached']> (cdirs cache)), ops)
      | None, _ => (res, cache, ops)
      end
  end.

Definition ConcurrentFsCache_GetDir (cache : ConcurrentFsCache) (w : World)
    (now1 now2 : time.Time) (dir : string) :=
  getDir cache w now1 now2 dir 0%Z false.

Definition ConcurrentFsCache_GetDirWithMaxAge (cache : ConcurrentFsCache) (w : World)
    (now1 now2 : time.Time) (dir : string) (maxAge0 : time.Duration) :=
  getDir cache w now1 now2 dir maxAge0 true.

Definition getFile (cache : ConcurrentFsCache) (w : World) (now1 now2 : time.Time)
    (file : string) (maxAge0 : time.Duration) (useMaxAge : bool)
  : outcome error T * ConcurrentFsCache * list fsop :=
  let path := cleanPath file in
  (* Read the existing cache entry (if it exists) and the maxAge *)
  let found := cfiles cache !! path in
  let maxAge1 := if negb useMaxAge then maxAge cache else maxAge0 in
  (* Create a new entry if one didn't exist *)
  let cached := default {| cachedFile := CachedFile_zero |} found in
  match opener (cfs cache) w path with
  | inl msg => (Panic msg, cache, [])
  | inr open =>
      (* Get the content from the entry! *)
      let '(res, cached', ops) :=
        ConcurrentCachedFile_Get cached now1 now2 open (cparser cache) maxAge1 in
      match found, res with
      | Some _, _ => (res, ConcurrentFsCache_with_files cache (<[path := cached']> (cfiles cache)), ops)
      | None, Return _ None =>
          (* Insert the new entry if required *)
          (res, ConcurrentFsCache_with_files cache (<[path := cached']> (cfiles cache)), ops)
      | None, _ => (res, cache, ops)
      end
  end.

Definition ConcurrentFsCache_GetFile (cache : ConcurrentFsCache) (w : World)
    (now1 now2 : time.Time) (file : string) :=
  getFile cache w now1 now2 file 0%Z false.

Definition ConcurrentFsCache_GetFileWithMaxAge (cache : ConcurrentFsCache) (w : World)
    (now1 now2 : time.Time) (file : string) (maxAge0 : time.Duration) :=
  getFile cache w now1 now2 file maxAge0 true.

End Model.

(** ** Histories of one entry

    [run step e calls] applies the calls in order to the entry [e] and yields
    the entry they leave with what each call let its caller observe: its
    outcome and its filesystem operations. *)

Section History.

Context {error A E C : Type}.
Variable step : E -> C -> outcome error A * E * list fsop.

Fixpoint run (e : E) (calls : list C) : E * list (outcome error A * list fsop) :=
  match calls with
  | [] => (e, [])
  | c :: calls' =>
      let '(res, e', ops) := step e c in
      let '(e'', obs) := run e' calls' in
      (e'', (res, ops) :: obs)
  end.

(** A full read: the directory was listed or the file parsed. *)
Definition is_read (op : fsop) : bool :=
  match op with
  | OpReadDir | OpParse => true
  | _ => false
  end.

(** The value a call loaded, when it read the file and returned no error. *)
Definition loaded_value (ob : outcome error A * list fsop) : option A :=
  match ob with
  | (Return v None, ops) => if existsb is_read ops then Some v else None
  | _ => None
  end.

(** The value loaded by the latest successful load among the observations
    (oldest first), [zero] when there is none. *)
Definition last_good (zero : A) (obs : list (outcome error A * list fsop)) : A :=
  fold_left (fun acc ob => default acc (loaded_value ob)) obs zero.

End History.

(** The arguments of one call of each [Get]. *)
Record DirCall (error File : Type) : Type := {
  dc_now : time.Time;
  dc_open : unit -> result error File;
  dc_maxAge : time.Duration
}.
Arguments dc_now {error File}.
Arguments dc_open {error File}.
Arguments dc_maxAge {error File}.

Record FileCall (error File T : Type) : Type := {
  fc_now : time.Time;
  fc_open : unit -> result error File;
  fc_parse : File -> result error T;
  fc_maxAge : time.Duration
}.
Arguments fc_now {error File T}.
Arguments fc_open {error File T}.
Arguments fc_parse {error File T}.
Arguments fc_maxAge {error File T}.

Definition CachedDir_call {error DirEntry File : Type} `{!fs_File error DirEntry File}
    (f : CachedDir) (c : DirCall error File) :=
  CachedDir_Get f (dc_now c) (dc_open c) (dc_maxAge c).

Definition CachedFile_call {error DirEntry File : Type} `{!fs_File error DirEntry File}
    {T : Type} (f : CachedFile) (c : FileCall error File T) :=
  CachedFile_Get (T := T) f (fc_now c) (fc_open c) (fc_parse c) (fc_maxAge c).

(** A call of a concurrency-safe wrapper reads the clock twice: the first
    component is the reading of [time.Since]. *)
Definition ConcurrentCachedDir_call {error DirEntry File : Type}
    `{!fs_File error DirEntry File}
    (f : ConcurrentCachedDir) (c : time.Time * DirCall error File) :=
  ConcurrentCachedDir_Get f c.1 (dc_now c.2) (dc_open c.2) (dc_maxAge c.2).

Definition ConcurrentCachedFile_call {error DirEntry File : Type}
    `{!fs_File error DirEntry File} {T : Type}
    (f : ConcurrentCachedFile) (c : time.Time * FileCall error File T) :=
  ConcurrentCachedFile_Get (T := T) f c.1 (fc_now c.2) (fc_open c.2) (fc_parse c.2)
    (fc_maxAge c.2).

(** Some step that the call performed failed with [e]: the operation is
    among those of the call and its result is the error [e]. *)
Definition file_step_fails {error DirEntry File : Type} `{!fs_File error DirEntry File}
    {T : Type} (c : FileCall error File T) (ops : list fsop) (e : error) : Prop :=
  (In OpOpen ops /\ fc_open c tt = Err e)
  \/ (In OpStat ops /\ exists file, fc_open c tt = Ok file /\ Stat file = Err e)
  \/ (In OpParse ops /\ exists file, fc_open c tt = Ok file /\ fc_parse c file = Err e).

Definition dir_step_fails {error DirEntry File : Type} `{!fs_File error DirEntry File}
    (c : DirCall error File) (ops : list fsop) (e : error) : Prop :=
  (In OpOpen ops /\ dc_open c tt = Err e)
  \/ (In OpStat ops /\ exists file, dc_open c tt = Ok file /\ Stat file = Err e)
  \/ (In OpReadDir ops
      /\ exists file, dc_open c tt = Ok file /\ AsReadDirFile file = Some (Err e)).

(** ** A small filesystem to run the model on *)

Module Demo.

Local Open Scope Z_scope.

(** A handle: what [Stat] answers, the bytes a parser reads, and the
    listing when the handle is a directory's. *)
Record handle : Type := {
  h_stat : result string FileInfo;
  h_data : string;
  h_dir : option (result string (list string))
}.

#[global] Instance handle_File : fs_File string string handle :=
  {| Stat := h_stat; AsReadDirFile := h_dir |}.

(** The world is the table of what [Open] answers for each name. *)
Definition world : Type := gmap string handle.

Definition dirfs : FS (error := string) (File := handle) (World := world) :=
  fun w name =>
    match w !! name with
    | Some h => Ok h
    | None => Err "file does not exist"
    end.

(** A parser: the length of the file; an empty file does not parse. *)
Definition parse_length (h : handle) : result string nat :=
  if String.eqb (h_data h) "" then Err "unexpected end of input"
  else Ok (String.length (h_data h)).

(** What [time.Now()] returns when the wall clock reads [n]: a time in the
    local [Location] with the reading of the monotonic clock, which started
    at 4000. *)
Definition clock (n : Z) : time.Time :=
  {| time.instant := n; time.monotonic := Some (n - 4000); time.loc := time.Local |}.

(** A modification time as a filesystem reports it: the instant [n] in the
    local [Location], with no monotonic reading. *)
Definition modified (n : Z) : time.Time :=
  {| time.instant := n; time.monotonic := None; time.loc := time.Local |}.

Definition regular (size mtime : Z) (data : string) : handle :=
  {| h_stat := Ok {| Size := size; ModTime := modified mtime |};
     h_data := data; h_dir := None |}.

Definition directory (size mtime : Z) (names : list string) : handle :=
  {| h_stat := Ok {| Size := size; ModTime := modified mtime |};
     h_data := ""; h_dir := Some (Ok names) |}.

Definition unstatable : handle :=
  {| h_stat := Err "stat failed"; h_data := ""; h_dir := Some (Err "readdir failed") |}.

Definition unreadable_dir (size mtime : Z) : handle :=
  {| h_stat := Ok {| Size := size; ModTime := modified mtime |};
     h_data := ""; h_dir := Some (Err "readdir failed") |}.

Definition disk : world :=
  {[ "." := directory 4096 900 ["a.json"; "b.json"];
     "a.json" := regular 5 1000 "hello";
     "empty.json" := regular 0 1000 "";
     "locked" := unstatable ]}.

Definition cachedA : CachedFile (T := nat) :=
  {| lastLoadTime := clock 5000; lastSize := 5; lastModTime := modified 1000;
     content := 5%nat |}.

Definition cachedRoot : CachedDir (DirEntry := string) :=
  {| d_lastLoadTime := clock 5000; d_lastSize := 4096; d_lastModTime := modified 900;
     entries := ["a.json"; "b.json"] |}.

Definition open_name (w : world) (name : string) : unit -> result string handle :=
  fun _ => dirfs w name.

(** [a.json] is loaded at 5000 and gone at 6000; the root is listed at 5000
    and cannot be read at 6000. *)
Definition load_a : FileCall string handle nat :=
  {| fc_now := clock 5000; fc_open := open_name disk "a.json";
     fc_parse := parse_length; fc_maxAge := 100 |}.

Definition miss_a : FileCall string handle nat :=
  {| fc_now := clock 6000; fc_open := open_name (delete "a.json" disk) "a.json";
     fc_parse := parse_length; fc_maxAge := 100 |}.

Definition list_root : DirCall string handle :=
  {| dc_now := clock 5000; dc_open := open_name disk "."; dc_maxAge := 100 |}.

Definition miss_root : DirCall string handle :=
  {| dc_now := clock 6000; dc_open := fun _ => Ok (unreadable_dir 4096 901);
     dc_maxAge := 100 |}.

(** At 6000 [locked] cannot be statted and the root is gone. *)
Definition stat_locked : FileCall string handle nat :=
  {| fc_now := clock 6000; fc_open := open_name disk "locked";
     fc_parse := parse_length; fc_maxAge := 100 |}.

Definition gone_root : DirCall string handle :=
  {| dc_now := clock 6000; dc_open := open_name (delete "." disk) "."; dc_maxAge := 100 |}.

(** A parser that keeps the text of the file. *)
Definition parse_text (h : handle) : result string string :=
  if String.eqb (h_data h) "" then Err "unexpected end of input"
  else Ok (h_data h).

(** A call that finds [h] under the name it opens. *)
Definition get_text (now : Z) (h : option handle) : FileCall string handle string :=
  {| fc_now := clock now;
     fc_open := fun _ => match h with Some h => Ok h | None => Err "file does not exist" end;
     fc_parse := parse_text; fc_maxAge := 100 |}.

(** The two caches after [a.json] was loaded at 5000. *)
Definition warm : FsCache (T := nat) :=
  (FsCache_GetFileWithMaxAge 0%nat (NewFsCache dirfs parse_length 100)
     disk (clock 5000) "a.json" 100).1.2.

Definition cwarm : ConcurrentFsCache (T := nat) :=
  (getFile 0%nat (NewConcurrentFsCache dirfs parse_length 100)
     disk (clock 5000) (clock 5000) "a.json" 0 false).1.2.

End Demo.

(** ** The freshness engine, path by path *)

Section Engine.

Context {error DirEntry File : Type} `{!fs_File error DirEntry File} {T : Type}.

Local Open Scope Z_scope.

(** The six ways through [CachedFile.Get], with the operations of each. *)
Lemma CachedFile_Get_paths (f : CachedFile (T := T)) now open parse maxAge :
  CachedFile_Get f now open parse maxAge =
    if time.Sub now (lastLoadTime f) <? maxAge then (Return (content f) None, f, [])
    else match open tt with
         | Err err => (Return (content f) (Some err), f, [OpOpen])
         | Ok file =>
             match Stat file with
             | Err err => (Return (content f) (Some err), f, [OpOpen; OpStat; OpClose])
             | Ok stats =>
                 if negb (time.IsZero (lastLoadTime f))
                    && (Size stats =? lastSize f) && bool_decide (ModTime stats = lastModTime f)
                 then (Return (content f) None,
                       {| lastLoadTime := now; lastSize := lastSize f;
                          lastModTime := lastModTime f; content := content f |},
                       [OpOpen; OpStat; OpClose])
                 else match parse file with
                      | Err err =>
                          (Return (content f) (Some err), f,
                           [OpOpen; OpStat; OpParse; OpClose])
                      | Ok v =>
                          (Return v None,
                           {| lastLoadTime := now; lastSize := Size stats;
                              lastModTime := ModTime stats; content := v |},
                           [OpOpen; OpStat; OpParse; OpClose])
                      end
             end
         end.
Proof.
  unfold CachedFile_Get, afterOpen, deferClose.
  destruct (time.Sub now (lastLoadTime f) <? maxAge); [reflexivity|].
  destruct (open tt) as [file|err]; [|reflexivity].
  destruct (Stat file) as [stats|err]; [|reflexivity].
  destruct (negb (time.IsZero (lastLoadTime f)) && (Size stats =? lastSize f)
            && bool_decide (ModTime stats = lastModTime f)); [reflexivity|].
  destruct (parse file); reflexivity.
Qed.

(** The seven ways through [CachedDir.Get]. *)
Lemma CachedDir_Get_paths (f : CachedDir (DirEntry := DirEntry)) now open maxAge :
  CachedDir_Get f now open maxAge =
    if negb (time.IsZero (d_lastLoadTime f)) && (time.Sub now (d_lastLoadTime f) <? maxAge)
    then (Return (entries f) None, f, [])
    else match open tt with
         | Err err => (Return (entries f) (Some err), f, [OpOpen])
         | Ok file =>
             match Stat file with
             | Err err => (Return (entries f) (Some err), f, [OpOpen; OpStat; OpClose])
             | Ok stats =>
                 if negb (time.IsZero (d_lastLoadTime f))
                    && (Size stats =? d_lastSize f) && bool_decide (ModTime stats = d_lastModTime f)
                 then (Return (entries f) None,
                       {| d_lastLoadTime := now; d_lastSize := d_lastSize f;
                          d_lastModTime := d_lastModTime f; entries := entries f |},
                       [OpOpen; OpStat; OpClose])
                 else match AsReadDirFile file with
                      | None =>
                          (Panic "directory doesn't implement ReadDirFile", f,
                           [OpOpen; OpStat; OpClose])
                      | Some (Err err) =>
                          (Return (entries f) (Some err), f,
                           [OpOpen; OpStat; OpReadDir; OpClose])
                      | Some (Ok l) =>
                          (Return l None,
                           {| d_lastLoadTime := now; d_lastSize := Size stats;
                              d_lastModTime := ModTime stats; entries := l |},
                           [OpOpen; OpStat; OpReadDir; OpClose])
                      end
             end
         end.
Proof.
  unfold CachedDir_Get, afterOpen, deferClose.
  destruct (negb (time.IsZero (d_lastLoadTime f))
            && (time.Sub now (d_lastLoadTime f) <? maxAge)); [reflexivity|].
  destruct (open tt) as [file|err]; [|reflexivity].
  destruct (Stat file) as [stats|err]; [|reflexivity].
  destruct (negb (time.IsZero (d_lastLoadTime f)) && (Size stats =? d_lastSize f)
            && bool_decide (ModTime stats = d_lastModTime f)); [reflexivity|].
  destruct (AsReadDirFile file) as [[l|err]|]; reflexivity.
Qed.

(** The wrappers either answer from the entry or hand over to the engine. *)
Lemma ConcurrentCachedFile_Get_paths (f : ConcurrentCachedFile (T := T))
    now1 now2 open parse maxAge :
  ConcurrentCachedFile_Get f now1 now2 open parse maxAge =
    if negb (time.IsZero (lastLoadTime (cachedFile f)))
       && (time.Sub now1 (lastLoadTime (cachedFile f)) <? maxAge)
    then (Return (content (cachedFile f)) None, f, [])
    else let r := CachedFile_Get (cachedFile f) now2 open parse maxAge in
         (r.1.1, {| cachedFile := r.1.2 |}, r.2).
Proof.
  unfold ConcurrentCachedFile_Get, ConcurrentCachedFile_Cached, CachedFile_Cached,
    time.Since.
  destruct (_ && _); [reflexivity|].
  destruct (CachedFile_Get _ _ _ _ _) as [[res c] ops]; reflexivity.
Qed.

Lemma ConcurrentCachedDir_Get_paths (f : ConcurrentCachedDir (DirEntry := DirEntry))
    now1 now2 open maxAge :
  ConcurrentCachedDir_Get f now1 now2 open maxAge =
    if negb (time.IsZero (d_lastLoadTime (cachedDir f)))
       && (time.Sub now1 (d_lastLoadTime (cachedDir f)) <? maxAge)
    then (Return (entries (cachedDir f)) None, f, [])
    else let r := CachedDir_Get (cachedDir f) now2 open maxAge in
         (r.1.1, {| cachedDir := r.1.2 |}, r.2).
Proof.
  unfold ConcurrentCachedDir_Get, ConcurrentCachedDir_Cached, CachedDir_Cached,
    time.Since.
  destruct (_ && _); [reflexivity|].
  destruct (CachedDir_Get _ _ _ _) as [[res c] ops]; reflexivity.
Qed.

(** [saturate] keeps the order and the sign of the differences. *)
Lemma saturate_monotone (d d' : Z) : d <= d' -> time.saturate d <= time.saturate d'.
Proof.
  intros Hle. unfold time.saturate, time.minDuration, time.maxDuration.
  repeat case_match; lia.
Qed.

Lemma saturate_nonneg (d : Z) : 0 <= d -> 0 <= time.saturate d.
Proof.
  intros Hle. unfold time.saturate, time.minDuration, time.maxDuration.
  repeat case_match; lia.
Qed.

(** [Sub] is not negative when the time taken away is not after the other. *)
Lemma Sub_nonneg (t u : time.Time) : time.After u t = false -> 0 <= time.Sub t u.
Proof.
  unfold time.After, time.Sub. intros Hle.
  destruct (time.monotonic u), (time.monotonic t);
    apply saturate_nonneg; apply Z.ltb_ge in Hle; lia.
Qed.

End Engine.

(** Splits a goal or hypothesis about a [Get] into the paths of the call. *)
Ltac get_paths :=
  repeat first
    [ rewrite ConcurrentCachedFile_Get_paths in *
    | rewrite ConcurrentCachedDir_Get_paths in *
    | rewrite CachedFile_Get_paths in *
    | rewrite CachedDir_Get_paths in * ];
  cbv zeta in *;
  repeat (case_match; simplify_eq/=).

Section EntryFacts.

Context {error DirEntry File : Type} `{!fs_File error DirEntry File} {T : Type}.

Local Open Scope Z_scope.

(** Whatever way a [Get] ends without an error, the value it returns is
    the one the entry holds afterwards. *)
Lemma CachedFile_Get_value (f : CachedFile (T := T)) now open parse maxAge v f' ops :
  CachedFile_Get f now open parse maxAge = (Return v None, f', ops) ->
  content f' = v.
Proof. intros H. get_paths; reflexivity. Qed.

Lemma CachedDir_Get_value (f : CachedDir (DirEntry := DirEntry)) now open maxAge v f' ops :
  CachedDir_Get f now open maxAge = (Return v None, f', ops) ->
  entries f' = v.
Proof. intros H. get_paths; reflexivity. Qed.

Lemma ConcurrentCachedFile_Get_value (f : ConcurrentCachedFile (T := T))
    now1 now2 open parse maxAge v f' ops :
  ConcurrentCachedFile_Get f now1 now2 open parse maxAge = (Return v None, f', ops) ->
  content (cachedFile f') = v.
Proof. intros H. get_paths; reflexivity. Qed.

Lemma ConcurrentCachedDir_Get_value (f : ConcurrentCachedDir (DirEntry := DirEntry))
    now1 now2 open maxAge v f' ops :
  ConcurrentCachedDir_Get f now1 now2 open maxAge = (Return v None, f', ops) ->
  entries (cachedDir f') = v.
Proof. intros H. get_paths; reflexivity. Qed.

(** A call that ends with an error leaves the entry as it was and returns
    the value the entry holds. *)
Lemma CachedFile_Get_error_frame (f : CachedFile (T := T)) now open parse maxAge v e f' ops :
  CachedFile_Get f now open parse maxAge = (Return v (Some e), f', ops) ->
  f' = f /\ v = content f.
Proof. intros H. get_paths; done. Qed.

Lemma CachedDir_Get_error_frame (f : CachedDir (DirEntry := DirEntry))
    now open maxAge v e f' ops :
  CachedDir_Get f now open maxAge = (Return v (Some e), f', ops) ->
  f' = f /\ v = entries f.
Proof. intros H. get_paths; done. Qed.

Lemma ConcurrentCachedFile_Get_error_frame (f : ConcurrentCachedFile (T := T))
    now1 now2 open parse maxAge v e f' ops :
  ConcurrentCachedFile_Get f now1 now2 open parse maxAge = (Return v (Some e), f', ops) ->
  f' = f /\ v = content (cachedFile f).
Proof. intros H. destruct f. get_paths; done. Qed.

Lemma ConcurrentCachedDir_Get_error_frame (f : ConcurrentCachedDir (DirEntry := DirEntry))
    now1 now2 open maxAge v e f' ops :
  ConcurrentCachedDir_Get f now1 now2 open maxAge = (Return v (Some e), f', ops) ->
  f' = f /\ v = entries (cachedDir f).
Proof. intros H. destruct f. get_paths; done. Qed.

(** The fast path of each [Get]. *)
Lemma CachedFile_Get_fresh (f : CachedFile (T := T)) now open parse maxAge :
  time.Sub now (lastLoadTime f) < maxAge ->
  CachedFile_Get f now open parse maxAge = (Return (content f) None, f, []).
Proof.
  intros Hage. rewrite CachedFile_Get_paths.
  replace (time.Sub now (lastLoadTime f) <? maxAge) with true; [done|].
  symmetry; apply Z.ltb_lt; done.
Qed.

Lemma CachedDir_Get_fresh (f : CachedDir (DirEntry := DirEntry)) now open maxAge :
  time.IsZero (d_lastLoadTime f) = false ->
  time.Sub now (d_lastLoadTime f) < maxAge ->
  CachedDir_Get f now open maxAge = (Return (entries f) None, f, []).
Proof.
  intros Hl Hage. rewrite CachedDir_Get_paths, Hl.
  replace (time.Sub now (d_lastLoadTime f) <? maxAge) with true; [done|].
  symmetry; apply Z.ltb_lt; done.
Qed.

Lemma ConcurrentCachedFile_Get_fresh (f : ConcurrentCachedFile (T := T))
    now1 now2 open parse maxAge :
  time.IsZero (lastLoadTime (cachedFile f)) = false ->
  time.Sub now1 (lastLoadTime (cachedFile f)) < maxAge ->
  ConcurrentCachedFile_Get f now1 now2 open parse maxAge =
    (Return (content (cachedFile f)) None, f, []).
Proof.
  intros Hl Hage. rewrite ConcurrentCachedFile_Get_paths, Hl.
  replace (time.Sub now1 (lastLoadTime (cachedFile f)) <? maxAge) with true; [done|].
  symmetry; apply Z.ltb_lt; done.
Qed.

Lemma ConcurrentCachedDir_Get_fresh (f : ConcurrentCachedDir (DirEntry := DirEntry))
    now1 now2 open maxAge :
  time.IsZero (d_lastLoadTime (cachedDir f)) = false ->
  time.Sub now1 (d_lastLoadTime (cachedDir f)) < maxAge ->
  ConcurrentCachedDir_Get f now1 now2 open maxAge =
    (Return (entries (cachedDir f)) None, f, []).
Proof.
  intros Hl Hage. rewrite ConcurrentCachedDir_Get_paths, Hl.
  replace (time.Sub now1 (d_lastLoadTime (cachedDir f)) <? maxAge) with true; [done|].
  symmetry; apply Z.ltb_lt; done.
Qed.

End EntryFacts.

(** ** The canonical form of a cleaned path *)

Module CleanFacts.
Import filepath Canonical.

Lemma written_cons name names :
  names <> [] -> written (name :: names) = rev name ++ Separator :: written names.
Proof. destruct names; done. Qed.

Lemma join_snoc names name :
  names <> [] -> join (names ++ [name]) = join names ++ Separator :: name.
Proof.
  induction names as [|n names IH]; [done|]. intros _.
  destruct names as [|n' names]; [done|].
  change (join ((n :: n' :: names) ++ [name]))
    with (n ++ Separator :: join ((n' :: names) ++ [name])).
  rewrite IH by done. simpl. rewrite <- app_assoc. reflexivity.
Qed.

Lemma rev_written names : rev (written names) = join (rev names).
Proof.
  induction names as [|n names IH]; [done|].
  destruct names as [|n' names]; [simpl; apply rev_involutive|].
  rewrite written_cons by done.
  rewrite rev_app_distr.
  change (rev (Separator :: written (n' :: names)))
    with (rev (written (n' :: names)) ++ [Separator]).
  rewrite IH, rev_involutive.
  change (rev (n :: n' :: names)) with (rev (n' :: names) ++ [n]).
  rewrite join_snoc.
  - rewrite <- app_assoc. reflexivity.
  - simpl. destruct (rev names); done.
Qed.

Lemma written_length names :
  Forall resolved names -> names <> [] -> (1 <= length (written names))%nat.
Proof.
  intros Hall Hne. destruct names as [|n names]; [done|].
  apply Forall_cons in Hall as [(Hn & _) _].
  destruct names.
  - simpl. rewrite length_rev. destruct n; [done | simpl; lia].
  - rewrite written_cons by done. rewrite length_app. simpl. lia.
Qed.

(** Backtracking over the last name when another name precedes it. *)
Lemma backtrack_name name rest :
  Forall (fun a => IsPathSeparator a = false) name ->
  (1 <= length rest)%nat ->
  backtrack (name ++ Separator :: rest) 1 = rest.
Proof.
  intros Hname Hrest. induction Hname as [|a name Ha _ IH]; simpl.
  - rewrite andb_false_r. reflexivity.
  - rewrite Ha. simpl.
    replace (1 <? length (name ++ Separator :: rest))%nat with true; [exact IH|].
    symmetry. apply Nat.ltb_lt. rewrite length_app. simpl. lia.
Qed.

(** Backtracking over the only name stops at the root's separator. *)
Lemma backtrack_first name :
  name <> [] ->
  Forall (fun a => IsPathSeparator a = false) name ->
  backtrack (name ++ [Separator]) 1 = [Separator].
Proof.
  intros Hne Hname. induction Hname as [|a name Ha Hname IH]; [done|].
  destruct name as [|b name]; [reflexivity|].
  change ((a :: b :: name) ++ [Separator]) with (a :: ((b :: name) ++ [Separator])).
  cbn [backtrack]. rewrite Ha. simpl negb. rewrite andb_true_r.
  replace (1 <? length ((b :: name) ++ [Separator]))%nat with true; [apply IH; done|].
  symmetry. apply Nat.ltb_lt. rewrite length_app. simpl. lia.
Qed.

Lemma Forall_rev_nonsep (name : list ascii) :
  Forall (fun a => IsPathSeparator a = false) name ->
  Forall (fun a => IsPathSeparator a = false) (rev name).
Proof. intros H. apply Forall_rev. exact H. Qed.

Lemma rooted_buffer_backtrack out :
  rooted_buffer out -> (1 < length out)%nat -> rooted_buffer (backtrack out 1).
Proof.
  intros (names & Hall & ->) Hlen.
  destruct names as [|n names]; [simpl in Hlen; lia|].
  apply Forall_cons in Hall as [(Hne & Hsep & _) Hall].
  exists names. split; [exact Hall|].
  destruct names as [|n' names].
  - simpl. apply backtrack_first; [|by apply Forall_rev_nonsep].
    destruct n; [done|]. simpl. destruct (rev n); done.
  - rewrite written_cons by done. rewrite <- app_assoc. simpl.
    apply backtrack_name; [by apply Forall_rev_nonsep|].
    rewrite length_app. simpl. lia.
Qed.

(** What the copy loop takes from the input and adds to the buffer. *)
Lemma copy_element_split rest out :
  exists name rest2,
    copy_element rest out = (rest2, rev name ++ out)
    /\ Forall (fun a => IsPathSeparator a = false) name
    /\ rest = name ++ rest2
    /\ at_end_or_separator rest2 = true.
Proof.
  revert out. induction rest as [|c rest IH]; intros out.
  - exists [], []. done.
  - simpl. destruct (IsPathSeparator c) eqn:Hc.
    + exists [], (c :: rest). simpl. done.
    + destruct (IH (c :: out)) as (name & rest2 & Heq & Hsep & -> & Hend).
      exists (c :: name), rest2. rewrite Heq. simpl. rewrite <- app_assoc.
      split_and!; [done | by constructor | done | done].
Qed.

Lemma rooted_buffer_length_1 names :
  Forall resolved names ->
  (length (written names ++ [Separator]) =? 1)%nat = true <-> names = [].
Proof.
  intros Hall. split.
  - intros Hlen. apply Nat.eqb_eq in Hlen. destruct names as [|n names]; [done|].
    pose proof (written_length (n :: names) Hall) as Hw. rewrite length_app in Hlen.
    specialize (Hw ltac:(done)). change (length [Separator]) with 1%nat in Hlen. lia.
  - intros ->. reflexivity.
Qed.

Lemma rooted_buffer_copy c rest out :
  rooted_buffer out ->
  IsPathSeparator c = false ->
  Ascii.eqb c "." && at_end_or_separator rest = false ->
  Ascii.eqb c "." && Ascii.eqb (hd "/"%char rest) "." && at_end_or_separator (tl rest) = false ->
  rooted_buffer
    (copy_element (c :: rest)
       (if true && negb (length out =? 1)%nat || negb true && negb (length out =? 0)%nat
        then Separator :: out else out)).2.
Proof.
  intros (names & Hall & ->) Hc Hdot Hdotdot.
  destruct (copy_element_split (c :: rest)
              (if true && negb (length (written names ++ [Separator]) =? 1)%nat
                  || negb true && negb (length (written names ++ [Separator]) =? 0)%nat
               then Separator :: written names ++ [Separator]
               else written names ++ [Separator]))
    as (name & rest2 & Heq & Hsep & Hrest & Hend).
  rewrite Heq. simpl snd.
  assert (resolved name) as Hres.
  { destruct name as [|a name].
    - simpl in Hrest. subst rest2. simpl in Hend. congruence.
    - simpl in Hrest. injection Hrest as <- ->.
      split_and!; [done | done | |].
      + intros [= -> ->]. simpl in Hdot. simpl in Hend. congruence.
      + intros [= -> ->]. simpl in Hdotdot. simpl in Hend. congruence. }
  exists (name :: names). split; [by constructor|].
  simpl andb. rewrite orb_false_r.
  destruct (length (written names ++ [Separator]) =? 1)%nat eqn:Hlen.
  - apply rooted_buffer_length_1 in Hlen as ->; [|done]. reflexivity.
  - simpl negb. cbv iota.
    assert (names <> []) as Hne.
    { intros ->. simpl in Hlen. done. }
    rewrite written_cons by done. rewrite <- app_assoc. reflexivity.
Qed.

(** The loop keeps the buffer of a rooted path in canonical form. *)
Lemma clean_loop_rooted_buffer rooted rest out dotdot :
  rooted = true -> dotdot = 1%nat ->
  rooted_buffer out -> rooted_buffer (clean_loop rooted rest out dotdot).
Proof.
  apply (clean_loop_elim
           (fun rooted rest out dotdot res =>
              rooted = true -> dotdot = 1%nat -> rooted_buffer out -> rooted_buffer res)).
  - intros; done.
  - intros ? c Hc rest' out' dotdot' IH _ Hr Hd Hbuf. by apply IH.
  - intros rooted' c Hc rest' out' dotdot' IH1 IH2 IH3 IH4 IH5 _ -> -> Hbuf.
    destruct (Ascii.eqb c "." && at_end_or_separator rest') eqn:Hdot; [by apply IH1|].
    destruct (Ascii.eqb c "." && Ascii.eqb (hd "/"%char rest') "."
              && at_end_or_separator (tl rest')) eqn:Hdotdot.
    + destruct (1 <? length out')%nat eqn:Hlen.
      * apply IH2; [done | done |].
        apply rooted_buffer_backtrack; [done|]. by apply Nat.ltb_lt.
      * simpl. by apply IH4.
    + cbv zeta. apply IH5; [done | done |].
      by apply rooted_buffer_copy.
Qed.

(** [cleanPath] yields the root's separator followed by resolved names
    with a separator between them. *)
Lemma cleanPath_canonical (path : string) :
  exists names,
    Forall resolved names
    /\ cleanPath path = String Separator (string_of_list_ascii (join names)).
Proof.
  unfold cleanPath, Clean.
  change (list_ascii_of_string ("/" ++ path))
    with (Separator :: list_ascii_of_string path).
  cbv iota zeta. change (IsPathSeparator Separator) with true. cbv iota.
  simpl tl.
  destruct (clean_loop_rooted_buffer true (list_ascii_of_string path) [Separator] 1)
    as (names & Hall & Hout); [done | done | by exists [] |].
  rewrite Hout. exists (rev names). split; [by apply Forall_rev|].
  replace (length (written names ++ [Separator]) =? 0)%nat with false
    by (rewrite length_app; simpl; symmetry; apply Nat.eqb_neq; lia).
  rewrite rev_app_distr. simpl. rewrite rev_written. reflexivity.
Qed.

Lemma cleanPath_rooted (path : string) :
  exists rest, cleanPath path = String "/" rest.
Proof.
  destruct (cleanPath_canonical path) as (names & _ & ->). by eexists.
Qed.

End CleanFacts.

(** ** The cache objects: one call, seen through the registry *)

Section CacheFacts.

Context {error DirEntry File : Type} `{!fs_File error DirEntry File}.
Context {T : Type} (zeroT : T) {World : Type}.

Local Abbreviation FsCache := (FsCache (error := error) (DirEntry := DirEntry) (File := File)
                       (T := T) (World := World)).
Local Abbreviation ConcurrentFsCache :=
  (ConcurrentFsCache (error := error) (DirEntry := DirEntry) (File := File)
     (T := T) (World := World)).

(** [opener] accepts every path that starts with the separator. *)
Lemma opener_rooted (filesystem : FS (error := error) (File := File) (World := World))
    w rest :
  exists name, opener filesystem w (String "/" rest) = inr (fun _ => filesystem w name).
Proof.
  unfold opener. destruct (String.eqb (String "/" rest) "/"); [by eexists|].
  simpl. by eexists.
Qed.

Lemma opener_cleanPath (filesystem : FS (error := error) (File := File) (World := World))
    w path :
  exists name, opener filesystem w (cleanPath path) = inr (fun _ => filesystem w name).
Proof.
  destruct (CleanFacts.cleanPath_rooted path) as [rest ->]. apply opener_rooted.
Qed.

Lemma eta_ConcurrentFsCache (cache : ConcurrentFsCache) :
  ConcurrentFsCache_with_files cache (cfiles cache) = cache.
Proof. destruct cache; reflexivity. Qed.

Lemma eta_ConcurrentFsCache_dirs (cache : ConcurrentFsCache) :
  ConcurrentFsCache_with_dirs cache (cdirs cache) = cache.
Proof. destruct cache; reflexivity. Qed.

(** [FsCache.GetFileWithMaxAge] runs the engine on the entry under the
    cleaned path, a new one if there is none; an error removes the key
    and anything else leaves the entry under it. *)
Lemma FsCache_GetFileWithMaxAge_entry (cache : FsCache) w now file maxAge :
  exists open,
    opener (fs cache) w (cleanPath file) = inr open
    /\ FsCache_GetFileWithMaxAge zeroT cache w now file maxAge =
       let r := CachedFile_Get
                  (default (CachedFile_zero zeroT) (files cache !! cleanPath file))
                  now open (parser cache) maxAge in
       (r.1.1,
        FsCache_with_files cache
          match r.1.1 with
          | Return _ (Some _) => delete (cleanPath file) (files cache)
          | _ => <[cleanPath file := r.1.2]> (files cache)
          end,
        r.2).
Proof.
  destruct (opener_cleanPath (fs cache) w file) as [name Hopen].
  eexists. split; [exact Hopen|].
  unfold FsCache_GetFileWithMaxAge. rewrite Hopen.
  destruct (files cache !! cleanPath file) as [c|]; simpl;
    destruct (CachedFile_Get _ _ _ _ _) as [[res c'] ops]; simpl;
    destruct res as [v [e|]|msg]; simpl;
    rewrite ?delete_insert_eq, ?insert_insert_eq; reflexivity.
Qed.

Lemma FsCache_GetDirWithMaxAge_entry (cache : FsCache) w now dir maxAge :
  exists open,
    opener (fs cache) w (cleanPath dir) = inr open
    /\ FsCache_GetDirWithMaxAge cache w now dir maxAge =
       let r := CachedDir_Get
                  (default CachedDir_zero (dirs cache !! cleanPath dir))
                  now open maxAge in
       (r.1.1,
        FsCache_with_dirs cache
          match r.1.1 with
          | Return _ (Some _) => delete (cleanPath dir) (dirs cache)
          | _ => <[cleanPath dir := r.1.2]> (dirs cache)
          end,
        r.2).
Proof.
  destruct (opener_cleanPath (fs cache) w dir) as [name Hopen].
  eexists. split; [exact Hopen|].
  unfold FsCache_GetDirWithMaxAge. rewrite Hopen.
  destruct (dirs cache !! cleanPath dir) as [c|]; simpl;
    destruct (CachedDir_Get _ _ _ _) as [[res c'] ops]; simpl;
    destruct res as [v [e|]|msg]; simpl;
    rewrite ?delete_insert_eq, ?insert_insert_eq; reflexivity.
Qed.

(** [getFile] runs the wrapper on the entry under the cleaned path; a new
    entry enters the registry only when its first load returns no error. *)
Lemma getFile_entry (cache : ConcurrentFsCache) w now1 now2 file maxAge0 useMaxAge :
  exists open,
    opener (cfs cache) w (cleanPath file) = inr open
    /\ getFile zeroT cache w now1 now2 file maxAge0 useMaxAge =
       let found := cfiles cache !! cleanPath file in
       let r := ConcurrentCachedFile_Get
                  (default {| cachedFile := CachedFile_zero zeroT |} found)
                  now1 now2 open (cparser cache)
                  (if negb useMaxAge then maxAge cache else maxAge0) in
       (r.1.1,
        match found, r.1.1 with
        | Some _, _ | None, Return _ None =>
            ConcurrentFsCache_with_files cache (<[cleanPath file := r.1.2]> (cfiles cache))
        | None, _ => cache
        end,
        r.2).
Proof.
  destruct (opener_cleanPath (cfs cache) w file) as [name Hopen].
  eexists. split; [exact Hopen|].
  unfold getFile. rewrite Hopen.
  destruct (cfiles cache !! cleanPath file) as [c|]; simpl;
    destruct (ConcurrentCachedFile_Get _ _ _ _ _ _) as [[res c'] ops]; simpl;
    destruct res as [v [e|]|msg]; reflexivity.
Qed.

Lemma getDir_entry (cache : ConcurrentFsCache) w now1 now2 dir maxAge0 useMaxAge :
  exists open,
    opener (cfs cache) w (cleanPath dir) = inr open
    /\ getDir cache w now1 now2 dir maxAge0 useMaxAge =
       let found := cdirs cache !! cleanPath dir in
       let r := ConcurrentCachedDir_Get
                  (default {| cachedDir := CachedDir_zero |} found)
                  now1 now2 open
                  (if negb useMaxAge then maxAge cache else maxAge0) in
       (r.1.1,
        match found, r.1.1 with
        | Some _, _ | None, Return _ None =>
            ConcurrentFsCache_with_dirs cache (<[cleanPath dir := r.1.2]> (cdirs cache))
        | None, _ => cache
        end,
        r.2).
Proof.
  destruct (opener_cleanPath (cfs cache) w dir) as [name Hopen].
  eexists. split; [exact Hopen|].
  unfold getDir. rewrite Hopen.
  destruct (cdirs cache !! cleanPath dir) as [c|]; simpl;
    destruct (ConcurrentCachedDir_Get _ _ _ _ _) as [[res c'] ops]; simpl;
    destruct res as [v [e|]|msg]; reflexivity.
Qed.

End CacheFacts.

(** Proves membership in a list of operations that is written out. *)
Ltac in_ops := simpl; repeat first [left; reflexivity | right].

(** Settles, on one path of a call, which step failed with which error. *)
Ltac step_error_cases :=
  split;
  [ intros ?e; split;
    [ intros [[?Hin ?]|[[?Hin (?file & ? & ?)]|[?Hin (?file & ? & ?)]]];
      simplify_eq;
      first [ solve [exfalso; simpl in *; intuition congruence]
            | solve [eexists; apply f_equal; congruence] ]
    | intros [?v ?]; simplify_eq;
      first [ left; split; [in_ops | done]
            | right; left; split; [in_ops | by eexists]
            | right; right; split; [in_ops | by eexists] ] ]
  | intros ?v ?e ?; simplify_eq; reflexivity ].

(** ** Histories: the entry holds the value of its latest successful load *)

Section HistoryFacts.

Context {error A E C : Type}.
Variable step : E -> C -> outcome error A * E * list fsop.
Variable value : E -> A.

(** Each call either leaves the value of the entry alone or stores the
    value it loaded. *)
Hypothesis step_value :
  forall e c res e' ops,
    step e c = (res, e', ops) ->
    value e' = default (value e) (loaded_value (res, ops)).

Lemma run_last_good calls :
  forall e e' obs,
    run step e calls = (e', obs) -> value e' = last_good (value e) obs.
Proof.
  induction calls as [|c calls IH]; intros e e' obs Hrun; simpl in Hrun.
  - by injection Hrun as <- <-.
  - destruct (step e c) as [[res e1] ops] eqn:Hstep.
    destruct (run step e1 calls) as [e2 obs1] eqn:Hrest.
    injection Hrun as <- <-.
    rewrite (IH _ _ _ Hrest). unfold last_good. cbn [fold_left].
    by rewrite (step_value _ _ _ _ _ Hstep).
Qed.

End HistoryFacts.

Section EntryHistories.

Context {error DirEntry File : Type} `{!fs_File error DirEntry File} {T : Type}.
Variable zeroT : T.

Lemma CachedFile_call_value (f : CachedFile (T := T)) c res f' ops :
  CachedFile_call f c = (res, f', ops) ->
  content f' = default (content f) (loaded_value (res, ops)).
Proof. unfold CachedFile_call. intros H. get_paths; reflexivity. Qed.

Lemma CachedDir_call_value (f : CachedDir (DirEntry := DirEntry)) c res f' ops :
  CachedDir_call f c = (res, f', ops) ->
  entries f' = default (entries f) (loaded_value (res, ops)).
Proof. unfold CachedDir_call. intros H. get_paths; reflexivity. Qed.

Lemma ConcurrentCachedFile_call_value (f : ConcurrentCachedFile (T := T)) c res f' ops :
  ConcurrentCachedFile_call f c = (res, f', ops) ->
  content (cachedFile f') = default (content (cachedFile f)) (loaded_value (res, ops)).
Proof. unfold ConcurrentCachedFile_call. intros H. get_paths; reflexivity. Qed.

Lemma ConcurrentCachedDir_call_value (f : ConcurrentCachedDir (DirEntry := DirEntry))
    c res f' ops :
  ConcurrentCachedDir_call f c = (res, f', ops) ->
  entries (cachedDir f') = default (entries (cachedDir f)) (loaded_value (res, ops)).
Proof. unfold ConcurrentCachedDir_call. intros H. get_paths; reflexivity. Qed.

(** What a failing call of the engine returns, and where its error is from. *)
Lemma CachedFile_call_error (f : CachedFile (T := T)) c res f' ops :
  CachedFile_call f c = (res, f', ops) ->
  (forall e, file_step_fails c ops e <-> exists v, res = Return v (Some e))
  /\ (forall v e, res = Return v (Some e) -> v = content f).
Proof.
  unfold CachedFile_call, file_step_fails. intros H.
  get_paths; step_error_cases.
Qed.

Lemma CachedDir_call_error (f : CachedDir (DirEntry := DirEntry)) c res f' ops :
  CachedDir_call f c = (res, f', ops) ->
  (forall e, dir_step_fails c ops e <-> exists v, res = Return v (Some e))
  /\ (forall v e, res = Return v (Some e) -> v = entries f).
Proof.
  unfold CachedDir_call, dir_step_fails. intros H.
  get_paths; step_error_cases.
Qed.

Lemma ConcurrentCachedFile_call_error (f : ConcurrentCachedFile (T := T)) c res f' ops :
  ConcurrentCachedFile_call f c = (res, f', ops) ->
  (forall e, file_step_fails c.2 ops e <-> exists v, res = Return v (Some e))
  /\ (forall v e, res = Return v (Some e) -> v = content (cachedFile f)).
Proof.
  unfold ConcurrentCachedFile_call, file_step_fails. intros H.
  get_paths; step_error_cases.
Qed.

Lemma ConcurrentCachedDir_call_error (f : ConcurrentCachedDir (DirEntry := DirEntry))
    c res f' ops :
  ConcurrentCachedDir_call f c = (res, f', ops) ->
  (forall e, dir_step_fails c.2 ops e <-> exists v, res = Return v (Some e))
  /\ (forall v e, res = Return v (Some e) -> v = entries (cachedDir f)).
Proof.
  unfold ConcurrentCachedDir_call, dir_step_fails. intros H.
  get_paths; step_error_cases.
Qed.

End EntryHistories.

(** ** The time-to-live fast path *)

Section FastPath.

Context {error DirEntry File : Type} `{!fs_File error DirEntry File}.
Context {T : Type} (zeroT : T) {World : Type}.

Local Abbreviation FsCache :=
  (FsCache (error := error) (DirEntry := DirEntry) (File := File) (T := T) (World := World)).
Local Abbreviation ConcurrentFsCache :=
  (ConcurrentFsCache (error := error) (DirEntry := DirEntry) (File := File)
     (T := T) (World := World)).

Local Open Scope Z_scope.

(** After a [GetFileWithMaxAge] without error the registry holds the entry
    with the returned value, and a later call within the window of that
    entry reads nothing. *)
Lemma FsCache_GetFile_again (cache : FsCache) w now file maxAge v cache' ops :
  FsCache_GetFileWithMaxAge zeroT cache w now file maxAge = (Return v None, cache', ops) ->
  exists e,
    FsCache_GetFileEntry cache' file = Some e /\ content e = v
    /\ forall w' now' maxAge',
        time.IsZero (lastLoadTime e) = false ->
        time.Sub now' (lastLoadTime e) < maxAge' ->
        FsCache_GetFileWithMaxAge zeroT cache' w' now' file maxAge'
        = (Return v None, cache', []).
Proof.
  intros Hget.
  destruct (FsCache_GetFileWithMaxAge_entry zeroT cache w now file maxAge)
    as (open & _ & Heq).
  rewrite Heq in Hget. cbv zeta in Hget.
  destruct (CachedFile_Get _ now open _ maxAge) as [[res c'] ops0] eqn:Hengine.
  simpl in Hget. injection Hget as -> <- <-.
  pose proof (CachedFile_Get_value _ _ _ _ _ _ _ _ Hengine) as Hv.
  exists c'. unfold FsCache_GetFileEntry. simpl. rewrite lookup_insert_eq.
  split_and!; [done | done |].
  intros w' now' maxAge' Hloaded Hage.
  destruct (FsCache_GetFileWithMaxAge_entry zeroT
              (FsCache_with_files cache (<[cleanPath file := c']> (files cache)))
              w' now' file maxAge') as (open' & _ & ->).
  simpl. rewrite lookup_insert_eq. simpl.
  rewrite CachedFile_Get_fresh by done. simpl.
  rewrite insert_insert_eq, Hv. reflexivity.
Qed.

Lemma FsCache_GetDir_again (cache : FsCache) w now dir maxAge v cache' ops :
  FsCache_GetDirWithMaxAge cache w now dir maxAge = (Return v None, cache', ops) ->
  exists e,
    FsCache_GetDirEntry cache' dir = Some e /\ entries e = v
    /\ forall w' now' maxAge',
        time.IsZero (d_lastLoadTime e) = false ->
        time.Sub now' (d_lastLoadTime e) < maxAge' ->
        FsCache_GetDirWithMaxAge cache' w' now' dir maxAge' = (Return v None, cache', []).
Proof.
  intros Hget.
  destruct (FsCache_GetDirWithMaxAge_entry cache w now dir maxAge) as (open & _ & Heq).
  rewrite Heq in Hget. cbv zeta in Hget.
  destruct (CachedDir_Get _ now open maxAge) as [[res c'] ops0] eqn:Hengine.
  simpl in Hget. injection Hget as -> <- <-.
  pose proof (CachedDir_Get_value _ _ _ _ _ _ _ Hengine) as Hv.
  exists c'. unfold FsCache_GetDirEntry. simpl. rewrite lookup_insert_eq.
  split_and!; [done | done |].
  intros w' now' maxAge' Hloaded Hage.
  destruct (FsCache_GetDirWithMaxAge_entry
              (FsCache_with_dirs cache (<[cleanPath dir := c']> (dirs cache)))
              w' now' dir maxAge') as (open' & _ & ->).
  simpl. rewrite lookup_insert_eq. simpl.
  rewrite CachedDir_Get_fresh by done. simpl.
  rewrite insert_insert_eq, Hv. reflexivity.
Qed.

Lemma ConcurrentFsCache_GetFile_again (cache : ConcurrentFsCache)
    w now1 now2 file maxAge0 v cache' ops :
  ConcurrentFsCache_GetFileWithMaxAge zeroT cache w now1 now2 file maxAge0
  = (Return v None, cache', ops) ->
  exists e,
    ConcurrentFsCache_GetFileEntry cache' file = Some e /\ content (cachedFile e) = v
    /\ forall w' now1' now2' maxAge',
        time.IsZero (lastLoadTime (cachedFile e)) = false ->
        time.Sub now1' (lastLoadTime (cachedFile e)) < maxAge' ->
        ConcurrentFsCache_GetFileWithMaxAge zeroT cache' w' now1' now2' file maxAge'
        = (Return v None, cache', []).
Proof.
  unfold ConcurrentFsCache_GetFileWithMaxAge. intros Hget.
  destruct (getFile_entry zeroT cache w now1 now2 file maxAge0 true) as (open & _ & Heq).
  rewrite Heq in Hget. cbv zeta in Hget.
  destruct (ConcurrentCachedFile_Get _ now1 now2 open _ _) as [[res c'] ops0] eqn:Hengine.
  simpl in Hget.
  assert (res = Return v None
          /\ cache' = ConcurrentFsCache_with_files cache
                        (<[cleanPath file := c']> (cfiles cache))) as [-> ->].
  { destruct (cfiles cache !! cleanPath file); by injection Hget as -> <- <-. }
  pose proof (ConcurrentCachedFile_Get_value _ _ _ _ _ _ _ _ _ Hengine) as Hv.
  exists c'. unfold ConcurrentFsCache_GetFileEntry. simpl. rewrite lookup_insert_eq.
  split_and!; [done | done |].
  intros w' now1' now2' maxAge' Hloaded Hage.
  destruct (getFile_entry zeroT
              (ConcurrentFsCache_with_files cache (<[cleanPath file := c']> (cfiles cache)))
              w' now1' now2' file maxAge' true) as (open' & _ & ->).
  simpl. rewrite lookup_insert_eq. simpl.
  rewrite ConcurrentCachedFile_Get_fresh by done. simpl.
  rewrite insert_insert_eq, Hv. reflexivity.
Qed.

Lemma ConcurrentFsCache_GetDir_again (cache : ConcurrentFsCache)
    w now1 now2 dir maxAge0 v cache' ops :
  ConcurrentFsCache_GetDirWithMaxAge cache w now1 now2 dir maxAge0
  = (Return v None, cache', ops) ->
  exists e,
    ConcurrentFsCache_GetDirEntry cache' dir = Some e /\ entries (cachedDir e) = v
    /\ forall w' now1' now2' maxAge',
        time.IsZero (d_lastLoadTime (cachedDir e)) = false ->
        time.Sub now1' (d_lastLoadTime (cachedDir e)) < maxAge' ->
        ConcurrentFsCache_GetDirWithMaxAge cache' w' now1' now2' dir maxAge'
        = (Return v None, cache', []).
Proof.
  unfold ConcurrentFsCache_GetDirWithMaxAge. intros Hget.
  destruct (getDir_entry cache w now1 now2 dir maxAge0 true) as (open & _ & Heq).
  rewrite Heq in Hget. cbv zeta in Hget.
  destruct (ConcurrentCachedDir_Get _ now1 now2 open _) as [[res c'] ops0] eqn:Hengine.
  simpl in Hget.
  assert (res = Return v None
          /\ cache' = ConcurrentFsCache_with_dirs cache
                        (<[cleanPath dir := c']> (cdirs cache))) as [-> ->].
  { destruct (cdirs cache !! cleanPath dir); by injection Hget as -> <- <-. }
  pose proof (ConcurrentCachedDir_Get_value _ _ _ _ _ _ _ _ Hengine) as Hv.
  exists c'. unfold ConcurrentFsCache_GetDirEntry. simpl. rewrite lookup_insert_eq.
  split_and!; [done | done |].
  intros w' now1' now2' maxAge' Hloaded Hage.
  destruct (getDir_entry
              (ConcurrentFsCache_with_dirs cache (<[cleanPath dir := c']> (cdirs cache)))
              w' now1' now2' dir maxAge' true) as (open' & _ & ->).
  simpl. rewrite lookup_insert_eq. simpl.
  rewrite ConcurrentCachedDir_Get_fresh by done. simpl.
  rewrite insert_insert_eq, Hv. reflexivity.
Qed.

End FastPath.

(** ** The claims about the freshness engine *)

Section EngineClaims.

Context {error DirEntry File : Type} `{!fs_File error DirEntry File}.
Context {T : Type} (zeroT : T) {World : Type}.

Local Abbreviation FsCache :=
  (FsCache (error := error) (DirEntry := DirEntry) (File := File) (T := T) (World := World)).
Local Abbreviation ConcurrentFsCache :=
  (ConcurrentFsCache (error := error) (DirEntry := DirEntry) (File := File)
     (T := T) (World := World)).

Local Open Scope Z_scope.

(** C1. An entry that was loaded ([lastLoadTime] not zero) and whose age
    [Sub now lastLoadTime] is strictly below [maxAge] is answered from the
    cache: [Get] returns the cached value with a nil error, leaves the entry
    alone and performs no filesystem operation. This holds for
    [CachedFile.Get], [CachedDir.Get] and the two concurrency-safe wrappers
    (whose age is taken at their first clock reading). In particular, after
    a [Get] on a path through either cache object returned without error,
    a second [Get] on that path within the window of the entry returns the
    same value, leaves the cache as it is and performs no filesystem
    operation. *)
Theorem fresh_entry_is_served_without_filesystem :
  (forall (f : CachedFile (T := T)) now open parse maxAge,
      time.IsZero (lastLoadTime f) = false ->
      time.Sub now (lastLoadTime f) < maxAge ->
      CachedFile_Get f now open parse maxAge = (Return (content f) None, f, []))
  /\ (forall (f : CachedDir (DirEntry := DirEntry)) now open maxAge,
      time.IsZero (d_lastLoadTime f) = false ->
      time.Sub now (d_lastLoadTime f) < maxAge ->
      CachedDir_Get f now open maxAge = (Return (entries f) None, f, []))
  /\ (forall (f : ConcurrentCachedFile (T := T)) now1 now2 open parse maxAge,
      time.IsZero (lastLoadTime (cachedFile f)) = false ->
      time.Sub now1 (lastLoadTime (cachedFile f)) < maxAge ->
      ConcurrentCachedFile_Get f now1 now2 open parse maxAge
      = (Return (content (cachedFile f)) None, f, []))
  /\ (forall (f : ConcurrentCachedDir (DirEntry := DirEntry)) now1 now2 open maxAge,
      time.IsZero (d_lastLoadTime (cachedDir f)) = false ->
      time.Sub now1 (d_lastLoadTime (cachedDir f)) < maxAge ->
      ConcurrentCachedDir_Get f now1 now2 open maxAge
      = (Return (entries (cachedDir f)) None, f, []))
  /\ (forall (cache : FsCache) w now file maxAge v cache' ops,
      FsCache_GetFileWithMaxAge zeroT cache w now file maxAge
      = (Return v None, cache', ops) ->
      exists e,
        FsCache_GetFileEntry cache' file = Some e /\ content e = v
        /\ forall w' now' maxAge',
            time.IsZero (lastLoadTime e) = false ->
            time.Sub now' (lastLoadTime e) < maxAge' ->
            FsCache_GetFileWithMaxAge zeroT cache' w' now' file maxAge'
            = (Return v None, cache', []))
  /\ (forall (cache : FsCache) w now dir maxAge v cache' ops,
      FsCache_GetDirWithMaxAge cache w now dir maxAge = (Return v None, cache', ops) ->
      exists e,
        FsCache_GetDirEntry cache' dir = Some e /\ entries e = v
        /\ forall w' now' maxAge',
            time.IsZero (d_lastLoadTime e) = false ->
            time.Sub now' (d_lastLoadTime e) < maxAge' ->
            FsCache_GetDirWithMaxAge cache' w' now' dir maxAge'
            = (Return v None, cache', []))
  /\ (forall (cache : ConcurrentFsCache) w now1 now2 file maxAge0 v cache' ops,
      ConcurrentFsCache_GetFileWithMaxAge zeroT cache w now1 now2 file maxAge0
      = (Return v None, cache', ops) ->
      exists e,
        ConcurrentFsCache_GetFileEntry cache' file = Some e
        /\ content (cachedFile e) = v
        /\ forall w' now1' now2' maxAge',
            time.IsZero (lastLoadTime (cachedFile e)) = false ->
            time.Sub now1' (lastLoadTime (cachedFile e)) < maxAge' ->
            ConcurrentFsCache_GetFileWithMaxAge zeroT cache' w' now1' now2' file maxAge'
            = (Return v None, cache', []))
  /\ (forall (cache : ConcurrentFsCache) w now1 now2 dir maxAge0 v cache' ops,
      ConcurrentFsCache_GetDirWithMaxAge cache w now1 now2 dir maxAge0
      = (Return v None, cache', ops) ->
      exists e,
        ConcurrentFsCache_GetDirEntry cache' dir = Some e
        /\ entries (cachedDir e) = v
        /\ forall w' now1' now2' maxAge',
            time.IsZero (d_lastLoadTime (cachedDir e)) = false ->
            time.Sub now1' (d_lastLoadTime (cachedDir e)) < maxAge' ->
            ConcurrentFsCache_GetDirWithMaxAge cache' w' now1' now2' dir maxAge'
            = (Return v None, cache', [])).
Proof.
  split_and!.
  - intros; by apply CachedFile_Get_fresh.
  - intros; by apply CachedDir_Get_fresh.
  - intros; by apply ConcurrentCachedFile_Get_fresh.
  - intros; by apply ConcurrentCachedDir_Get_fresh.
  - apply FsCache_GetFile_again.
  - apply FsCache_GetDir_again.
  - apply ConcurrentFsCache_GetFile_again.
  - apply ConcurrentFsCache_GetDir_again.
Qed.

(** C3. A [Get] that returns an error leaves the entry exactly as it was:
    [content] (or [entries]), [lastSize], [lastModTime] and [lastLoadTime]
    are those from before the call. This holds for [CachedFile.Get],
    [CachedDir.Get] and the two concurrency-safe wrappers, whatever step
    produced the error. *)
Theorem failed_get_leaves_entry_unchanged :
  (forall (f : CachedFile (T := T)) now open parse maxAge v e f' ops,
      CachedFile_Get f now open parse maxAge = (Return v (Some e), f', ops) ->
      f' = f
      /\ content f' = content f /\ lastSize f' = lastSize f
      /\ lastModTime f' = lastModTime f /\ lastLoadTime f' = lastLoadTime f)
  /\ (forall (f : CachedDir (DirEntry := DirEntry)) now open maxAge v e f' ops,
      CachedDir_Get f now open maxAge = (Return v (Some e), f', ops) ->
      f' = f
      /\ entries f' = entries f /\ d_lastSize f' = d_lastSize f
      /\ d_lastModTime f' = d_lastModTime f /\ d_lastLoadTime f' = d_lastLoadTime f)
  /\ (forall (f : ConcurrentCachedFile (T := T)) now1 now2 open parse maxAge v e f' ops,
      ConcurrentCachedFile_Get f now1 now2 open parse maxAge = (Return v (Some e), f', ops) ->
      f' = f)
  /\ (forall (f : ConcurrentCachedDir (DirEntry := DirEntry)) now1 now2 open maxAge v e f' ops,
      ConcurrentCachedDir_Get f now1 now2 open maxAge = (Return v (Some e), f', ops) ->
      f' = f).
Proof.
  split_and!.
  - intros f now open parse maxAge v e f' ops Hget.
    apply CachedFile_Get_error_frame in Hget as [-> _]. done.
  - intros f now open maxAge v e f' ops Hget.
    apply CachedDir_Get_error_frame in Hget as [-> _]. done.
  - intros f now1 now2 open parse maxAge v e f' ops Hget.
    by apply ConcurrentCachedFile_Get_error_frame in Hget as [-> _].
  - intros f now1 now2 open maxAge v e f' ops Hget.
    by apply ConcurrentCachedDir_Get_error_frame in Hget as [-> _].
Qed.

End EngineClaims.

(** The parsed [a.json], loaded at 5000 and asked for again at 5010 with a
    window of 100, and the root directory likewise; then two calls through
    a new cache. *)
Lemma fresh_entry_is_served_without_filesystem_witness :
  CachedFile_Get Demo.cachedA (Demo.clock 5010) (Demo.open_name Demo.disk "a.json")
    Demo.parse_length 100%Z
  = (Return 5%nat None, Demo.cachedA, [])
  /\ CachedDir_Get Demo.cachedRoot (Demo.clock 5010) (Demo.open_name Demo.disk ".") 100%Z
     = (Return ["a.json"; "b.json"] None, Demo.cachedRoot, [])
  /\ exists e,
      FsCache_GetFileEntry
        (FsCache_GetFileWithMaxAge 0%nat (NewFsCache Demo.dirfs Demo.parse_length 100%Z)
           Demo.disk (Demo.clock 5000) "a.json" 100%Z).1.2 "a.json" = Some e
      /\ content e = 5%nat.
Proof.
  split_and!.
  - apply (proj1 (fresh_entry_is_served_without_filesystem (T := nat) 0%nat
                    (World := Demo.world))); reflexivity.
  - apply (proj1 (proj2 (fresh_entry_is_served_without_filesystem (T := nat) 0%nat
                           (World := Demo.world)))); reflexivity.
  - destruct (proj1 (proj2 (proj2 (proj2 (proj2
               (fresh_entry_is_served_without_filesystem (T := nat) 0%nat
                  (World := Demo.world))))))
               (NewFsCache Demo.dirfs Demo.parse_length 100%Z) Demo.disk (Demo.clock 5000) "a.json"
               100%Z 5%nat
               (FsCache_GetFileWithMaxAge 0%nat (NewFsCache Demo.dirfs Demo.parse_length 100%Z)
                  Demo.disk (Demo.clock 5000) "a.json" 100%Z).1.2
               [OpOpen; OpStat; OpParse; OpClose])
      as (e & He & Hv & _).
    + vm_compute. reflexivity.
    + exists e. split; assumption.
Defined.

(** The cached [a.json] asked for at 6000 when the file is gone, and the
    cached root directory when it cannot be listed any more. *)
Lemma failed_get_leaves_entry_unchanged_witness :
  (CachedFile_Get Demo.cachedA (Demo.clock 6000) (Demo.open_name Demo.disk "gone.json")
     Demo.parse_length 100%Z).1.2 = Demo.cachedA
  /\ (CachedDir_Get Demo.cachedRoot (Demo.clock 6000)
        (fun _ => Ok (Demo.unreadable_dir 4096 901)) 100%Z).1.2 = Demo.cachedRoot.
Proof.
  split.
  - apply (proj1 (failed_get_leaves_entry_unchanged (T := nat))
             Demo.cachedA (Demo.clock 6000) (Demo.open_name Demo.disk "gone.json")
             Demo.parse_length 100%Z 5%nat "file does not exist"
             _ [OpOpen]).
    reflexivity.
  - apply (proj1 (proj2 (failed_get_leaves_entry_unchanged (T := nat)))
             Demo.cachedRoot (Demo.clock 6000) (fun _ => Ok (Demo.unreadable_dir 4096 901)) 100%Z
             ["a.json"; "b.json"] "readdir failed"
             _ [OpOpen; OpStat; OpReadDir; OpClose]).
    reflexivity.
Defined.

(** ** Revalidation, reload and a window that is not positive *)

Section EngineSteps.

Context {error DirEntry File : Type} `{!fs_File error DirEntry File} {T : Type}.

Local Open Scope Z_scope.

Lemma CachedFile_Get_validated (f : CachedFile (T := T)) now open parse maxAge
    res f' ops file stats :
  CachedFile_Get f now open parse maxAge = (res, f', ops) ->
  In OpStat ops ->
  open tt = Ok file -> Stat file = Ok stats ->
  time.IsZero (lastLoadTime f) = false ->
  Size stats = lastSize f -> ModTime stats = lastModTime f ->
  res = Return (content f) None
  /\ f' = {| lastLoadTime := now; lastSize := lastSize f;
             lastModTime := lastModTime f; content := content f |}
  /\ ops = [OpOpen; OpStat; OpClose].
Proof.
  intros Hget Hin Hopen Hstat Hloaded Hsize Hmod.
  rewrite CachedFile_Get_paths, Hopen, Hstat, Hloaded, Hsize, Hmod, Z.eqb_refl,
    bool_decide_eq_true_2 in Hget by reflexivity.
  simpl in Hget. destruct (_ <? _); injection Hget as <- <- <-; [destruct Hin | done].
Qed.

Lemma CachedDir_Get_validated (f : CachedDir (DirEntry := DirEntry)) now open maxAge
    res f' ops file stats :
  CachedDir_Get f now open maxAge = (res, f', ops) ->
  In OpStat ops ->
  open tt = Ok file -> Stat file = Ok stats ->
  time.IsZero (d_lastLoadTime f) = false ->
  Size stats = d_lastSize f -> ModTime stats = d_lastModTime f ->
  res = Return (entries f) None
  /\ f' = {| d_lastLoadTime := now; d_lastSize := d_lastSize f;
             d_lastModTime := d_lastModTime f; entries := entries f |}
  /\ ops = [OpOpen; OpStat; OpClose].
Proof.
  intros Hget Hin Hopen Hstat Hloaded Hsize Hmod.
  rewrite CachedDir_Get_paths, Hopen, Hstat, Hloaded, Hsize, Hmod, Z.eqb_refl,
    bool_decide_eq_true_2 in Hget by reflexivity.
  simpl in Hget. destruct (_ <? _); injection Hget as <- <- <-; [destruct Hin | done].
Qed.

Lemma CachedFile_Get_loaded (f : CachedFile (T := T)) now open parse maxAge v f' ops :
  CachedFile_Get f now open parse maxAge = (Return v None, f', ops) ->
  In OpParse ops ->
  exists file stats,
    open tt = Ok file /\ Stat file = Ok stats /\ parse file = Ok v
    /\ f' = {| lastLoadTime := now; lastSize := Size stats;
               lastModTime := ModTime stats; content := v |}
    /\ ops = [OpOpen; OpStat; OpParse; OpClose].
Proof.
  intros Hget Hin. get_paths; simpl in Hin; try (exfalso; intuition congruence).
  by eexists _, _.
Qed.

Lemma CachedDir_Get_loaded (f : CachedDir (DirEntry := DirEntry)) now open maxAge v f' ops :
  CachedDir_Get f now open maxAge = (Return v None, f', ops) ->
  In OpReadDir ops ->
  exists file stats,
    open tt = Ok file /\ Stat file = Ok stats /\ AsReadDirFile file = Some (Ok v)
    /\ f' = {| d_lastLoadTime := now; d_lastSize := Size stats;
               d_lastModTime := ModTime stats; entries := v |}
    /\ ops = [OpOpen; OpStat; OpReadDir; OpClose].
Proof.
  intros Hget Hin. get_paths; simpl in Hin; try (exfalso; intuition congruence).
  by eexists _, _.
Qed.

(** The stat result does not revalidate the entry. *)
Lemma not_validated (last : time.Time) (size lastSize : Z) (modTime lastModTime : time.Time) :
  ~ (time.IsZero last = false /\ size = lastSize /\ modTime = lastModTime) ->
  negb (time.IsZero last) && (size =? lastSize) && bool_decide (modTime = lastModTime)
  = false.
Proof.
  intros Hnot. destruct (time.IsZero last); [done|].
  destruct (Z.eqb_spec size lastSize); [|done].
  destruct (decide (modTime = lastModTime)); [tauto|]. by rewrite bool_decide_eq_false_2.
Qed.

(** A [Get] past its window whose open, stat or read fails. *)
Lemma CachedFile_Get_open_fails (f : CachedFile (T := T)) now open parse maxAge e :
  maxAge <= time.Sub now (lastLoadTime f) ->
  open tt = Err e ->
  CachedFile_Get f now open parse maxAge = (Return (content f) (Some e), f, [OpOpen]).
Proof.
  intros Hage%Z.ltb_ge Hopen. by rewrite CachedFile_Get_paths, Hage, Hopen.
Qed.

Lemma CachedFile_Get_stat_fails (f : CachedFile (T := T)) now open parse maxAge file e :
  maxAge <= time.Sub now (lastLoadTime f) ->
  open tt = Ok file -> Stat file = Err e ->
  CachedFile_Get f now open parse maxAge
  = (Return (content f) (Some e), f, [OpOpen; OpStat; OpClose]).
Proof.
  intros Hage%Z.ltb_ge Hopen Hstat. by rewrite CachedFile_Get_paths, Hage, Hopen, Hstat.
Qed.

Lemma CachedFile_Get_parse_fails (f : CachedFile (T := T)) now open parse maxAge
    file stats e :
  maxAge <= time.Sub now (lastLoadTime f) ->
  open tt = Ok file -> Stat file = Ok stats ->
  ~ (time.IsZero (lastLoadTime f) = false
     /\ Size stats = lastSize f /\ ModTime stats = lastModTime f) ->
  parse file = Err e ->
  CachedFile_Get f now open parse maxAge
  = (Return (content f) (Some e), f, [OpOpen; OpStat; OpParse; OpClose]).
Proof.
  intros Hage%Z.ltb_ge Hopen Hstat Hnot%not_validated Hparse.
  by rewrite CachedFile_Get_paths, Hage, Hopen, Hstat, Hnot, Hparse.
Qed.

Lemma dir_past_window (last now : time.Time) (maxAge : time.Duration) :
  time.IsZero last = true \/ maxAge <= time.Sub now last ->
  negb (time.IsZero last) && (time.Sub now last <? maxAge) = false.
Proof.
  intros [-> | Hage%Z.ltb_ge]; [done|]. by rewrite Hage, andb_false_r.
Qed.

Lemma CachedDir_Get_open_fails (f : CachedDir (DirEntry := DirEntry)) now open maxAge e :
  time.IsZero (d_lastLoadTime f) = true \/ maxAge <= time.Sub now (d_lastLoadTime f) ->
  open tt = Err e ->
  CachedDir_Get f now open maxAge = (Return (entries f) (Some e), f, [OpOpen]).
Proof.
  intros Hage%dir_past_window Hopen. by rewrite CachedDir_Get_paths, Hage, Hopen.
Qed.

Lemma CachedDir_Get_stat_fails (f : CachedDir (DirEntry := DirEntry)) now open maxAge
    file e :
  time.IsZero (d_lastLoadTime f) = true \/ maxAge <= time.Sub now (d_lastLoadTime f) ->
  open tt = Ok file -> Stat file = Err e ->
  CachedDir_Get f now open maxAge
  = (Return (entries f) (Some e), f, [OpOpen; OpStat; OpClose]).
Proof.
  intros Hage%dir_past_window Hopen Hstat.
  by rewrite CachedDir_Get_paths, Hage, Hopen, Hstat.
Qed.

Lemma CachedDir_Get_read_fails (f : CachedDir (DirEntry := DirEntry)) now open maxAge
    file stats e :
  time.IsZero (d_lastLoadTime f) = true \/ maxAge <= time.Sub now (d_lastLoadTime f) ->
  open tt = Ok file -> Stat file = Ok stats ->
  ~ (time.IsZero (d_lastLoadTime f) = false
     /\ Size stats = d_lastSize f /\ ModTime stats = d_lastModTime f) ->
  AsReadDirFile file = Some (Err e) ->
  CachedDir_Get f now open maxAge
  = (Return (entries f) (Some e), f, [OpOpen; OpStat; OpReadDir; OpClose]).
Proof.
  intros Hage%dir_past_window Hopen Hstat Hnot%not_validated Hread.
  by rewrite CachedDir_Get_paths, Hage, Hopen, Hstat, Hnot, Hread.
Qed.

(** A wrapper past its window at both clock readings does what the engine
    does. *)
Lemma ConcurrentCachedFile_Get_engine (f : ConcurrentCachedFile (T := T))
    now1 now2 open parse maxAge res f' ops :
  time.IsZero (lastLoadTime (cachedFile f)) = true
  \/ maxAge <= time.Since now1 (lastLoadTime (cachedFile f)) ->
  CachedFile_Get (cachedFile f) now2 open parse maxAge = (res, f', ops) ->
  ConcurrentCachedFile_Get f now1 now2 open parse maxAge
  = (res, {| cachedFile := f' |}, ops).
Proof.
  intros Hage%dir_past_window Hget.
  by rewrite ConcurrentCachedFile_Get_paths, Hage, Hget.
Qed.

Lemma ConcurrentCachedDir_Get_engine (f : ConcurrentCachedDir (DirEntry := DirEntry))
    now1 now2 open maxAge res f' ops :
  time.IsZero (d_lastLoadTime (cachedDir f)) = true
  \/ maxAge <= time.Since now1 (d_lastLoadTime (cachedDir f)) ->
  CachedDir_Get (cachedDir f) now2 open maxAge = (res, f', ops) ->
  ConcurrentCachedDir_Get f now1 now2 open maxAge
  = (res, {| cachedDir := f' |}, ops).
Proof.
  intros Hage%dir_past_window Hget.
  by rewrite ConcurrentCachedDir_Get_paths, Hage, Hget.
Qed.

(** With a window that is not positive the age test fails. *)
Lemma not_fresh_when_maxAge_nonpositive (last now : time.Time) (maxAge : time.Duration) :
  maxAge <= 0 -> time.After last now = false -> (time.Sub now last <? maxAge) = false.
Proof.
  intros Hmax Hle. apply Z.ltb_ge. pose proof (Sub_nonneg now last Hle). lia.
Qed.

Lemma CachedFile_Get_opens (f : CachedFile (T := T)) now open parse maxAge :
  (time.Sub now (lastLoadTime f) <? maxAge) = false ->
  exists ops', (CachedFile_Get f now open parse maxAge).2 = OpOpen :: ops'.
Proof.
  intros Hage. rewrite CachedFile_Get_paths, Hage.
  repeat case_match; by eexists.
Qed.

Lemma CachedDir_Get_opens (f : CachedDir (DirEntry := DirEntry)) now open maxAge :
  (time.Sub now (d_lastLoadTime f) <? maxAge) = false ->
  exists ops', (CachedDir_Get f now open maxAge).2 = OpOpen :: ops'.
Proof.
  intros Hage. rewrite CachedDir_Get_paths, Hage, andb_false_r.
  repeat case_match; by eexists.
Qed.

End EngineSteps.

Section StepClaims.

Context {error DirEntry File : Type} `{!fs_File error DirEntry File} {T : Type}.
Variable zeroT : T.

Local Open Scope Z_scope.

(** C2. A [Get] that is not answered from the cache (the entry is past its
    window) and whose open fails with the error [e], or whose open succeeds
    and whose stat fails with [e], or whose stat succeeds without
    revalidating the entry and whose read (the parse of the file, the
    listing of the directory) fails with [e], returns [e] itself together
    with the value of the latest successful load of the entry, the zero
    value when the entry, followed from its creation, was never loaded; it
    leaves the entry as it was and stops at the failing step, closing the
    file it opened. Conversely, every error that a [Get] returns is the
    error of the open, the stat or the read that the call performed, and
    comes with that value. This holds for [CachedFile.Get], [CachedDir.Get]
    and the two concurrency-safe wrappers, which are past the window at
    both of their clock readings. *)
Theorem failed_get_returns_last_good_value_and_step_error :
  (forall calls (f : CachedFile (T := T)) obs c,
      run CachedFile_call (CachedFile_zero zeroT) calls = (f, obs) ->
      (fc_maxAge c <= time.Sub (fc_now c) (lastLoadTime f) ->
       (forall e, fc_open c tt = Err e ->
          CachedFile_call f c = (Return (last_good zeroT obs) (Some e), f, [OpOpen]))
       /\ (forall file e, fc_open c tt = Ok file -> Stat file = Err e ->
          CachedFile_call f c
          = (Return (last_good zeroT obs) (Some e), f, [OpOpen; OpStat; OpClose]))
       /\ (forall file stats e,
          fc_open c tt = Ok file -> Stat file = Ok stats ->
          ~ (time.IsZero (lastLoadTime f) = false
             /\ Size stats = lastSize f /\ ModTime stats = lastModTime f) ->
          fc_parse c file = Err e ->
          CachedFile_call f c
          = (Return (last_good zeroT obs) (Some e), f,
             [OpOpen; OpStat; OpParse; OpClose])))
      /\ (forall v e f' ops, CachedFile_call f c = (Return v (Some e), f', ops) ->
            v = last_good zeroT obs /\ v = content f /\ file_step_fails c ops e))
  /\ (forall calls (f : CachedDir (DirEntry := DirEntry)) obs c,
      run CachedDir_call CachedDir_zero calls = (f, obs) ->
      (time.IsZero (d_lastLoadTime f) = true
       \/ dc_maxAge c <= time.Sub (dc_now c) (d_lastLoadTime f) ->
       (forall e, dc_open c tt = Err e ->
          CachedDir_call f c = (Return (last_good [] obs) (Some e), f, [OpOpen]))
       /\ (forall file e, dc_open c tt = Ok file -> Stat file = Err e ->
          CachedDir_call f c
          = (Return (last_good [] obs) (Some e), f, [OpOpen; OpStat; OpClose]))
       /\ (forall file stats e,
          dc_open c tt = Ok file -> Stat file = Ok stats ->
          ~ (time.IsZero (d_lastLoadTime f) = false
             /\ Size stats = d_lastSize f /\ ModTime stats = d_lastModTime f) ->
          AsReadDirFile file = Some (Err e) ->
          CachedDir_call f c
          = (Return (last_good [] obs) (Some e), f,
             [OpOpen; OpStat; OpReadDir; OpClose])))
      /\ (forall v e f' ops, CachedDir_call f c = (Return v (Some e), f', ops) ->
            v = last_good [] obs /\ v = entries f /\ dir_step_fails c ops e))
  /\ (forall calls (f : ConcurrentCachedFile (T := T)) obs c,
      run ConcurrentCachedFile_call {| cachedFile := CachedFile_zero zeroT |} calls
      = (f, obs) ->
      (time.IsZero (lastLoadTime (cachedFile f)) = true
       \/ fc_maxAge c.2 <= time.Since c.1 (lastLoadTime (cachedFile f)) ->
       fc_maxAge c.2 <= time.Sub (fc_now c.2) (lastLoadTime (cachedFile f)) ->
       (forall e, fc_open c.2 tt = Err e ->
          ConcurrentCachedFile_call f c
          = (Return (last_good zeroT obs) (Some e), f, [OpOpen]))
       /\ (forall file e, fc_open c.2 tt = Ok file -> Stat file = Err e ->
          ConcurrentCachedFile_call f c
          = (Return (last_good zeroT obs) (Some e), f, [OpOpen; OpStat; OpClose]))
       /\ (forall file stats e,
          fc_open c.2 tt = Ok file -> Stat file = Ok stats ->
          ~ (time.IsZero (lastLoadTime (cachedFile f)) = false
             /\ Size stats = lastSize (cachedFile f)
             /\ ModTime stats = lastModTime (cachedFile f)) ->
          fc_parse c.2 file = Err e ->
          ConcurrentCachedFile_call f c
          = (Return (last_good zeroT obs) (Some e), f,
             [OpOpen; OpStat; OpParse; OpClose])))
      /\ (forall v e f' ops,
            ConcurrentCachedFile_call f c = (Return v (Some e), f', ops) ->
            v = last_good zeroT obs /\ v = content (cachedFile f)
            /\ file_step_fails c.2 ops e))
  /\ (forall calls (f : ConcurrentCachedDir (DirEntry := DirEntry)) obs c,
      run ConcurrentCachedDir_call {| cachedDir := CachedDir_zero |} calls = (f, obs) ->
      (time.IsZero (d_lastLoadTime (cachedDir f)) = true
       \/ dc_maxAge c.2 <= time.Since c.1 (d_lastLoadTime (cachedDir f)) ->
       time.IsZero (d_lastLoadTime (cachedDir f)) = true
       \/ dc_maxAge c.2 <= time.Sub (dc_now c.2) (d_lastLoadTime (cachedDir f)) ->
       (forall e, dc_open c.2 tt = Err e ->
          ConcurrentCachedDir_call f c
          = (Return (last_good [] obs) (Some e), f, [OpOpen]))
       /\ (forall file e, dc_open c.2 tt = Ok file -> Stat file = Err e ->
          ConcurrentCachedDir_call f c
          = (Return (last_good [] obs) (Some e), f, [OpOpen; OpStat; OpClose]))
       /\ (forall file stats e,
          dc_open c.2 tt = Ok file -> Stat file = Ok stats ->
          ~ (time.IsZero (d_lastLoadTime (cachedDir f)) = false
             /\ Size stats = d_lastSize (cachedDir f)
             /\ ModTime stats = d_lastModTime (cachedDir f)) ->
          AsReadDirFile file = Some (Err e) ->
          ConcurrentCachedDir_call f c
          = (Return (last_good [] obs) (Some e), f,
             [OpOpen; OpStat; OpReadDir; OpClose])))
      /\ (forall v e f' ops,
            ConcurrentCachedDir_call f c = (Return v (Some e), f', ops) ->
            v = last_good [] obs /\ v = entries (cachedDir f)
            /\ dir_step_fails c.2 ops e)).
Proof.
  split_and!.
  - intros calls f obs c Hrun.
    pose proof (run_last_good CachedFile_call content CachedFile_call_value
                  calls _ _ _ Hrun) as Hgood. simpl in Hgood.
    split.
    + intros Hage. rewrite <- Hgood. unfold CachedFile_call. split_and!.
      * intros e Hopen. by apply CachedFile_Get_open_fails.
      * intros file e Hopen Hstat. by eapply CachedFile_Get_stat_fails.
      * intros file stats e Hopen Hstat Hnot Hparse.
        by eapply CachedFile_Get_parse_fails.
    + intros v e f' ops Hcall.
      destruct (CachedFile_call_error f c _ f' ops Hcall) as [Hiff Hval].
      rewrite <- Hgood. split_and!; [by eapply Hval | by eapply Hval |].
      apply Hiff. by eexists.
  - intros calls f obs c Hrun.
    pose proof (run_last_good CachedDir_call entries CachedDir_call_value
                  calls _ _ _ Hrun) as Hgood. simpl in Hgood.
    split.
    + intros Hage. rewrite <- Hgood. unfold CachedDir_call. split_and!.
      * intros e Hopen. by apply CachedDir_Get_open_fails.
      * intros file e Hopen Hstat. by eapply CachedDir_Get_stat_fails.
      * intros file stats e Hopen Hstat Hnot Hread.
        by eapply CachedDir_Get_read_fails.
    + intros v e f' ops Hcall.
      destruct (CachedDir_call_error f c _ f' ops Hcall) as [Hiff Hval].
      rewrite <- Hgood. split_and!; [by eapply Hval | by eapply Hval |].
      apply Hiff. by eexists.
  - intros calls f obs c Hrun.
    pose proof (run_last_good ConcurrentCachedFile_call (fun f => content (cachedFile f))
                  ConcurrentCachedFile_call_value calls _ _ _ Hrun) as Hgood.
    simpl in Hgood.
    split.
    + intros Hage1 Hage2. rewrite <- Hgood. unfold ConcurrentCachedFile_call.
      destruct f as [f]. simpl in *. split_and!.
      * intros e Hopen. apply ConcurrentCachedFile_Get_engine; [done|].
        by apply CachedFile_Get_open_fails.
      * intros file e Hopen Hstat. apply ConcurrentCachedFile_Get_engine; [done|].
        by eapply CachedFile_Get_stat_fails.
      * intros file stats e Hopen Hstat Hnot Hparse.
        apply ConcurrentCachedFile_Get_engine; [done|].
        by eapply CachedFile_Get_parse_fails.
    + intros v e f' ops Hcall.
      destruct (ConcurrentCachedFile_call_error f c _ f' ops Hcall) as [Hiff Hval].
      rewrite <- Hgood. split_and!; [by eapply Hval | by eapply Hval |].
      apply Hiff. by eexists.
  - intros calls f obs c Hrun.
    pose proof (run_last_good ConcurrentCachedDir_call (fun f => entries (cachedDir f))
                  ConcurrentCachedDir_call_value calls _ _ _ Hrun) as Hgood.
    simpl in Hgood.
    split.
    + intros Hage1 Hage2. rewrite <- Hgood. unfold ConcurrentCachedDir_call.
      destruct f as [f]. simpl in *. split_and!.
      * intros e Hopen. apply ConcurrentCachedDir_Get_engine; [done|].
        by apply CachedDir_Get_open_fails.
      * intros file e Hopen Hstat. apply ConcurrentCachedDir_Get_engine; [done|].
        by eapply CachedDir_Get_stat_fails.
      * intros file stats e Hopen Hstat Hnot Hread.
        apply ConcurrentCachedDir_Get_engine; [done|].
        by eapply CachedDir_Get_read_fails.
    + intros v e f' ops Hcall.
      destruct (ConcurrentCachedDir_call_error f c _ f' ops Hcall) as [Hiff Hval].
      rewrite <- Hgood. split_and!; [by eapply Hval | by eapply Hval |].
      apply Hiff. by eexists.
Qed.

End StepClaims.

(** [a.json] is loaded and then gone: the length loaded before comes back
    with the error of [Open]; the root is listed and then unreadable.
    Through the wrappers, the loaded file cannot be statted and the listed
    root is gone. *)
Lemma failed_get_returns_last_good_value_and_step_error_witness :
  CachedFile_call (run CachedFile_call (CachedFile_zero 0%nat) [Demo.load_a]).1
    Demo.miss_a
  = (Return 5%nat (Some "file does not exist"), Demo.cachedA, [OpOpen])
  /\ CachedDir_call (run CachedDir_call CachedDir_zero [Demo.list_root]).1
       Demo.miss_root
     = (Return ["a.json"; "b.json"] (Some "readdir failed"), Demo.cachedRoot,
        [OpOpen; OpStat; OpReadDir; OpClose])
  /\ ConcurrentCachedFile_call
       (run ConcurrentCachedFile_call {| cachedFile := CachedFile_zero 0%nat |}
          [(Demo.clock 5000, Demo.load_a)]).1
       (Demo.clock 6000, Demo.stat_locked)
     = (Return 5%nat (Some "stat failed"), {| cachedFile := Demo.cachedA |},
        [OpOpen; OpStat; OpClose])
  /\ ConcurrentCachedDir_call
       (run ConcurrentCachedDir_call {| cachedDir := CachedDir_zero |}
          [(Demo.clock 5000, Demo.list_root)]).1
       (Demo.clock 6000, Demo.gone_root)
     = (Return ["a.json"; "b.json"] (Some "file does not exist"),
        {| cachedDir := Demo.cachedRoot |}, [OpOpen]).
Proof.
  split_and!.
  - refine (proj1 (proj1 (proj1 (failed_get_returns_last_good_value_and_step_error 0%nat)
                            [Demo.load_a]
                            (run CachedFile_call (CachedFile_zero 0%nat) [Demo.load_a]).1
                            (run CachedFile_call (CachedFile_zero 0%nat) [Demo.load_a]).2
                            Demo.miss_a _) _)
              "file does not exist" _).
    + vm_compute. reflexivity.
    + by vm_compute.
    + vm_compute. reflexivity.
  - refine (proj2 (proj2 (proj1 (proj1 (proj2
              (failed_get_returns_last_good_value_and_step_error 0%nat))
              [Demo.list_root]
              (run CachedDir_call CachedDir_zero [Demo.list_root]).1
              (run CachedDir_call CachedDir_zero [Demo.list_root]).2
              Demo.miss_root _) _))
              (Demo.unreadable_dir 4096 901)
              {| Size := 4096%Z; ModTime := Demo.modified 901 |}
              "readdir failed" _ _ _ _).
    + vm_compute. reflexivity.
    + right. by vm_compute.
    + reflexivity.
    + reflexivity.
    + intros (_ & _ & Hmod). vm_compute in Hmod. discriminate Hmod.
    + reflexivity.
  - refine (proj1 (proj2 (proj1 (proj1 (proj2 (proj2
              (failed_get_returns_last_good_value_and_step_error 0%nat)))
              [(Demo.clock 5000, Demo.load_a)]
              (run ConcurrentCachedFile_call {| cachedFile := CachedFile_zero 0%nat |}
                 [(Demo.clock 5000, Demo.load_a)]).1
              (run ConcurrentCachedFile_call {| cachedFile := CachedFile_zero 0%nat |}
                 [(Demo.clock 5000, Demo.load_a)]).2
              (Demo.clock 6000, Demo.stat_locked) _) _ _))
              Demo.unstatable "stat failed" _ _).
    + vm_compute. reflexivity.
    + right. by vm_compute.
    + by vm_compute.
    + vm_compute. reflexivity.
    + reflexivity.
  - refine (proj1 (proj1 (proj2 (proj2 (proj2
              (failed_get_returns_last_good_value_and_step_error 0%nat)))
              [(Demo.clock 5000, Demo.list_root)]
              (run ConcurrentCachedDir_call {| cachedDir := CachedDir_zero |}
                 [(Demo.clock 5000, Demo.list_root)]).1
              (run ConcurrentCachedDir_call {| cachedDir := CachedDir_zero |}
                 [(Demo.clock 5000, Demo.list_root)]).2
              (Demo.clock 6000, Demo.gone_root) _) _ _)
              "file does not exist" _).
    + vm_compute. reflexivity.
    + right. by vm_compute.
    + right. by vm_compute.
    + vm_compute. reflexivity.
Defined.

Section RevalidationClaims.

Context {error DirEntry File : Type} `{!fs_File error DirEntry File} {T : Type}.

Local Open Scope Z_scope.

(** C4. When a [Get] on a loaded entry stats the file and the size and the
    modification time of the stat result equal [lastSize] and [lastModTime]
    (for the modification time with the [==] of [Time]s: the same instant,
    the same monotonic reading or none on both sides, and the same
    [Location] pointer), the [Get] sets [lastLoadTime] to the current time,
    leaves [content] (or [entries]), [lastSize] and [lastModTime] as they
    were, performs no read and no parse (it opens, stats and closes), and
    returns the cached value with a nil error. This holds for
    [CachedFile.Get], [CachedDir.Get] and the two concurrency-safe wrappers,
    whose current time is the clock reading of the engine. *)
Theorem stat_match_refreshes_load_time_only :
  (forall (f : CachedFile (T := T)) now open parse maxAge res f' ops file stats,
      CachedFile_Get f now open parse maxAge = (res, f', ops) ->
      In OpStat ops ->
      open tt = Ok file -> Stat file = Ok stats ->
      time.IsZero (lastLoadTime f) = false ->
      Size stats = lastSize f -> ModTime stats = lastModTime f ->
      res = Return (content f) None
      /\ f' = {| lastLoadTime := now; lastSize := lastSize f;
                 lastModTime := lastModTime f; content := content f |}
      /\ ops = [OpOpen; OpStat; OpClose])
  /\ (forall (f : CachedDir (DirEntry := DirEntry)) now open maxAge res f' ops file stats,
      CachedDir_Get f now open maxAge = (res, f', ops) ->
      In OpStat ops ->
      open tt = Ok file -> Stat file = Ok stats ->
      time.IsZero (d_lastLoadTime f) = false ->
      Size stats = d_lastSize f -> ModTime stats = d_lastModTime f ->
      res = Return (entries f) None
      /\ f' = {| d_lastLoadTime := now; d_lastSize := d_lastSize f;
                 d_lastModTime := d_lastModTime f; entries := entries f |}
      /\ ops = [OpOpen; OpStat; OpClose])
  /\ (forall (f : ConcurrentCachedFile (T := T)) now1 now2 open parse maxAge
             res f' ops file stats,
      ConcurrentCachedFile_Get f now1 now2 open parse maxAge = (res, f', ops) ->
      In OpStat ops ->
      open tt = Ok file -> Stat file = Ok stats ->
      time.IsZero (lastLoadTime (cachedFile f)) = false ->
      Size stats = lastSize (cachedFile f) -> ModTime stats = lastModTime (cachedFile f) ->
      res = Return (content (cachedFile f)) None
      /\ f' = {| cachedFile :=
                   {| lastLoadTime := now2; lastSize := lastSize (cachedFile f);
                      lastModTime := lastModTime (cachedFile f);
                      content := content (cachedFile f) |} |}
      /\ ops = [OpOpen; OpStat; OpClose])
  /\ (forall (f : ConcurrentCachedDir (DirEntry := DirEntry)) now1 now2 open maxAge
             res f' ops file stats,
      ConcurrentCachedDir_Get f now1 now2 open maxAge = (res, f', ops) ->
      In OpStat ops ->
      open tt = Ok file -> Stat file = Ok stats ->
      time.IsZero (d_lastLoadTime (cachedDir f)) = false ->
      Size stats = d_lastSize (cachedDir f) ->
      ModTime stats = d_lastModTime (cachedDir f) ->
      res = Return (entries (cachedDir f)) None
      /\ f' = {| cachedDir :=
                   {| d_lastLoadTime := now2; d_lastSize := d_lastSize (cachedDir f);
                      d_lastModTime := d_lastModTime (cachedDir f);
                      entries := entries (cachedDir f) |} |}
      /\ ops = [OpOpen; OpStat; OpClose]).
Proof.
  split_and!.
  - apply CachedFile_Get_validated.
  - apply CachedDir_Get_validated.
  - intros f now1 now2 open parse maxAge res f' ops file stats Hget Hin.
    rewrite ConcurrentCachedFile_Get_paths in Hget.
    destruct (_ && _); [injection Hget as <- <- <-; destruct Hin|].
    cbv zeta in Hget.
    destruct (CachedFile_Get _ _ _ _ _) as [[res0 c] ops0] eqn:Hengine.
    injection Hget as <- <- <-. intros Hopen Hstat Hl Hsize Hmod.
    destruct (CachedFile_Get_validated _ _ _ _ _ _ _ _ _ _
                Hengine Hin Hopen Hstat Hl Hsize Hmod) as (-> & -> & ->).
    done.
  - intros f now1 now2 open maxAge res f' ops file stats Hget Hin.
    rewrite ConcurrentCachedDir_Get_paths in Hget.
    destruct (_ && _); [injection Hget as <- <- <-; destruct Hin|].
    cbv zeta in Hget.
    destruct (CachedDir_Get _ _ _ _) as [[res0 c] ops0] eqn:Hengine.
    injection Hget as <- <- <-. intros Hopen Hstat Hl Hsize Hmod.
    destruct (CachedDir_Get_validated _ _ _ _ _ _ _ _ _
                Hengine Hin Hopen Hstat Hl Hsize Hmod) as (-> & -> & ->).
    done.
Qed.

(** C5. When a [Get] reaches the read (the parse of the file, the listing
    of the directory) and returns no error, the entry holds what this call
    observed: the value read, the size and the modification time of the
    stat result of this call, and the current time as [lastLoadTime], so
    that it counts as loaded (the clock never reads the zero time); the
    value read is returned with a nil error, after one open, one stat, one
    read and one close. This holds for [CachedFile.Get], [CachedDir.Get]
    and the two concurrency-safe wrappers. *)
Theorem successful_load_updates_entry :
  (forall (f : CachedFile (T := T)) now open parse maxAge v f' ops,
      CachedFile_Get f now open parse maxAge = (Return v None, f', ops) ->
      In OpParse ops ->
      exists file stats,
        open tt = Ok file /\ Stat file = Ok stats /\ parse file = Ok v
        /\ f' = {| lastLoadTime := now; lastSize := Size stats;
                   lastModTime := ModTime stats; content := v |}
        /\ ops = [OpOpen; OpStat; OpParse; OpClose]
        /\ (time.IsZero now = false -> CachedFile_Cached f' = (v, now, true)))
  /\ (forall (f : CachedDir (DirEntry := DirEntry)) now open maxAge v f' ops,
      CachedDir_Get f now open maxAge = (Return v None, f', ops) ->
      In OpReadDir ops ->
      exists file stats,
        open tt = Ok file /\ Stat file = Ok stats /\ AsReadDirFile file = Some (Ok v)
        /\ f' = {| d_lastLoadTime := now; d_lastSize := Size stats;
                   d_lastModTime := ModTime stats; entries := v |}
        /\ ops = [OpOpen; OpStat; OpReadDir; OpClose]
        /\ (time.IsZero now = false -> CachedDir_Cached f' = (v, now, true)))
  /\ (forall (f : ConcurrentCachedFile (T := T)) now1 now2 open parse maxAge v f' ops,
      ConcurrentCachedFile_Get f now1 now2 open parse maxAge = (Return v None, f', ops) ->
      In OpParse ops ->
      exists file stats,
        open tt = Ok file /\ Stat file = Ok stats /\ parse file = Ok v
        /\ f' = {| cachedFile :=
                     {| lastLoadTime := now2; lastSize := Size stats;
                        lastModTime := ModTime stats; content := v |} |}
        /\ ops = [OpOpen; OpStat; OpParse; OpClose]
        /\ (time.IsZero now2 = false ->
            ConcurrentCachedFile_Cached f' = (v, now2, true)))
  /\ (forall (f : ConcurrentCachedDir (DirEntry := DirEntry)) now1 now2 open maxAge v f' ops,
      ConcurrentCachedDir_Get f now1 now2 open maxAge = (Return v None, f', ops) ->
      In OpReadDir ops ->
      exists file stats,
        open tt = Ok file /\ Stat file = Ok stats /\ AsReadDirFile file = Some (Ok v)
        /\ f' = {| cachedDir :=
                     {| d_lastLoadTime := now2; d_lastSize := Size stats;
                        d_lastModTime := ModTime stats; entries := v |} |}
        /\ ops = [OpOpen; OpStat; OpReadDir; OpClose]
        /\ (time.IsZero now2 = false ->
            ConcurrentCachedDir_Cached f' = (v, now2, true))).
Proof.
  split_and!.
  - intros f now open parse maxAge v f' ops Hget Hin.
    destruct (CachedFile_Get_loaded _ _ _ _ _ _ _ _ Hget Hin)
      as (file & stats & ? & ? & ? & -> & -> ).
    exists file, stats. split_and!; try done.
    intros Hnow. unfold CachedFile_Cached. simpl. by rewrite Hnow.
  - intros f now open maxAge v f' ops Hget Hin.
    destruct (CachedDir_Get_loaded _ _ _ _ _ _ _ Hget Hin)
      as (file & stats & ? & ? & ? & -> & -> ).
    exists file, stats. split_and!; try done.
    intros Hnow. unfold CachedDir_Cached. simpl. by rewrite Hnow.
  - intros f now1 now2 open parse maxAge v f' ops Hget Hin.
    rewrite ConcurrentCachedFile_Get_paths in Hget.
    destruct (_ && _); [injection Hget as <- <- <-; destruct Hin|].
    cbv zeta in Hget.
    destruct (CachedFile_Get _ _ _ _ _) as [[res0 c] ops0] eqn:Hengine.
    injection Hget as -> <- <-.
    destruct (CachedFile_Get_loaded _ _ _ _ _ _ _ _ Hengine Hin)
      as (file & stats & ? & ? & ? & -> & -> ).
    exists file, stats. split_and!; try done.
    intros Hnow. unfold ConcurrentCachedFile_Cached, CachedFile_Cached. simpl.
    by rewrite Hnow.
  - intros f now1 now2 open maxAge v f' ops Hget Hin.
    rewrite ConcurrentCachedDir_Get_paths in Hget.
    destruct (_ && _); [injection Hget as <- <- <-; destruct Hin|].
    cbv zeta in Hget.
    destruct (CachedDir_Get _ _ _ _) as [[res0 c] ops0] eqn:Hengine.
    injection Hget as -> <- <-.
    destruct (CachedDir_Get_loaded _ _ _ _ _ _ _ Hengine Hin)
      as (file & stats & ? & ? & ? & -> & -> ).
    exists file, stats. split_and!; try done.
    intros Hnow. unfold ConcurrentCachedDir_Cached, CachedDir_Cached. simpl.
    by rewrite Hnow.
Qed.

End RevalidationClaims.

(** The cached [a.json] asked for at 6000, after its window, while the file
    has the size and the modification time of the load. *)
Lemma stat_match_refreshes_load_time_only_witness :
  (CachedFile_Get Demo.cachedA (Demo.clock 6000) (Demo.open_name Demo.disk "a.json")
     Demo.parse_length 100%Z).1.1 = Return 5%nat None
  /\ (CachedFile_Get Demo.cachedA (Demo.clock 6000) (Demo.open_name Demo.disk "a.json")
        Demo.parse_length 100%Z).1.2
     = {| lastLoadTime := Demo.clock 6000; lastSize := 5%Z; lastModTime := Demo.modified 1000;
          content := 5%nat |}
  /\ (CachedFile_Get Demo.cachedA (Demo.clock 6000) (Demo.open_name Demo.disk "a.json")
        Demo.parse_length 100%Z).2 = [OpOpen; OpStat; OpClose].
Proof.
  refine (proj1 (stat_match_refreshes_load_time_only (T := nat))
            Demo.cachedA (Demo.clock 6000) (Demo.open_name Demo.disk "a.json")
            Demo.parse_length 100%Z _ _ _
            (Demo.regular 5 1000 "hello") {| Size := 5%Z; ModTime := Demo.modified 1000 |}
            _ _ _ _ _ _ _).
  - vm_compute. reflexivity.
  - vm_compute. auto.
  - vm_compute. reflexivity.
  - reflexivity.
  - reflexivity.
  - reflexivity.
  - reflexivity.
Defined.

(** The comparison of the modification times is exact: the instant of the
    load reported in another [Location] (here the nil pointer, UTC), or with
    a monotonic reading, is another [Time], and the file is parsed again. *)
Example same_instant_in_another_Location_reloads :
  CachedFile_Get Demo.cachedA (Demo.clock 6000)
    (fun _ => Ok {| Demo.h_stat :=
                      Ok {| Size := 5%Z;
                            ModTime := {| time.instant := 1000%Z; time.monotonic := None;
                                          time.loc := None |} |};
                    Demo.h_data := "HELLO"; Demo.h_dir := None |})
    Demo.parse_length 100%Z
  = (Return 5%nat None,
     {| lastLoadTime := Demo.clock 6000; lastSize := 5%Z;
        lastModTime := {| time.instant := 1000%Z; time.monotonic := None;
                          time.loc := None |};
        content := 5%nat |},
     [OpOpen; OpStat; OpParse; OpClose])
  /\ (CachedFile_Get Demo.cachedA (Demo.clock 6000)
        (fun _ => Ok {| Demo.h_stat :=
                          Ok {| Size := 5%Z;
                                ModTime := {| time.instant := 1000%Z;
                                              time.monotonic := Some 7%Z;
                                              time.loc := time.Local |} |};
                        Demo.h_data := "HELLO"; Demo.h_dir := None |})
        Demo.parse_length 100%Z).2
     = [OpOpen; OpStat; OpParse; OpClose].
Proof. vm_compute. split; reflexivity. Qed.

(** A new entry loads [a.json] at 5000, and a new entry lists the root. *)
Lemma successful_load_updates_entry_witness :
  (exists file stats,
      Demo.open_name Demo.disk "a.json" tt = Ok file
      /\ Stat file = Ok stats /\ Demo.parse_length file = Ok 5%nat
      /\ (CachedFile_Get (CachedFile_zero 0%nat) (Demo.clock 5000)
            (Demo.open_name Demo.disk "a.json") Demo.parse_length 100%Z).1.2
         = {| lastLoadTime := Demo.clock 5000; lastSize := Size stats;
              lastModTime := ModTime stats; content := 5%nat |}
      /\ (CachedFile_Get (CachedFile_zero 0%nat) (Demo.clock 5000)
            (Demo.open_name Demo.disk "a.json") Demo.parse_length 100%Z).2
         = [OpOpen; OpStat; OpParse; OpClose]
      /\ (time.IsZero (Demo.clock 5000) = false ->
          CachedFile_Cached
            (CachedFile_Get (CachedFile_zero 0%nat) (Demo.clock 5000)
               (Demo.open_name Demo.disk "a.json") Demo.parse_length 100%Z).1.2
          = (5%nat, Demo.clock 5000, true)))
  /\ (CachedFile_Get (CachedFile_zero 0%nat) (Demo.clock 5000)
        (Demo.open_name Demo.disk "a.json") Demo.parse_length 100%Z).1.2
     = Demo.cachedA.
Proof.
  split; [|vm_compute; reflexivity].
  refine (proj1 (successful_load_updates_entry (T := nat))
            (CachedFile_zero 0%nat) (Demo.clock 5000) (Demo.open_name Demo.disk "a.json")
            Demo.parse_length 100%Z 5%nat _ _ _ _).
  - vm_compute. reflexivity.
  - vm_compute. auto 6.
Defined.

Section WindowClaims.

Context {error DirEntry File : Type} `{!fs_File error DirEntry File} {T : Type}.

Local Open Scope Z_scope.

(** C6. With a [maxAge] that is zero or negative the fast path never
    triggers: whatever the entry holds and however recently it was loaded,
    as long as the clock has not gone back behind [lastLoadTime]
    ([lastLoadTime] is not [After] the clock reading), every [Get] goes on
    to open the file. This holds for [CachedFile.Get],
    [CachedDir.Get] and the two concurrency-safe wrappers. *)
Theorem nonpositive_max_age_always_opens :
  (forall (f : CachedFile (T := T)) now open parse maxAge,
      maxAge <= 0 -> time.After (lastLoadTime f) now = false ->
      exists ops', (CachedFile_Get f now open parse maxAge).2 = OpOpen :: ops')
  /\ (forall (f : CachedDir (DirEntry := DirEntry)) now open maxAge,
      maxAge <= 0 -> time.After (d_lastLoadTime f) now = false ->
      exists ops', (CachedDir_Get f now open maxAge).2 = OpOpen :: ops')
  /\ (forall (f : ConcurrentCachedFile (T := T)) now1 now2 open parse maxAge,
      maxAge <= 0 ->
      time.After (lastLoadTime (cachedFile f)) now1 = false ->
      time.After (lastLoadTime (cachedFile f)) now2 = false ->
      exists ops',
        (ConcurrentCachedFile_Get f now1 now2 open parse maxAge).2 = OpOpen :: ops')
  /\ (forall (f : ConcurrentCachedDir (DirEntry := DirEntry)) now1 now2 open maxAge,
      maxAge <= 0 ->
      time.After (d_lastLoadTime (cachedDir f)) now1 = false ->
      time.After (d_lastLoadTime (cachedDir f)) now2 = false ->
      exists ops',
        (ConcurrentCachedDir_Get f now1 now2 open maxAge).2 = OpOpen :: ops').
Proof.
  split_and!.
  - intros f now open parse maxAge Hmax Hle.
    apply CachedFile_Get_opens. by apply not_fresh_when_maxAge_nonpositive.
  - intros f now open maxAge Hmax Hle.
    apply CachedDir_Get_opens. by apply not_fresh_when_maxAge_nonpositive.
  - intros f now1 now2 open parse maxAge Hmax Hle1 Hle2.
    rewrite ConcurrentCachedFile_Get_paths.
    rewrite (not_fresh_when_maxAge_nonpositive _ now1) by done.
    rewrite andb_false_r. cbv zeta. simpl.
    apply CachedFile_Get_opens. by apply not_fresh_when_maxAge_nonpositive.
  - intros f now1 now2 open maxAge Hmax Hle1 Hle2.
    rewrite ConcurrentCachedDir_Get_paths.
    rewrite (not_fresh_when_maxAge_nonpositive _ now1) by done.
    rewrite andb_false_r. cbv zeta. simpl.
    apply CachedDir_Get_opens. by apply not_fresh_when_maxAge_nonpositive.
Qed.

(** C10. A [CachedDir.Get] that is not answered by the fast path, that
    opens and stats a handle, that is not revalidated by the stat result,
    and whose handle does not implement [fs.ReadDirFile], panics with
    "directory doesn't implement ReadDirFile": it returns neither a value
    nor an error. The entry is as before, and the deferred close has run. *)
Theorem dir_get_panics_without_ReadDirFile :
  forall (f : CachedDir (DirEntry := DirEntry)) now open maxAge file stats,
    negb (time.IsZero (d_lastLoadTime f)) && (time.Sub now (d_lastLoadTime f) <? maxAge)
    = false ->
    open tt = Ok file -> Stat file = Ok stats ->
    negb (time.IsZero (d_lastLoadTime f))
    && (Size stats =? d_lastSize f) && bool_decide (ModTime stats = d_lastModTime f) = false ->
    AsReadDirFile file = None ->
    CachedDir_Get f now open maxAge
    = (Panic "directory doesn't implement ReadDirFile", f, [OpOpen; OpStat; OpClose])
    /\ forall v err, (CachedDir_Get f now open maxAge).1.1 <> Return v err.
Proof.
  intros f now open maxAge file stats Hage Hopen Hstat Hvalid Hdir.
  rewrite CachedDir_Get_paths, Hage, Hopen, Hstat, Hvalid, Hdir. done.
Qed.

End WindowClaims.

(** The cached [a.json] and the cached root, both loaded at 5000, asked for
    at 5000 with a window of zero. *)
Lemma nonpositive_max_age_always_opens_witness :
  (exists ops',
      (CachedFile_Get Demo.cachedA (Demo.clock 5000) (Demo.open_name Demo.disk "a.json")
         Demo.parse_length 0%Z).2 = OpOpen :: ops')
  /\ (exists ops',
        (CachedDir_Get Demo.cachedRoot (Demo.clock 5000) (Demo.open_name Demo.disk ".")
           (-5)%Z).2
        = OpOpen :: ops').
Proof.
  split.
  - apply (proj1 (nonpositive_max_age_always_opens (T := nat))
             Demo.cachedA (Demo.clock 5000) (Demo.open_name Demo.disk "a.json")
             Demo.parse_length 0%Z); [simpl; lia | reflexivity].
  - apply (proj1 (proj2 (nonpositive_max_age_always_opens (T := nat)))
             Demo.cachedRoot (Demo.clock 5000) (Demo.open_name Demo.disk ".") (-5)%Z);
      [simpl; lia | reflexivity].
Defined.

(** [GetDir] on the regular file [a.json]. *)
Lemma dir_get_panics_without_ReadDirFile_witness :
  CachedDir_Get (DirEntry := string) CachedDir_zero (Demo.clock 5000)
    (Demo.open_name Demo.disk "a.json") 100%Z
  = (Panic "directory doesn't implement ReadDirFile", CachedDir_zero,
     [OpOpen; OpStat; OpClose]).
Proof.
  refine (proj1 (dir_get_panics_without_ReadDirFile
                   CachedDir_zero (Demo.clock 5000) (Demo.open_name Demo.disk "a.json") 100%Z
                   (Demo.regular 5 1000 "hello") {| Size := 5%Z; ModTime := Demo.modified 1000 |}
                   _ _ _ _ _)); reflexivity.
Defined.

(** ** The claims about the cache objects *)

Section RegistryClaims.

Context {error DirEntry File : Type} `{!fs_File error DirEntry File}.
Context {T : Type} (zeroT : T) {World : Type}.

Local Abbreviation FsCache :=
  (FsCache (error := error) (DirEntry := DirEntry) (File := File) (T := T) (World := World)).
Local Abbreviation ConcurrentFsCache :=
  (ConcurrentFsCache (error := error) (DirEntry := DirEntry) (File := File)
     (T := T) (World := World)).

(** An error through [FsCache] removes the key, and the next call runs the
    engine on a new entry. *)
Lemma FsCache_GetFile_error_evicts (cache : FsCache) w now file maxAge v e cache' ops :
  FsCache_GetFileWithMaxAge zeroT cache w now file maxAge = (Return v (Some e), cache', ops) ->
  FsCache_GetFileEntry cache' file = None
  /\ forall w' now' maxAge',
      exists open',
        opener (fs cache') w' (cleanPath file) = inr open'
        /\ (FsCache_GetFileWithMaxAge zeroT cache' w' now' file maxAge').1.1
           = (CachedFile_Get (CachedFile_zero zeroT) now' open' (parser cache') maxAge').1.1
        /\ (FsCache_GetFileWithMaxAge zeroT cache' w' now' file maxAge').2
           = (CachedFile_Get (CachedFile_zero zeroT) now' open' (parser cache') maxAge').2.
Proof.
  intros Hget.
  destruct (FsCache_GetFileWithMaxAge_entry zeroT cache w now file maxAge)
    as (open & _ & Heq).
  rewrite Heq in Hget. cbv zeta in Hget.
  destruct (CachedFile_Get _ now open _ maxAge) as [[res c'] ops0].
  simpl in Hget. injection Hget as -> <- <-.
  assert (FsCache_GetFileEntry
            (FsCache_with_files cache (delete (cleanPath file) (files cache))) file
          = None) as Hnone.
  { unfold FsCache_GetFileEntry. simpl. apply lookup_delete_eq. }
  split; [exact Hnone|].
  intros w' now' maxAge'.
  destruct (FsCache_GetFileWithMaxAge_entry zeroT
              (FsCache_with_files cache (delete (cleanPath file) (files cache)))
              w' now' file maxAge') as (open' & Hopen' & ->).
  exists open'. split; [exact Hopen'|].
  unfold FsCache_GetFileEntry in Hnone. rewrite Hnone. done.
Qed.

Lemma FsCache_GetDir_error_evicts (cache : FsCache) w now dir maxAge v e cache' ops :
  FsCache_GetDirWithMaxAge cache w now dir maxAge = (Return v (Some e), cache', ops) ->
  FsCache_GetDirEntry cache' dir = None
  /\ forall w' now' maxAge',
      exists open',
        opener (fs cache') w' (cleanPath dir) = inr open'
        /\ (FsCache_GetDirWithMaxAge cache' w' now' dir maxAge').1.1
           = (CachedDir_Get CachedDir_zero now' open' maxAge').1.1
        /\ (FsCache_GetDirWithMaxAge cache' w' now' dir maxAge').2
           = (CachedDir_Get CachedDir_zero now' open' maxAge').2.
Proof.
  intros Hget.
  destruct (FsCache_GetDirWithMaxAge_entry cache w now dir maxAge) as (open & _ & Heq).
  rewrite Heq in Hget. cbv zeta in Hget.
  destruct (CachedDir_Get _ now open maxAge) as [[res c'] ops0].
  simpl in Hget. injection Hget as -> <- <-.
  assert (FsCache_GetDirEntry
            (FsCache_with_dirs cache (delete (cleanPath dir) (dirs cache))) dir
          = None) as Hnone.
  { unfold FsCache_GetDirEntry. simpl. apply lookup_delete_eq. }
  split; [exact Hnone|].
  intros w' now' maxAge'.
  destruct (FsCache_GetDirWithMaxAge_entry
              (FsCache_with_dirs cache (delete (cleanPath dir) (dirs cache)))
              w' now' dir maxAge') as (open' & Hopen' & ->).
  exists open'. split; [exact Hopen'|].
  unfold FsCache_GetDirEntry in Hnone. rewrite Hnone. done.
Qed.

(** An error through [ConcurrentFsCache] changes nothing in the cache. *)
Lemma getFile_error_keeps (cache : ConcurrentFsCache)
    w now1 now2 file maxAge0 useMaxAge v e cache' ops :
  getFile zeroT cache w now1 now2 file maxAge0 useMaxAge = (Return v (Some e), cache', ops) ->
  cache' = cache
  /\ forall c, ConcurrentFsCache_GetFileEntry cache file = Some c ->
               v = content (cachedFile c).
Proof.
  intros Hget.
  destruct (getFile_entry zeroT cache w now1 now2 file maxAge0 useMaxAge)
    as (open & _ & Heq).
  rewrite Heq in Hget. cbv zeta in Hget.
  destruct (ConcurrentCachedFile_Get _ now1 now2 open _ _) as [[res c'] ops0] eqn:Hengine.
  simpl in Hget. unfold ConcurrentFsCache_GetFileEntry.
  destruct (cfiles cache !! cleanPath file) as [c|] eqn:Hfound; simpl in *.
  - injection Hget as -> <- <-.
    apply ConcurrentCachedFile_Get_error_frame in Hengine as [-> ->].
    rewrite insert_id by done. split; [apply eta_ConcurrentFsCache|].
    by intros ? [= <-].
  - injection Hget as -> <- <-. done.
Qed.

Lemma getDir_error_keeps (cache : ConcurrentFsCache)
    w now1 now2 dir maxAge0 useMaxAge v e cache' ops :
  getDir cache w now1 now2 dir maxAge0 useMaxAge = (Return v (Some e), cache', ops) ->
  cache' = cache
  /\ forall c, ConcurrentFsCache_GetDirEntry cache dir = Some c ->
               v = entries (cachedDir c).
Proof.
  intros Hget.
  destruct (getDir_entry cache w now1 now2 dir maxAge0 useMaxAge) as (open & _ & Heq).
  rewrite Heq in Hget. cbv zeta in Hget.
  destruct (ConcurrentCachedDir_Get _ now1 now2 open _) as [[res c'] ops0] eqn:Hengine.
  simpl in Hget. unfold ConcurrentFsCache_GetDirEntry.
  destruct (cdirs cache !! cleanPath dir) as [c|] eqn:Hfound; simpl in *.
  - injection Hget as -> <- <-.
    apply ConcurrentCachedDir_Get_error_frame in Hengine as [-> ->].
    rewrite insert_id by done. split; [apply eta_ConcurrentFsCache_dirs|].
    by intros ? [= <-].
  - injection Hget as -> <- <-. done.
Qed.

(** C7. When a [Get] through the single-threaded [FsCache] returns an
    error, the key of the path is gone from the registry: a lookup finds no
    entry and the next [Get] on the path runs the engine on a new, unloaded
    entry. When a [Get] through [ConcurrentFsCache] returns an error, the
    cache is as before the call: an entry that was in the registry is still
    there, unchanged, and its value is the one returned with the error; a
    path that had no entry still has none. *)
Theorem error_evicts_in_FsCache_and_keeps_in_ConcurrentFsCache :
  (forall (cache : FsCache) w now file maxAge v e cache' ops,
      FsCache_GetFileWithMaxAge zeroT cache w now file maxAge
      = (Return v (Some e), cache', ops) ->
      FsCache_GetFileEntry cache' file = None
      /\ forall w' now' maxAge',
          exists open',
            opener (fs cache') w' (cleanPath file) = inr open'
            /\ (FsCache_GetFileWithMaxAge zeroT cache' w' now' file maxAge').1.1
               = (CachedFile_Get (CachedFile_zero zeroT) now' open' (parser cache')
                    maxAge').1.1
            /\ (FsCache_GetFileWithMaxAge zeroT cache' w' now' file maxAge').2
               = (CachedFile_Get (CachedFile_zero zeroT) now' open' (parser cache')
                    maxAge').2)
  /\ (forall (cache : FsCache) w now dir maxAge v e cache' ops,
      FsCache_GetDirWithMaxAge cache w now dir maxAge = (Return v (Some e), cache', ops) ->
      FsCache_GetDirEntry cache' dir = None
      /\ forall w' now' maxAge',
          exists open',
            opener (fs cache') w' (cleanPath dir) = inr open'
            /\ (FsCache_GetDirWithMaxAge cache' w' now' dir maxAge').1.1
               = (CachedDir_Get CachedDir_zero now' open' maxAge').1.1
            /\ (FsCache_GetDirWithMaxAge cache' w' now' dir maxAge').2
               = (CachedDir_Get CachedDir_zero now' open' maxAge').2)
  /\ (forall (cache : ConcurrentFsCache) w now1 now2 file maxAge0 useMaxAge v e cache' ops,
      getFile zeroT cache w now1 now2 file maxAge0 useMaxAge
      = (Return v (Some e), cache', ops) ->
      cache' = cache
      /\ ConcurrentFsCache_GetFileEntry cache' file
         = ConcurrentFsCache_GetFileEntry cache file
      /\ forall c, ConcurrentFsCache_GetFileEntry cache file = Some c ->
                   v = content (cachedFile c))
  /\ (forall (cache : ConcurrentFsCache) w now1 now2 dir maxAge0 useMaxAge v e cache' ops,
      getDir cache w now1 now2 dir maxAge0 useMaxAge = (Return v (Some e), cache', ops) ->
      cache' = cache
      /\ ConcurrentFsCache_GetDirEntry cache' dir
         = ConcurrentFsCache_GetDirEntry cache dir
      /\ forall c, ConcurrentFsCache_GetDirEntry cache dir = Some c ->
                   v = entries (cachedDir c)).
Proof.
  split_and!.
  - apply FsCache_GetFile_error_evicts.
  - apply FsCache_GetDir_error_evicts.
  - intros cache w now1 now2 file maxAge0 useMaxAge v e cache' ops Hget.
    destruct (getFile_error_keeps _ _ _ _ _ _ _ _ _ _ _ Hget) as [-> Hv]. done.
  - intros cache w now1 now2 dir maxAge0 useMaxAge v e cache' ops Hget.
    destruct (getDir_error_keeps _ _ _ _ _ _ _ _ _ _ _ Hget) as [-> Hv]. done.
Qed.

End RegistryClaims.

(** [a.json] was loaded at 5000 and is gone at 6000: [FsCache] forgets the
    entry, [ConcurrentFsCache] keeps it. *)
Lemma error_evicts_in_FsCache_and_keeps_in_ConcurrentFsCache_witness :
  FsCache_GetFileEntry Demo.warm "a.json" = Some Demo.cachedA
  /\ FsCache_GetFileEntry
       (FsCache_GetFileWithMaxAge 0%nat Demo.warm (delete "a.json" Demo.disk)
          (Demo.clock 6000) "a.json" 100%Z).1.2 "a.json" = None
  /\ ConcurrentFsCache_GetFileEntry
       (getFile 0%nat Demo.cwarm (delete "a.json" Demo.disk)
          (Demo.clock 6000) (Demo.clock 6000) "a.json" 0%Z false).1.2 "a.json"
     = Some {| cachedFile := Demo.cachedA |}.
Proof.
  split_and!.
  - vm_compute. reflexivity.
  - refine (proj1 (proj1 (error_evicts_in_FsCache_and_keeps_in_ConcurrentFsCache 0%nat)
                     Demo.warm (delete "a.json" Demo.disk) (Demo.clock 6000) "a.json" 100%Z
                     5%nat "file does not exist" _ [OpOpen] _)).
    vm_compute. reflexivity.
  - refine (eq_trans
              (proj1 (proj2 (proj1 (proj2 (proj2
                 (error_evicts_in_FsCache_and_keeps_in_ConcurrentFsCache 0%nat)))
                 Demo.cwarm (delete "a.json" Demo.disk) (Demo.clock 6000) (Demo.clock 6000)
                 "a.json" 0%Z false
                 5%nat "file does not exist" _ [OpOpen] _))) _).
    + vm_compute. reflexivity.
    + vm_compute. reflexivity.
Defined.

Section PathClaims.

Context {error DirEntry File : Type} `{!fs_File error DirEntry File}.
Context {T : Type} (zeroT : T) {World : Type}.

Local Abbreviation FsCache :=
  (FsCache (error := error) (DirEntry := DirEntry) (File := File) (T := T) (World := World)).
Local Abbreviation ConcurrentFsCache :=
  (ConcurrentFsCache (error := error) (DirEntry := DirEntry) (File := File)
     (T := T) (World := World)).

(** A call touches the registry under the cleaned path only. *)
Lemma FsCache_GetFileWithMaxAge_frame (cache : FsCache) w now file maxAge k :
  k <> cleanPath file ->
  files (FsCache_GetFileWithMaxAge zeroT cache w now file maxAge).1.2 !! k
  = files cache !! k
  /\ dirs (FsCache_GetFileWithMaxAge zeroT cache w now file maxAge).1.2 = dirs cache.
Proof.
  intros Hk.
  destruct (FsCache_GetFileWithMaxAge_entry zeroT cache w now file maxAge)
    as (open & _ & ->).
  cbv zeta. simpl. split; [|done].
  repeat case_match; by rewrite ?lookup_delete_ne, ?lookup_insert_ne.
Qed.

Lemma FsCache_GetDirWithMaxAge_frame (cache : FsCache) w now dir maxAge k :
  k <> cleanPath dir ->
  dirs (FsCache_GetDirWithMaxAge cache w now dir maxAge).1.2 !! k = dirs cache !! k
  /\ files (FsCache_GetDirWithMaxAge cache w now dir maxAge).1.2 = files cache.
Proof.
  intros Hk.
  destruct (FsCache_GetDirWithMaxAge_entry cache w now dir maxAge) as (open & _ & ->).
  cbv zeta. simpl. split; [|done].
  repeat case_match; by rewrite ?lookup_delete_ne, ?lookup_insert_ne.
Qed.

Lemma getFile_frame (cache : ConcurrentFsCache) w now1 now2 file maxAge0 useMaxAge k :
  k <> cleanPath file ->
  cfiles (getFile zeroT cache w now1 now2 file maxAge0 useMaxAge).1.2 !! k
  = cfiles cache !! k
  /\ cdirs (getFile zeroT cache w now1 now2 file maxAge0 useMaxAge).1.2 = cdirs cache.
Proof.
  intros Hk.
  destruct (getFile_entry zeroT cache w now1 now2 file maxAge0 useMaxAge)
    as (open & _ & ->).
  cbv zeta. simpl.
  repeat case_match; simpl; by rewrite ?lookup_insert_ne.
Qed.

Lemma getDir_frame (cache : ConcurrentFsCache) w now1 now2 dir maxAge0 useMaxAge k :
  k <> cleanPath dir ->
  cdirs (getDir cache w now1 now2 dir maxAge0 useMaxAge).1.2 !! k = cdirs cache !! k
  /\ cfiles (getDir cache w now1 now2 dir maxAge0 useMaxAge).1.2 = cfiles cache.
Proof.
  intros Hk.
  destruct (getDir_entry cache w now1 now2 dir maxAge0 useMaxAge) as (open & _ & ->).
  cbv zeta. simpl.
  repeat case_match; simpl; by rewrite ?lookup_insert_ne.
Qed.

(** C8. Every operation of the two cache objects that takes a path looks
    the registry up, and changes it, under [cleanPath path] and under no
    other key. The lookups [GetFileEntry] and [GetDirEntry] return what the
    registry holds under [cleanPath path]. A [Get] runs the engine on the
    entry found under [cleanPath path], a new entry when there is none, and
    opens the cleaned path through [opener]; the entry that the engine
    leaves is put under [cleanPath path], or, in [FsCache], the key
    [cleanPath path] is deleted on an error, while [ConcurrentFsCache] puts
    a new entry there only after a call without error; the variants that
    take no [maxAge] are these very calls with the default window.
    [cleanPath path] is the separator followed by names that are not empty,
    hold no separator and are neither [.] nor [..], with one separator
    between them. So two paths with the same cleaned form name the same
    entry: each operation gives the same result on both, and what a [Get]
    on one of them loaded is found and served, within the window and
    without any filesystem operation, under the other. No key other than
    [cleanPath path] is touched. *)
Theorem operations_key_registry_by_cleanPath :
  (forall (cache : FsCache) p,
      FsCache_GetFileEntry cache p = files cache !! cleanPath p
      /\ FsCache_GetDirEntry cache p = dirs cache !! cleanPath p)
  /\ (forall (cache : ConcurrentFsCache) p,
      ConcurrentFsCache_GetFileEntry cache p = cfiles cache !! cleanPath p
      /\ ConcurrentFsCache_GetDirEntry cache p = cdirs cache !! cleanPath p)
  /\ (forall (cache : FsCache) w now p m,
      exists open,
        opener (fs cache) w (cleanPath p) = inr open
        /\ FsCache_GetFileWithMaxAge zeroT cache w now p m =
           let r := CachedFile_Get
                      (default (CachedFile_zero zeroT) (files cache !! cleanPath p))
                      now open (parser cache) m in
           (r.1.1,
            FsCache_with_files cache
              match r.1.1 with
              | Return _ (Some _) => delete (cleanPath p) (files cache)
              | _ => <[cleanPath p := r.1.2]> (files cache)
              end,
            r.2))
  /\ (forall (cache : FsCache) w now p m,
      exists open,
        opener (fs cache) w (cleanPath p) = inr open
        /\ FsCache_GetDirWithMaxAge cache w now p m =
           let r := CachedDir_Get
                      (default CachedDir_zero (dirs cache !! cleanPath p))
                      now open m in
           (r.1.1,
            FsCache_with_dirs cache
              match r.1.1 with
              | Return _ (Some _) => delete (cleanPath p) (dirs cache)
              | _ => <[cleanPath p := r.1.2]> (dirs cache)
              end,
            r.2))
  /\ (forall (cache : ConcurrentFsCache) w now1 now2 p m u,
      exists open,
        opener (cfs cache) w (cleanPath p) = inr open
        /\ getFile zeroT cache w now1 now2 p m u =
           let found := cfiles cache !! cleanPath p in
           let r := ConcurrentCachedFile_Get
                      (default {| cachedFile := CachedFile_zero zeroT |} found)
                      now1 now2 open (cparser cache)
                      (if negb u then maxAge cache else m) in
           (r.1.1,
            match found, r.1.1 with
            | Some _, _ | None, Return _ None =>
                ConcurrentFsCache_with_files cache
                  (<[cleanPath p := r.1.2]> (cfiles cache))
            | None, _ => cache
            end,
            r.2))
  /\ (forall (cache : ConcurrentFsCache) w now1 now2 p m u,
      exists open,
        opener (cfs cache) w (cleanPath p) = inr open
        /\ getDir cache w now1 now2 p m u =
           let found := cdirs cache !! cleanPath p in
           let r := ConcurrentCachedDir_Get
                      (default {| cachedDir := CachedDir_zero |} found)
                      now1 now2 open
                      (if negb u then maxAge cache else m) in
           (r.1.1,
            match found, r.1.1 with
            | Some _, _ | None, Return _ None =>
                ConcurrentFsCache_with_dirs cache
                  (<[cleanPath p := r.1.2]> (cdirs cache))
            | None, _ => cache
            end,
            r.2))
  /\ (forall (cache : FsCache) w now p,
      FsCache_GetFile zeroT cache w now p
      = FsCache_GetFileWithMaxAge zeroT cache w now p (MaxAge cache)
      /\ FsCache_GetDir cache w now p
         = FsCache_GetDirWithMaxAge cache w now p (MaxAge cache))
  /\ (forall (cache : ConcurrentFsCache) w now1 now2 p m,
      ConcurrentFsCache_GetFile zeroT cache w now1 now2 p
      = getFile zeroT cache w now1 now2 p (maxAge cache) true
      /\ ConcurrentFsCache_GetFileWithMaxAge zeroT cache w now1 now2 p m
         = getFile zeroT cache w now1 now2 p m true
      /\ ConcurrentFsCache_GetDir cache w now1 now2 p
         = getDir cache w now1 now2 p (maxAge cache) true
      /\ ConcurrentFsCache_GetDirWithMaxAge cache w now1 now2 p m
         = getDir cache w now1 now2 p m true)
  /\ (forall p q, cleanPath p = cleanPath q ->
      (forall cache : FsCache, FsCache_GetFileEntry cache p = FsCache_GetFileEntry cache q)
      /\ (forall cache : FsCache, FsCache_GetDirEntry cache p = FsCache_GetDirEntry cache q)
      /\ (forall (cache : FsCache) w now,
            FsCache_GetFile zeroT cache w now p = FsCache_GetFile zeroT cache w now q)
      /\ (forall (cache : FsCache) w now m,
            FsCache_GetFileWithMaxAge zeroT cache w now p m
            = FsCache_GetFileWithMaxAge zeroT cache w now q m)
      /\ (forall (cache : FsCache) w now,
            FsCache_GetDir cache w now p = FsCache_GetDir cache w now q)
      /\ (forall (cache : FsCache) w now m,
            FsCache_GetDirWithMaxAge cache w now p m
            = FsCache_GetDirWithMaxAge cache w now q m)
      /\ (forall cache : ConcurrentFsCache,
            ConcurrentFsCache_GetFileEntry cache p = ConcurrentFsCache_GetFileEntry cache q)
      /\ (forall cache : ConcurrentFsCache,
            ConcurrentFsCache_GetDirEntry cache p = ConcurrentFsCache_GetDirEntry cache q)
      /\ (forall (cache : ConcurrentFsCache) w now1 now2,
            ConcurrentFsCache_GetFile zeroT cache w now1 now2 p
            = ConcurrentFsCache_GetFile zeroT cache w now1 now2 q)
      /\ (forall (cache : ConcurrentFsCache) w now1 now2 m,
            ConcurrentFsCache_GetFileWithMaxAge zeroT cache w now1 now2 p m
            = ConcurrentFsCache_GetFileWithMaxAge zeroT cache w now1 now2 q m)
      /\ (forall (cache : ConcurrentFsCache) w now1 now2,
            ConcurrentFsCache_GetDir cache w now1 now2 p
            = ConcurrentFsCache_GetDir cache w now1 now2 q)
      /\ (forall (cache : ConcurrentFsCache) w now1 now2 m,
            ConcurrentFsCache_GetDirWithMaxAge cache w now1 now2 p m
            = ConcurrentFsCache_GetDirWithMaxAge cache w now1 now2 q m))
  /\ (forall p q, cleanPath p = cleanPath q ->
      (forall (cache : FsCache) w now m v cache' ops,
          FsCache_GetFileWithMaxAge zeroT cache w now p m = (Return v None, cache', ops) ->
          exists e,
            FsCache_GetFileEntry cache' q = Some e /\ content e = v
            /\ forall w' now' m',
                time.IsZero (lastLoadTime e) = false ->
                (time.Sub now' (lastLoadTime e) < m')%Z ->
                FsCache_GetFileWithMaxAge zeroT cache' w' now' q m'
                = (Return v None, cache', []))
      /\ (forall (cache : FsCache) w now m v cache' ops,
          FsCache_GetDirWithMaxAge cache w now p m = (Return v None, cache', ops) ->
          exists e,
            FsCache_GetDirEntry cache' q = Some e /\ entries e = v
            /\ forall w' now' m',
                time.IsZero (d_lastLoadTime e) = false ->
                (time.Sub now' (d_lastLoadTime e) < m')%Z ->
                FsCache_GetDirWithMaxAge cache' w' now' q m'
                = (Return v None, cache', []))
      /\ (forall (cache : ConcurrentFsCache) w now1 now2 m v cache' ops,
          ConcurrentFsCache_GetFileWithMaxAge zeroT cache w now1 now2 p m
          = (Return v None, cache', ops) ->
          exists e,
            ConcurrentFsCache_GetFileEntry cache' q = Some e
            /\ content (cachedFile e) = v
            /\ forall w' now1' now2' m',
                time.IsZero (lastLoadTime (cachedFile e)) = false ->
                (time.Sub now1' (lastLoadTime (cachedFile e)) < m')%Z ->
                ConcurrentFsCache_GetFileWithMaxAge zeroT cache' w' now1' now2' q m'
                = (Return v None, cache', []))
      /\ (forall (cache : ConcurrentFsCache) w now1 now2 m v cache' ops,
          ConcurrentFsCache_GetDirWithMaxAge cache w now1 now2 p m
          = (Return v None, cache', ops) ->
          exists e,
            ConcurrentFsCache_GetDirEntry cache' q = Some e
            /\ entries (cachedDir e) = v
            /\ forall w' now1' now2' m',
                time.IsZero (d_lastLoadTime (cachedDir e)) = false ->
                (time.Sub now1' (d_lastLoadTime (cachedDir e)) < m')%Z ->
                ConcurrentFsCache_GetDirWithMaxAge cache' w' now1' now2' q m'
                = (Return v None, cache', [])))
  /\ (forall p, exists names,
        Forall Canonical.resolved names
        /\ cleanPath p
           = String filepath.Separator (string_of_list_ascii (Canonical.join names)))
  /\ (forall (cache : FsCache) w now p m k, k <> cleanPath p ->
        files (FsCache_GetFileWithMaxAge zeroT cache w now p m).1.2 !! k = files cache !! k
        /\ dirs (FsCache_GetFileWithMaxAge zeroT cache w now p m).1.2 = dirs cache)
  /\ (forall (cache : FsCache) w now p m k, k <> cleanPath p ->
        dirs (FsCache_GetDirWithMaxAge cache w now p m).1.2 !! k = dirs cache !! k
        /\ files (FsCache_GetDirWithMaxAge cache w now p m).1.2 = files cache)
  /\ (forall (cache : ConcurrentFsCache) w now1 now2 p m u k, k <> cleanPath p ->
        cfiles (getFile zeroT cache w now1 now2 p m u).1.2 !! k = cfiles cache !! k
        /\ cdirs (getFile zeroT cache w now1 now2 p m u).1.2 = cdirs cache)
  /\ (forall (cache : ConcurrentFsCache) w now1 now2 p m u k, k <> cleanPath p ->
        cdirs (getDir cache w now1 now2 p m u).1.2 !! k = cdirs cache !! k
        /\ cfiles (getDir cache w now1 now2 p m u).1.2 = cfiles cache).
Proof.
  split_and!.
  - done.
  - done.
  - apply FsCache_GetFileWithMaxAge_entry.
  - apply FsCache_GetDirWithMaxAge_entry.
  - apply getFile_entry.
  - apply getDir_entry.
  - done.
  - done.
  - intros p q Hpq.
    unfold FsCache_GetFileEntry, FsCache_GetDirEntry, FsCache_GetFile, FsCache_GetDir,
      FsCache_GetFileWithMaxAge, FsCache_GetDirWithMaxAge,
      ConcurrentFsCache_GetFileEntry, ConcurrentFsCache_GetDirEntry,
      ConcurrentFsCache_GetFile, ConcurrentFsCache_GetFileWithMaxAge,
      ConcurrentFsCache_GetDir, ConcurrentFsCache_GetDirWithMaxAge, getFile, getDir.
    rewrite Hpq. split_and!; reflexivity.
  - intros p q Hpq. split_and!.
    + intros cache w now m v cache' ops Hget.
      destruct (FsCache_GetFile_again zeroT _ _ _ _ _ _ _ _ Hget) as (e & He & Hv & Hagain).
      exists e. split_and!; [|done|].
      * unfold FsCache_GetFileEntry in *. by rewrite <- Hpq.
      * intros w' now' m' Hl Hage. rewrite <- (Hagain w' now' m' Hl Hage).
        unfold FsCache_GetFileWithMaxAge. by rewrite Hpq.
    + intros cache w now m v cache' ops Hget.
      destruct (FsCache_GetDir_again _ _ _ _ _ _ _ _ Hget) as (e & He & Hv & Hagain).
      exists e. split_and!; [|done|].
      * unfold FsCache_GetDirEntry in *. by rewrite <- Hpq.
      * intros w' now' m' Hl Hage. rewrite <- (Hagain w' now' m' Hl Hage).
        unfold FsCache_GetDirWithMaxAge. by rewrite Hpq.
    + intros cache w now1 now2 m v cache' ops Hget.
      destruct (ConcurrentFsCache_GetFile_again zeroT _ _ _ _ _ _ _ _ _ Hget)
        as (e & He & Hv & Hagain).
      exists e. split_and!; [|done|].
      * unfold ConcurrentFsCache_GetFileEntry in *. by rewrite <- Hpq.
      * intros w' now1' now2' m' Hl Hage. rewrite <- (Hagain w' now1' now2' m' Hl Hage).
        unfold ConcurrentFsCache_GetFileWithMaxAge, getFile. by rewrite Hpq.
    + intros cache w now1 now2 m v cache' ops Hget.
      destruct (ConcurrentFsCache_GetDir_again _ _ _ _ _ _ _ _ _ Hget)
        as (e & He & Hv & Hagain).
      exists e. split_and!; [|done|].
      * unfold ConcurrentFsCache_GetDirEntry in *. by rewrite <- Hpq.
      * intros w' now1' now2' m' Hl Hage. rewrite <- (Hagain w' now1' now2' m' Hl Hage).
        unfold ConcurrentFsCache_GetDirWithMaxAge, getDir. by rewrite Hpq.
  - apply CleanFacts.cleanPath_canonical.
  - apply FsCache_GetFileWithMaxAge_frame.
  - apply FsCache_GetDirWithMaxAge_frame.
  - apply getFile_frame.
  - apply getDir_frame.
Qed.

End PathClaims.

(** Two spellings of [/a.json]: a call gives the same result on both; what
    a new cache loaded at 5000 under the one is served at 5010 under the
    other with no filesystem operation, though the file is gone by then;
    and a call on [gone.json] leaves the key of [a.json] alone. *)
Lemma operations_key_registry_by_cleanPath_witness :
  cleanPath "./a.json" = "/a.json"
  /\ cleanPath "x/../a.json" = "/a.json"
  /\ FsCache_GetFileWithMaxAge 0%nat Demo.warm Demo.disk (Demo.clock 5010) "./a.json" 100%Z
     = FsCache_GetFileWithMaxAge 0%nat Demo.warm Demo.disk (Demo.clock 5010)
         "x/../a.json" 100%Z
  /\ FsCache_GetFileWithMaxAge 0%nat
       (FsCache_GetFileWithMaxAge 0%nat (NewFsCache Demo.dirfs Demo.parse_length 100%Z)
          Demo.disk (Demo.clock 5000) "./a.json" 100%Z).1.2
       (delete "a.json" Demo.disk) (Demo.clock 5010) "x/../a.json" 100%Z
     = (Return 5%nat None,
        (FsCache_GetFileWithMaxAge 0%nat (NewFsCache Demo.dirfs Demo.parse_length 100%Z)
           Demo.disk (Demo.clock 5000) "./a.json" 100%Z).1.2,
        [])
  /\ ConcurrentFsCache_GetFileWithMaxAge 0%nat
       (ConcurrentFsCache_GetFileWithMaxAge 0%nat
          (NewConcurrentFsCache Demo.dirfs Demo.parse_length 100%Z)
          Demo.disk (Demo.clock 5000) (Demo.clock 5000) "./a.json" 100%Z).1.2
       (delete "a.json" Demo.disk) (Demo.clock 5010) (Demo.clock 5010) "x/../a.json" 100%Z
     = (Return 5%nat None,
        (ConcurrentFsCache_GetFileWithMaxAge 0%nat
           (NewConcurrentFsCache Demo.dirfs Demo.parse_length 100%Z)
           Demo.disk (Demo.clock 5000) (Demo.clock 5000) "./a.json" 100%Z).1.2,
        [])
  /\ files (FsCache_GetFileWithMaxAge 0%nat Demo.warm Demo.disk (Demo.clock 6000)
              "gone.json" 100%Z).1.2 !! "/a.json"
     = files Demo.warm !! "/a.json".
Proof.
  pose proof (operations_key_registry_by_cleanPath (World := Demo.world) 0%nat)
    as (_ & _ & _ & _ & _ & _ & _ & _ & Hsame & Hserved & _ & Hframe & _).
  assert (cleanPath "./a.json" = cleanPath "x/../a.json") as Hpq
    by (vm_compute; reflexivity).
  split_and!.
  - vm_compute. reflexivity.
  - vm_compute. reflexivity.
  - exact (proj1 (proj2 (proj2 (proj2 (Hsame "./a.json" "x/../a.json" Hpq))))
             Demo.warm Demo.disk (Demo.clock 5010) 100%Z).
  - destruct (proj1 (Hserved "./a.json" "x/../a.json" Hpq)
                (NewFsCache Demo.dirfs Demo.parse_length 100%Z)
                Demo.disk (Demo.clock 5000) 100%Z 5%nat
                (FsCache_GetFileWithMaxAge 0%nat
                   (NewFsCache Demo.dirfs Demo.parse_length 100%Z)
                   Demo.disk (Demo.clock 5000) "./a.json" 100%Z).1.2
                [OpOpen; OpStat; OpParse; OpClose])
      as (e & He & _ & Hagain).
    + vm_compute. reflexivity.
    + vm_compute in He. injection He as <-.
      apply Hagain; [reflexivity | by vm_compute].
  - destruct (proj1 (proj2 (proj2 (Hserved "./a.json" "x/../a.json" Hpq)))
                (NewConcurrentFsCache Demo.dirfs Demo.parse_length 100%Z)
                Demo.disk (Demo.clock 5000) (Demo.clock 5000) 100%Z 5%nat
                (ConcurrentFsCache_GetFileWithMaxAge 0%nat
                   (NewConcurrentFsCache Demo.dirfs Demo.parse_length 100%Z)
                   Demo.disk (Demo.clock 5000) (Demo.clock 5000) "./a.json" 100%Z).1.2
                [OpOpen; OpStat; OpParse; OpClose])
      as (e & He & _ & Hagain).
    + vm_compute. reflexivity.
    + vm_compute in He. injection He as <-.
      apply Hagain; [reflexivity | by vm_compute].
  - refine (proj1 (Hframe Demo.warm Demo.disk (Demo.clock 6000) "gone.json" 100%Z
                     "/a.json" _)).
    intros Heq. vm_compute in Heq. discriminate Heq.
Defined.

Section OpenerClaims.

Context {error DirEntry File : Type} `{!fs_File error DirEntry File}.
Context {T : Type} (zeroT : T) {World : Type}.

Local Abbreviation FsCache :=
  (FsCache (error := error) (DirEntry := DirEntry) (File := File) (T := T) (World := World)).
Local Abbreviation ConcurrentFsCache :=
  (ConcurrentFsCache (error := error) (DirEntry := DirEntry) (File := File)
     (T := T) (World := World)).

(** The only panic of the engine is the one of [CachedDir.Get]. *)
Lemma CachedDir_Get_panic_message (f : CachedDir (DirEntry := DirEntry))
    now open maxAge msg :
  (CachedDir_Get f now open maxAge).1.1 = Panic msg ->
  msg = "directory doesn't implement ReadDirFile".
Proof. rewrite CachedDir_Get_paths. repeat case_match; simpl; congruence. Qed.

Lemma CachedFile_Get_returns (f : CachedFile (T := T)) now open parse maxAge msg :
  (CachedFile_Get f now open parse maxAge).1.1 <> Panic msg.
Proof. rewrite CachedFile_Get_paths. repeat case_match; simpl; congruence. Qed.

Lemma ConcurrentCachedDir_Get_panic_message (f : ConcurrentCachedDir (DirEntry := DirEntry))
    now1 now2 open maxAge msg :
  (ConcurrentCachedDir_Get f now1 now2 open maxAge).1.1 = Panic msg ->
  msg = "directory doesn't implement ReadDirFile".
Proof.
  rewrite ConcurrentCachedDir_Get_paths. case_match; [done|].
  cbv zeta. simpl. apply CachedDir_Get_panic_message.
Qed.

Lemma ConcurrentCachedFile_Get_returns (f : ConcurrentCachedFile (T := T))
    now1 now2 open parse maxAge msg :
  (ConcurrentCachedFile_Get f now1 now2 open parse maxAge).1.1 <> Panic msg.
Proof.
  rewrite ConcurrentCachedFile_Get_paths. case_match; [done|].
  cbv zeta. simpl. apply CachedFile_Get_returns.
Qed.

(** C9. [cleanPath] of every string begins with "/". So [opener] never
    takes its panic branch on a path made by [cleanPath]: it yields the
    function that opens, and no operation of the two cache objects panics
    with "path not cleaned correctly" (the file operations do not panic at
    all, the directory operations only with the panic of
    [CachedDir.Get]). *)
Theorem opener_never_panics_on_clean_paths :
  (forall p, exists rest, cleanPath p = String "/" rest)
  /\ (forall (filesystem : FS (error := error) (File := File) (World := World)) w p,
        exists name,
          opener filesystem w (cleanPath p) = inr (fun _ => filesystem w name))
  /\ (forall (cache : FsCache) w now file m msg,
        (FsCache_GetFileWithMaxAge zeroT cache w now file m).1.1 <> Panic msg)
  /\ (forall (cache : ConcurrentFsCache) w now1 now2 file m u msg,
        (getFile zeroT cache w now1 now2 file m u).1.1 <> Panic msg)
  /\ (forall (cache : FsCache) w now dir m,
        (FsCache_GetDirWithMaxAge cache w now dir m).1.1
        <> Panic "path not cleaned correctly")
  /\ (forall (cache : ConcurrentFsCache) w now1 now2 dir m u,
        (getDir cache w now1 now2 dir m u).1.1 <> Panic "path not cleaned correctly").
Proof.
  split_and!.
  - apply CleanFacts.cleanPath_rooted.
  - apply opener_cleanPath.
  - intros cache w now file m msg.
    destruct (FsCache_GetFileWithMaxAge_entry zeroT cache w now file m) as (open & _ & ->).
    cbv zeta. simpl. apply CachedFile_Get_returns.
  - intros cache w now1 now2 file m u msg.
    destruct (getFile_entry zeroT cache w now1 now2 file m u) as (open & _ & ->).
    cbv zeta. simpl. apply ConcurrentCachedFile_Get_returns.
  - intros cache w now dir m.
    destruct (FsCache_GetDirWithMaxAge_entry cache w now dir m) as (open & _ & ->).
    cbv zeta. simpl. intros Hpanic%CachedDir_Get_panic_message. discriminate Hpanic.
  - intros cache w now1 now2 dir m u.
    destruct (getDir_entry cache w now1 now2 dir m u) as (open & _ & ->).
    cbv zeta. simpl. intros Hpanic%ConcurrentCachedDir_Get_panic_message.
    discriminate Hpanic.
Qed.

End OpenerClaims.

(** ** The scenarios of the test suite, run on the model *)

Example Clean_resolves_dots : filepath.Clean "/a/./b/../c//" = "/a/c".
Proof. vm_compute. reflexivity. Qed.

Example Clean_stops_at_root : cleanPath "../../a.json" = "/a.json".
Proof. vm_compute. reflexivity. Qed.

Example Clean_keeps_leading_dotdot : filepath.Clean "a/../../b" = "../b".
Proof. vm_compute. reflexivity. Qed.

Example Clean_keeps_dotted_names : cleanPath "..a/.b/..." = "/..a/.b/...".
Proof. vm_compute. reflexivity. Qed.

Example cleanPath_of_root : cleanPath "/" = "/" /\ cleanPath "" = "/".
Proof. vm_compute. split; reflexivity. Qed.

(** The file changes but keeps its size and modification time: within the
    window nothing is read, after it the stat revalidates the old text. *)
Example same_size_and_time_keeps_old_text :
  (run CachedFile_call (CachedFile_zero "")
     [ Demo.get_text 5000 (Some (Demo.regular 5 1000 "hello"));
       Demo.get_text 5050 (Some (Demo.regular 5 1000 "HELLO"));
       Demo.get_text 5200 (Some (Demo.regular 5 1000 "HELLO")) ]).2
  = [ (Return "hello" None, [OpOpen; OpStat; OpParse; OpClose]);
      (Return "hello" None, []);
      (Return "hello" None, [OpOpen; OpStat; OpClose]) ].
Proof. vm_compute. reflexivity. Qed.

(** A change of the size or of the modification time is seen after the
    window. *)
Example changed_size_or_time_reloads :
  (run CachedFile_call (CachedFile_zero "")
     [ Demo.get_text 5000 (Some (Demo.regular 5 1000 "hello"));
       Demo.get_text 5200 (Some (Demo.regular 5 1001 "HELLO"));
       Demo.get_text 5400 (Some (Demo.regular 6 1001 "hello!")) ]).2
  = [ (Return "hello" None, [OpOpen; OpStat; OpParse; OpClose]);
      (Return "HELLO" None, [OpOpen; OpStat; OpParse; OpClose]);
      (Return "hello!" None, [OpOpen; OpStat; OpParse; OpClose]) ].
Proof. vm_compute. reflexivity. Qed.

(** The file is removed: within the window the old text is served, after it
    the error of [Open] comes with the old text, every time. *)
Example removed_file_is_stale_then_fails :
  (run CachedFile_call (CachedFile_zero "")
     [ Demo.get_text 5000 (Some (Demo.regular 5 1000 "hello"));
       Demo.get_text 5050 None;
       Demo.get_text 5200 None;
       Demo.get_text 5201 None ]).2
  = [ (Return "hello" None, [OpOpen; OpStat; OpParse; OpClose]);
      (Return "hello" None, []);
      (Return "hello" (Some "file does not exist"), [OpOpen]);
      (Return "hello" (Some "file does not exist"), [OpOpen]) ].
Proof. vm_compute. reflexivity. Qed.

(** A file that does not parse, in a new entry: the zero value with the
    error of the parser. *)
Example unparsable_file_in_new_entry :
  CachedFile_Get (CachedFile_zero 0%nat) (Demo.clock 5000)
    (Demo.open_name Demo.disk "empty.json") Demo.parse_length 100%Z
  = (Return 0%nat (Some "unexpected end of input"), CachedFile_zero 0%nat,
     [OpOpen; OpStat; OpParse; OpClose]).
Proof. vm_compute. reflexivity. Qed.

(** A file that cannot be statted: the cached length with the error of
    [Stat], and the handle is closed. *)
Example stat_failure_keeps_cached_value :
  CachedFile_Get Demo.cachedA (Demo.clock 6000) (Demo.open_name Demo.disk "locked")
    Demo.parse_length 100%Z
  = (Return 5%nat (Some "stat failed"), Demo.cachedA, [OpOpen; OpStat; OpClose]).
Proof. vm_compute. reflexivity. Qed.

(** A directory that does not exist, through both caches. *)
Example GetDir_of_missing_directory :
  (FsCache_GetDir (NewFsCache (T := nat) Demo.dirfs Demo.parse_length 100%Z)
     Demo.disk (Demo.clock 5000) "/not-exist").1.1
  = Return [] (Some "file does not exist")
  /\ (ConcurrentFsCache_GetDir
        (NewConcurrentFsCache (T := nat) Demo.dirfs Demo.parse_length 100%Z)
        Demo.disk (Demo.clock 5000) (Demo.clock 5000) "/not-exist").1.1
     = Return [] (Some "file does not exist").
Proof. vm_compute. split; reflexivity. Qed.

(** After the removal of [a.json] the single-threaded cache has forgotten
    the length it had loaded, the concurrency-safe cache returns it with
    the error. *)
Example removed_file_through_both_caches :
  (FsCache_GetFile 0%nat
     (FsCache_GetFile 0%nat Demo.warm (delete "a.json" Demo.disk) (Demo.clock 6000)
        "a.json").1.2
     (delete "a.json" Demo.disk) (Demo.clock 6001) "a.json").1.1
  = Return 0%nat (Some "file does not exist")
  /\ (ConcurrentFsCache_GetFile 0%nat
        (ConcurrentFsCache_GetFile 0%nat Demo.cwarm (delete "a.json" Demo.disk)
           (Demo.clock 6000) (Demo.clock 6000) "a.json").1.2
        (delete "a.json" Demo.disk) (Demo.clock 6001) (Demo.clock 6001) "a.json").1.1
     = Return 5%nat (Some "file does not exist").
Proof. vm_compute. split; reflexivity. Qed.

(** ** The age test of [CachedFile.Get]

    [CachedDir.Get] asks for a loaded entry before it compares the age with
    [maxAge]; [CachedFile.Get] compares the age alone. For an entry that was
    never loaded the age is taken from the zero [Time]: it is the greatest
    [Duration] at any clock reading later than 292 years after the zero
    [Time], and no [maxAge] is greater, so such an entry is never served by
    the fast path. *)

Lemma unloaded_file_entry_opens {error DirEntry File : Type}
    `{!fs_File error DirEntry File} {T : Type} (zeroT : T)
    (now : time.Time) open (parse : File -> result error T) (maxAge : time.Duration) :
  (time.maxDuration <= time.instant now)%Z -> (maxAge <= time.maxDuration)%Z ->
  exists ops', (CachedFile_Get (CachedFile_zero zeroT) now open parse maxAge).2
               = OpOpen :: ops'.
Proof.
  intros Hnow Hmax. apply CachedFile_Get_opens. simpl.
  apply Z.ltb_ge.
  unfold time.Sub, time.saturate, time.minDuration, time.maxDuration in *. simpl.
  repeat case_match; lia.
Qed.

(** Only a clock that reads less than [maxAge] after the zero [Time] lets the
    file engine answer from an entry that was never loaded. *)
Example unloaded_file_entry_at_the_zero_time :
  CachedFile_Get (CachedFile_zero 0%nat) (Demo.clock 50) (Demo.open_name Demo.disk "a.json")
    Demo.parse_length 100%Z
  = (Return 0%nat None, CachedFile_zero 0%nat, [])
  /\ CachedDir_Get (DirEntry := string) CachedDir_zero (Demo.clock 50)
       (Demo.open_name Demo.disk ".") 100%Z
     = (Return ["a.json"; "b.json"] None,
        {| d_lastLoadTime := Demo.clock 50; d_lastSize := 4096%Z;
           d_lastModTime := Demo.modified 900;
           entries := ["a.json"; "b.json"] |},
        [OpOpen; OpStat; OpReadDir; OpClose]).
Proof. vm_compute. split; reflexivity. Qed.

(** ** More about cleaned paths *)

Module PathFacts.
Import filepath Canonical CleanFacts.

Lemma clean_loop_cons rooted c rest out dotdot :
  clean_loop rooted (c :: rest) out dotdot =
    if IsPathSeparator c then clean_loop rooted rest out dotdot
    else if Ascii.eqb c "."%char && at_end_or_separator rest then
      clean_loop rooted rest out dotdot
    else if Ascii.eqb c "."%char && Ascii.eqb (hd "/"%char rest) "."%char
            && at_end_or_separator (tl rest) then
      if (dotdot <? length out)%nat then
        clean_loop rooted (tl rest) (backtrack out dotdot) dotdot
      else if negb rooted then
        clean_loop rooted (tl rest)
          ("."%char :: "."%char :: (if (0 <? length out)%nat then Separator :: out else out))
          (length ("."%char :: "."%char
                   :: (if (0 <? length out)%nat then Separator :: out else out)))
      else clean_loop rooted (tl rest) out dotdot
    else
      clean_loop rooted
        (copy_element (c :: rest)
           (if rooted && negb (length out =? 1)%nat || negb rooted && negb (length out =? 0)%nat
            then Separator :: out else out)).1
        (copy_element (c :: rest)
           (if rooted && negb (length out =? 1)%nat || negb rooted && negb (length out =? 0)%nat
            then Separator :: out else out)).2 dotdot.
Proof.
  rewrite clean_loop_equation_2.
  destruct (Logic.inspect (IsPathSeparator c)) as [[] Hc].
  - rewrite clean_loop_clause_2_equation_1, Hc. reflexivity.
  - rewrite clean_loop_clause_2_equation_2, Hc. reflexivity.
Qed.

(** [cleanPath] skips a separator in front of the path. *)
Lemma skip_leading_separator (p : string) :
  cleanPath ("/" ++ p) = cleanPath p.
Proof.
  unfold cleanPath, Clean.
  change (list_ascii_of_string ("/" ++ "/" ++ p))
    with (Separator :: Separator :: list_ascii_of_string p).
  change (list_ascii_of_string ("/" ++ p)) with (Separator :: list_ascii_of_string p).
  cbv iota zeta. change (IsPathSeparator Separator) with true. cbv iota. simpl tl.
  rewrite clean_loop_cons. change (IsPathSeparator Separator) with true. cbv iota.
  reflexivity.
Qed.

(** X2. A separator in front of a path does not change its key: [a.json]
    and [/a.json] name the same entry. *)
Theorem cleanPath_leading_separator (p : string) :
  cleanPath ("/" ++ p) = cleanPath p.
Proof.
  unfold cleanPath, Clean.
  change (list_ascii_of_string ("/" ++ "/" ++ p))
    with (Separator :: Separator :: list_ascii_of_string p).
  change (list_ascii_of_string ("/" ++ p)) with (Separator :: list_ascii_of_string p).
  cbv iota zeta. change (IsPathSeparator Separator) with true. cbv iota. simpl tl.
  rewrite clean_loop_cons. change (IsPathSeparator Separator) with true. cbv iota.
  reflexivity.
Qed.

Lemma copy_element_name name rest out :
  Forall (fun a => IsPathSeparator a = false) name ->
  at_end_or_separator rest = true ->
  copy_element (name ++ rest) out = (rest, rev name ++ out).
Proof.
  intros Hname Hrest. revert out.
  induction Hname as [|a name Ha _ IH]; intros out.
  - destruct rest as [|c rest]; simpl in *; [done|]. by rewrite Hrest.
  - simpl. rewrite Ha, IH, <- app_assoc. reflexivity.
Qed.

(** What follows a name in [join]: nothing, or a separator and the rest. *)
Definition after_name (names : list (list ascii)) : list ascii :=
  match names with
  | [] => []
  | _ => Separator :: join names
  end.

Lemma join_cons name names : join (name :: names) = name ++ after_name names.
Proof. destruct names; simpl; [by rewrite app_nil_r | done]. Qed.

Lemma clean_loop_resolved names :
  forall done,
    Forall resolved names -> Forall resolved done ->
    clean_loop true (join names) (written done ++ [Separator]) 1
    = written (rev names ++ done) ++ [Separator].
Proof.
  induction names as [|n names IH]; intros done Hnames Hdone.
  - simpl. by rewrite clean_loop_equation_1.
  - apply Forall_cons in Hnames as [Hn Hnames].
    pose proof Hn as (Hne & Hsep & Hdot & Hdotdot).
    rewrite join_cons.
    assert (at_end_or_separator (after_name names) = true) as Hend
      by (by destruct names).
    destruct n as [|c n']; [done|].
    apply Forall_cons in Hsep as [Hc Hsep'].
    change ((c :: n') ++ after_name names) with (c :: (n' ++ after_name names)).
    rewrite clean_loop_cons, Hc.
    assert (Ascii.eqb c "." && at_end_or_separator (n' ++ after_name names) = false) as ->.
    { destruct n' as [|d n'].
      - destruct (Ascii.eqb_spec c "."); [by subst|done].
      - simpl. apply Forall_cons in Hsep' as [-> _]. by rewrite andb_false_r. }
    assert (Ascii.eqb c "." && Ascii.eqb (hd "/"%char (n' ++ after_name names)) "."
            && at_end_or_separator (tl (n' ++ after_name names)) = false) as ->.
    { destruct n' as [|d [|e n']].
      - simpl. destruct names; simpl; by rewrite andb_false_r.
      - simpl. destruct (Ascii.eqb_spec c "."); [|done].
        destruct (Ascii.eqb_spec d "."); [by subst|done].
      - simpl. apply Forall_cons in Hsep' as [_ [-> _]%Forall_cons].
        by rewrite andb_false_r. }
    change (c :: (n' ++ after_name names)) with ((c :: n') ++ after_name names).
    rewrite copy_element_name by (done || by constructor).
    cbn [fst snd].
    assert (rev (c :: n')
              ++ (if true && negb (length (written done ++ [Separator]) =? 1)%nat
                     || negb true && negb (length (written done ++ [Separator]) =? 0)%nat
                  then Separator :: written done ++ [Separator]
                  else written done ++ [Separator])
            = written ((c :: n') :: done) ++ [Separator]) as ->.
    { simpl andb. rewrite orb_false_r.
      destruct (length (written done ++ [Separator]) =? 1)%nat eqn:Hlen.
      - apply rooted_buffer_length_1 in Hlen as ->; [|done]. reflexivity.
      - simpl negb. cbv iota.
        assert (done <> []) as Hd by (intros ->; simpl in Hlen; done).
        rewrite written_cons by done. rewrite <- app_assoc. reflexivity. }
    replace (rev ((c :: n') :: names) ++ done) with (rev names ++ (c :: n') :: done)
      by (simpl; by rewrite <- app_assoc).
    destruct names as [|n2 names].
    + simpl after_name. by rewrite clean_loop_equation_1.
    + change (after_name (n2 :: names)) with (Separator :: join (n2 :: names)).
      rewrite clean_loop_cons. change (IsPathSeparator Separator) with true. cbv iota.
      apply IH; [done | by constructor].
Qed.

(** [Clean] leaves a path in canonical form as it is. *)
Lemma Clean_of_canonical names :
  Forall resolved names ->
  Clean (String Separator (string_of_list_ascii (join names)))
  = String Separator (string_of_list_ascii (join names)).
Proof.
  intros Hall. unfold Clean.
  change (list_ascii_of_string (String Separator (string_of_list_ascii (join names))))
    with (Separator :: list_ascii_of_string (string_of_list_ascii (join names))).
  rewrite list_ascii_of_string_of_list_ascii.
  cbv iota zeta. change (IsPathSeparator Separator) with true. cbv iota. simpl tl.
  pose proof (clean_loop_resolved names [] Hall ltac:(constructor)) as Hloop.
  simpl in Hloop. rewrite Hloop, app_nil_r.
  replace (length (written (rev names) ++ [Separator]) =? 0)%nat with false
    by (rewrite length_app; simpl; symmetry; apply Nat.eqb_neq; lia).
  rewrite rev_app_distr. simpl. rewrite rev_written, rev_involutive. reflexivity.
Qed.

(** A cleaned path is its own cleaned form. *)
Lemma cleanPath_of_cleanPath (p : string) : cleanPath (cleanPath p) = cleanPath p.
Proof.
  destruct (cleanPath_canonical p) as (names & Hall & ->).
  change (String Separator (string_of_list_ascii (join names)))
    with ("/" ++ string_of_list_ascii (join names))%string at 1.
  rewrite skip_leading_separator. by apply Clean_of_canonical.
Qed.

(** X1. [cleanPath] is idempotent: a key is its own cleaned form, so an
    entry is found again under the key it is stored at. *)
Theorem cleanPath_idempotent (p : string) : cleanPath (cleanPath p) = cleanPath p.
Proof.
  destruct (cleanPath_canonical p) as (names & Hall & Hp).
  rewrite Hp.
  transitivity (cleanPath (string_of_list_ascii (join names))).
  - apply (skip_leading_separator (string_of_list_ascii (join names))).
  - unfold cleanPath. by apply Clean_of_canonical.
Qed.

(** A name that [fs.FS.Open] accepts: [.] for the root, or names that are
    not empty, hold no separator and are neither [.] nor [..], with one
    separator between them and none in front. *)
Definition valid_name (name : string) : Prop :=
  name = "."
  \/ exists names, names <> [] /\ Forall resolved names
                   /\ name = string_of_list_ascii (join names).

Lemma string_of_list_ascii_nonempty (l : list ascii) :
  l <> [] -> string_of_list_ascii l <> "".
Proof. by destruct l. Qed.

Lemma join_nonempty names : names <> [] -> Forall resolved names -> join names <> [].
Proof.
  intros Hne Hall. destruct names as [|n names]; [done|].
  apply Forall_cons in Hall as [(Hn & _) _].
  rewrite join_cons. by destruct n.
Qed.

Section OpenedName.

Context {error File World : Type}.

(** X3. The name that the cache operations open for a path is the cleaned
    path without its leading separator, [.] for the root: a name that
    [fs.FS.Open] accepts, and one that cleans to the same key. *)
Theorem opener_opens_a_valid_name :
  forall (filesystem : FS (error := error) (File := File) (World := World)) w path,
    exists name,
      opener filesystem w (cleanPath path) = inr (fun _ => filesystem w name)
      /\ valid_name name
      /\ cleanPath path = (if String.eqb name "." then "/" else "/" ++ name)%string
      /\ cleanPath name = cleanPath path.
Proof.
  intros filesystem w path.
  pose proof (cleanPath_of_cleanPath path) as Hidem.
  destruct (cleanPath_canonical path) as (names & Hall & Hclean).
  rewrite Hclean in Hidem |- *.
  destruct names as [|n names].
  - exists ".". simpl. split_and!; [done | by left | done | by vm_compute].
  - exists (string_of_list_ascii (join (n :: names))).
    pose proof (join_nonempty (n :: names) ltac:(done) Hall) as Hne.
    pose proof (string_of_list_ascii_nonempty _ Hne) as Hs.
    destruct (string_of_list_ascii (join (n :: names))) as [|c s] eqn:Hjoin; [done|].
    split_and!.
    + unfold opener. simpl. destruct s; reflexivity.
    + right. exists (n :: names). by rewrite Hjoin.
    + assert (String.eqb (String c s) "." = false) as ->; [|done].
      apply String.eqb_neq. intros Hdot.
      apply Forall_cons in Hall as [(Hn & Hsep & Hd & _) Hall'].
      rewrite join_cons in Hjoin.
      apply (f_equal list_ascii_of_string) in Hjoin.
      rewrite list_ascii_of_string_of_list_ascii, Hdot in Hjoin. simpl in Hjoin.
      destruct n as [|a [|b n']]; [done | |].
      * simpl in Hjoin. destruct names; simpl in Hjoin; [congruence|done].
      * simpl in Hjoin. done.
    + rewrite <- (skip_leading_separator (String c s)). exact Hidem.
Qed.

End OpenedName.

End PathFacts.

(** ** More about one entry *)

(** The filesystem operations of a call that releases what it acquires:
    nothing; or an open that failed; or an open that succeeded, the stat,
    the read [read] when the stat did not settle the call, and the close. *)
Definition handle_released {error File : Type} (read : fsop)
    (open : unit -> result error File) (ops : list fsop) : Prop :=
  ops = []
  \/ (ops = [OpOpen] /\ exists e, open tt = Err e)
  \/ ((exists file, open tt = Ok file)
      /\ exists mid, ops = OpOpen :: mid ++ [OpClose]
                     /\ (mid = [OpStat] \/ mid = [OpStat; read])).

(** An invariant of the entries that holds at the start and that every call
    with an argument in [P] keeps, holds after any such calls. *)
Lemma run_invariant {error A E C : Type}
    (step : E -> C -> outcome error A * E * list fsop)
    (P : C -> Prop) (Inv : E -> Prop) :
  (forall e c, P c -> Inv e -> Inv (step e c).1.2) ->
  forall calls e, Forall P calls -> Inv e -> Inv (run step e calls).1.
Proof.
  intros Hstep. induction calls as [|c calls IH]; intros e Hall He; [done|].
  apply Forall_cons in Hall as [Hc Hall]. simpl.
  specialize (Hstep e c Hc He).
  destruct (step e c) as [[res e1] ops]. simpl in Hstep.
  specialize (IH e1 Hall Hstep).
  destruct (run step e1 calls) as [e2 obs]. exact IH.
Qed.

Section EntryExtras.

Context {error DirEntry File : Type} `{!fs_File error DirEntry File} {T : Type}.
Variable zeroT : T.

Local Open Scope Z_scope.

Lemma CachedFile_Get_released (f : CachedFile (T := T)) now open parse maxAge :
  handle_released OpParse open (CachedFile_Get f now open parse maxAge).2.
Proof.
  rewrite CachedFile_Get_paths. unfold handle_released.
  repeat case_match; simpl; first
    [ by left
    | right; left; split; [done | by eexists]
    | right; right; split; [by eexists|];
      first [ exists [OpStat]; split; [done | by left]
            | exists [OpStat; OpParse]; split; [done | by right] ] ].
Qed.

Lemma CachedDir_Get_released (f : CachedDir (DirEntry := DirEntry)) now open maxAge :
  handle_released OpReadDir open (CachedDir_Get f now open maxAge).2.
Proof.
  rewrite CachedDir_Get_paths. unfold handle_released.
  repeat case_match; simpl; first
    [ by left
    | right; left; split; [done | by eexists]
    | right; right; split; [by eexists|];
      first [ exists [OpStat]; split; [done | by left]
            | exists [OpStat; OpReadDir]; split; [done | by right] ] ].
Qed.

(** X4. Every [Get] opens at most once, and closes the handle, once and as
    its last operation, exactly when the open succeeded; also on the panic
    of [CachedDir.Get]. Between the open and the close there is one stat and
    at most one read. *)
Theorem get_releases_the_handle :
  (forall (f : CachedFile (T := T)) now open parse maxAge,
      handle_released OpParse open (CachedFile_Get f now open parse maxAge).2)
  /\ (forall (f : CachedDir (DirEntry := DirEntry)) now open maxAge,
      handle_released OpReadDir open (CachedDir_Get f now open maxAge).2)
  /\ (forall (f : ConcurrentCachedFile (T := T)) now1 now2 open parse maxAge,
      handle_released OpParse open
        (ConcurrentCachedFile_Get f now1 now2 open parse maxAge).2)
  /\ (forall (f : ConcurrentCachedDir (DirEntry := DirEntry)) now1 now2 open maxAge,
      handle_released OpReadDir open
        (ConcurrentCachedDir_Get f now1 now2 open maxAge).2).
Proof.
  split_and!.
  - apply CachedFile_Get_released.
  - apply CachedDir_Get_released.
  - intros f now1 now2 open parse maxAge.
    rewrite ConcurrentCachedFile_Get_paths. case_match; [by left|].
    cbv zeta. simpl. apply CachedFile_Get_released.
  - intros f now1 now2 open maxAge.
    rewrite ConcurrentCachedDir_Get_paths. case_match; [by left|].
    cbv zeta. simpl. apply CachedDir_Get_released.
Qed.

(** X5. A [Get] changes the value, [lastSize] and [lastModTime] of the entry
    only when it reads and returns no error; it changes [lastLoadTime] only
    when it returns no error after a stat, and then to the current time. *)
Theorem get_changes_entry_only_after_stat :
  (forall (f : CachedFile (T := T)) now open parse maxAge,
      let r := CachedFile_Get f now open parse maxAge in
      (loaded_value (r.1.1, r.2) = None ->
       content r.1.2 = content f /\ lastSize r.1.2 = lastSize f
       /\ lastModTime r.1.2 = lastModTime f)
      /\ (lastLoadTime r.1.2 = lastLoadTime f
          \/ (lastLoadTime r.1.2 = now /\ In OpStat r.2
              /\ exists v, r.1.1 = Return v None)))
  /\ (forall (f : CachedDir (DirEntry := DirEntry)) now open maxAge,
      let r := CachedDir_Get f now open maxAge in
      (loaded_value (r.1.1, r.2) = None ->
       entries r.1.2 = entries f /\ d_lastSize r.1.2 = d_lastSize f
       /\ d_lastModTime r.1.2 = d_lastModTime f)
      /\ (d_lastLoadTime r.1.2 = d_lastLoadTime f
          \/ (d_lastLoadTime r.1.2 = now /\ In OpStat r.2
              /\ exists v, r.1.1 = Return v None))).
Proof.
  split.
  - intros f now open parse maxAge. cbv zeta. rewrite CachedFile_Get_paths.
    repeat case_match; simpl; (split; [done || by intros|]);
      first [ by left | right; split_and!; [done | in_ops | by eexists] ].
  - intros f now open maxAge. cbv zeta. rewrite CachedDir_Get_paths.
    repeat case_match; simpl; (split; [done || by intros|]);
      first [ by left | right; split_and!; [done | in_ops | by eexists] ].
Qed.

(** X6. With equal clock readings a concurrency-safe wrapper returns what
    the engine returns on the wrapped entry, does to it what the engine
    does, and performs the same operations. *)
Theorem wrapper_agrees_with_engine :
  (forall (f : ConcurrentCachedFile (T := T)) now open parse maxAge,
      ConcurrentCachedFile_Get f now now open parse maxAge
      = let r := CachedFile_Get (cachedFile f) now open parse maxAge in
        (r.1.1, {| cachedFile := r.1.2 |}, r.2))
  /\ (forall (f : ConcurrentCachedDir (DirEntry := DirEntry)) now open maxAge,
      ConcurrentCachedDir_Get f now now open maxAge
      = let r := CachedDir_Get (cachedDir f) now open maxAge in
        (r.1.1, {| cachedDir := r.1.2 |}, r.2)).
Proof.
  split.
  - intros [f] now open parse maxAge. rewrite ConcurrentCachedFile_Get_paths.
    simpl. destruct (_ && _) eqn:Hfresh; [|done].
    apply andb_true_iff in Hfresh as [_ Hage]. apply Z.ltb_lt in Hage.
    by rewrite CachedFile_Get_fresh.
  - intros [f] now open maxAge. rewrite ConcurrentCachedDir_Get_paths.
    simpl. destruct (_ && _) eqn:Hfresh; [|done].
    apply andb_true_iff in Hfresh as [Hl Hage]. apply Z.ltb_lt in Hage.
    apply negb_true_iff in Hl.
    by rewrite CachedDir_Get_fresh.
Qed.

End EntryExtras.

Section EntryLife.

Context {error DirEntry File : Type} `{!fs_File error DirEntry File} {T : Type}.
Variable zeroT : T.

Local Open Scope Z_scope.

(** A call without error that went to the filesystem leaves the entry with
    the current time and the returned value. *)
Lemma CachedFile_Get_touched (f : CachedFile (T := T)) now open parse maxAge v f' ops :
  CachedFile_Get f now open parse maxAge = (Return v None, f', ops) ->
  ops <> [] ->
  lastLoadTime f' = now /\ content f' = v.
Proof. intros Hget Hops. get_paths; done. Qed.

Lemma CachedDir_Get_touched (f : CachedDir (DirEntry := DirEntry)) now open maxAge v f' ops :
  CachedDir_Get f now open maxAge = (Return v None, f', ops) ->
  ops <> [] ->
  d_lastLoadTime f' = now /\ entries f' = v.
Proof. intros Hget Hops. get_paths; done. Qed.

(** X7. A [Get] that went to the filesystem and returned no error, be it a
    reload or a revalidation, starts the window anew: a [Get] on the entry
    less than [maxAge] after that call returns the same value and performs
    no filesystem operation. *)
Theorem window_restarts_at_every_successful_check :
  (forall (f : CachedFile (T := T)) now open parse maxAge v f' ops,
      CachedFile_Get f now open parse maxAge = (Return v None, f', ops) ->
      ops <> [] -> time.IsZero now = false ->
      forall now' open' parse' maxAge',
        time.Sub now' now < maxAge' ->
        CachedFile_Get f' now' open' parse' maxAge' = (Return v None, f', []))
  /\ (forall (f : CachedDir (DirEntry := DirEntry)) now open maxAge v f' ops,
      CachedDir_Get f now open maxAge = (Return v None, f', ops) ->
      ops <> [] -> time.IsZero now = false ->
      forall now' open' maxAge',
        time.Sub now' now < maxAge' ->
        CachedDir_Get f' now' open' maxAge' = (Return v None, f', [])).
Proof.
  split.
  - intros f now open parse maxAge v f' ops Hget Hops Hnow now' open' parse' maxAge' Hage.
    destruct (CachedFile_Get_touched _ _ _ _ _ _ _ _ Hget Hops) as [Hlast Hv].
    rewrite CachedFile_Get_fresh by (by rewrite Hlast). by rewrite Hv.
  - intros f now open maxAge v f' ops Hget Hops Hnow now' open' maxAge' Hage.
    destruct (CachedDir_Get_touched _ _ _ _ _ _ _ Hget Hops) as [Hlast Hv].
    rewrite CachedDir_Get_fresh by (by rewrite Hlast). by rewrite Hv.
Qed.

Lemma CachedFile_call_lastLoadTime (f : CachedFile (T := T)) c :
  lastLoadTime (CachedFile_call f c).1.2 = lastLoadTime f
  \/ lastLoadTime (CachedFile_call f c).1.2 = fc_now c.
Proof.
  unfold CachedFile_call. rewrite CachedFile_Get_paths.
  repeat case_match; simpl; auto.
Qed.

Lemma CachedDir_call_lastLoadTime (f : CachedDir (DirEntry := DirEntry)) c :
  d_lastLoadTime (CachedDir_call f c).1.2 = d_lastLoadTime f
  \/ d_lastLoadTime (CachedDir_call f c).1.2 = dc_now c.
Proof.
  unfold CachedDir_call. rewrite CachedDir_Get_paths.
  repeat case_match; simpl; auto.
Qed.

(** X8. When the clock does not go back, the age that a [Get] computes is
    never negative: after calls at readings none of which is [After] [now],
    the entry's [lastLoadTime] is not [After] [now]. *)
Theorem age_is_never_negative :
  (forall (calls : list (FileCall error File T)) now,
      Forall (fun c => time.After (fc_now c) now = false) calls ->
      0 <= time.instant now ->
      time.After (lastLoadTime (run CachedFile_call (CachedFile_zero zeroT) calls).1) now
      = false
      /\ 0 <= time.Sub now
                (lastLoadTime (run CachedFile_call (CachedFile_zero zeroT) calls).1))
  /\ (forall (calls : list (DirCall error File)) now,
      Forall (fun c => time.After (dc_now c) now = false) calls ->
      0 <= time.instant now ->
      time.After
        (d_lastLoadTime
           (run CachedDir_call (CachedDir_zero (DirEntry := DirEntry)) calls).1) now
      = false
      /\ 0 <= time.Sub now
                (d_lastLoadTime
                   (run CachedDir_call (CachedDir_zero (DirEntry := DirEntry)) calls).1)).
Proof.
  split.
  - intros calls now Hcalls Hnow.
    assert (time.After
              (lastLoadTime (run CachedFile_call (CachedFile_zero zeroT) calls).1) now
            = false) as Hle.
    { apply (run_invariant CachedFile_call (fun c => time.After (fc_now c) now = false)
               (fun f => time.After (lastLoadTime f) now = false));
        [|done|by apply Z.ltb_ge].
      intros f c Hc Hf. destruct (CachedFile_call_lastLoadTime f c) as [-> | ->]; done. }
    split; [done | by apply Sub_nonneg].
  - intros calls now Hcalls Hnow.
    assert (time.After
              (d_lastLoadTime
                 (run CachedDir_call (CachedDir_zero (DirEntry := DirEntry)) calls).1) now
            = false) as Hle.
    { apply (run_invariant CachedDir_call (fun c => time.After (dc_now c) now = false)
               (fun f => time.After (d_lastLoadTime f) now = false));
        [|done|by apply Z.ltb_ge].
      intros f c Hc Hf. destruct (CachedDir_call_lastLoadTime f c) as [-> | ->]; done. }
    split; [done | by apply Sub_nonneg].
Qed.

(** X9. As long as the clock never reads the zero time, an entry that
    [Cached] reports as not loaded is the entry as it was made: [Cached]
    returns the zero value with the zero time. *)
Theorem unloaded_entry_is_the_zero_entry :
  (forall (calls : list (FileCall error File T)),
      Forall (fun c => time.IsZero (fc_now c) = false) calls ->
      let f := (run CachedFile_call (CachedFile_zero zeroT) calls).1 in
      (CachedFile_Cached f).2 = false ->
      f = CachedFile_zero zeroT /\ CachedFile_Cached f = (zeroT, time.Time_zero, false))
  /\ (forall (calls : list (DirCall error File)),
      Forall (fun c => time.IsZero (dc_now c) = false) calls ->
      let f := (run CachedDir_call (CachedDir_zero (DirEntry := DirEntry)) calls).1 in
      (CachedDir_Cached f).2 = false ->
      f = CachedDir_zero /\ CachedDir_Cached f = ([], time.Time_zero, false)).
Proof.
  split.
  - intros calls Hcalls f Hcached.
    assert (time.IsZero (lastLoadTime f) = true -> f = CachedFile_zero zeroT) as Hinv.
    { apply (run_invariant CachedFile_call (fun c => time.IsZero (fc_now c) = false)
               (fun f => time.IsZero (lastLoadTime f) = true -> f = CachedFile_zero zeroT));
        [|done|done].
      intros e c Hc He. unfold CachedFile_call. rewrite CachedFile_Get_paths.
      repeat case_match; simpl; try done; congruence. }
    unfold CachedFile_Cached in Hcached. simpl in Hcached.
    apply negb_false_iff in Hcached. rewrite (Hinv Hcached). done.
  - intros calls Hcalls f Hcached.
    assert (time.IsZero (d_lastLoadTime f) = true -> f = CachedDir_zero) as Hinv.
    { apply (run_invariant CachedDir_call (fun c => time.IsZero (dc_now c) = false)
               (fun f => time.IsZero (d_lastLoadTime f) = true -> f = CachedDir_zero));
        [|done|done].
      intros e c Hc He. unfold CachedDir_call. rewrite CachedDir_Get_paths.
      repeat case_match; simpl; try done; congruence. }
    unfold CachedDir_Cached in Hcached. simpl in Hcached.
    apply negb_false_iff in Hcached. rewrite (Hinv Hcached). done.
Qed.

End EntryLife.

Section CacheExtras.

Context {error DirEntry File : Type} `{!fs_File error DirEntry File}.
Context {T : Type} (zeroT : T) {World : Type}.

Local Abbreviation FsCache :=
  (FsCache (error := error) (DirEntry := DirEntry) (File := File) (T := T) (World := World)).
Local Abbreviation ConcurrentFsCache :=
  (ConcurrentFsCache (error := error) (DirEntry := DirEntry) (File := File)
     (T := T) (World := World)).

Local Open Scope Z_scope.

(** The engine on an entry that was never loaded. *)
Lemma CachedDir_Get_zero_opens now open maxAge :
  exists ops', (CachedDir_Get (CachedDir_zero (DirEntry := DirEntry)) now open maxAge).2
               = OpOpen :: ops'.
Proof. rewrite CachedDir_Get_paths. simpl. repeat case_match; by eexists. Qed.

Lemma ConcurrentCachedDir_Get_zero_opens now1 now2 open maxAge :
  exists ops',
    (ConcurrentCachedDir_Get {| cachedDir := CachedDir_zero (DirEntry := DirEntry) |}
       now1 now2 open maxAge).2 = OpOpen :: ops'.
Proof.
  rewrite ConcurrentCachedDir_Get_paths. simpl. apply CachedDir_Get_zero_opens.
Qed.

Lemma ConcurrentCachedFile_Get_zero_opens now1 now2 open
    (parse : File -> result error T) maxAge :
  time.maxDuration <= time.instant now2 -> maxAge <= time.maxDuration ->
  exists ops',
    (ConcurrentCachedFile_Get {| cachedFile := CachedFile_zero zeroT |}
       now1 now2 open parse maxAge).2 = OpOpen :: ops'.
Proof.
  intros Hnow Hmax. rewrite ConcurrentCachedFile_Get_paths. simpl.
  by apply unloaded_file_entry_opens.
Qed.

(** X10. [Clear] makes the cache a new one with the same filesystem, parser
    and maximum age, and after a [ClearDirs], [ClearFiles] or [Clear] the
    next [Get] of the cleared kind goes to the filesystem whatever was
    cached before and whatever [maxAge] is given: its first operation is the
    open. For files this needs a clock later than 292 years after the zero
    time and a [maxAge] within the range of a [Duration]. *)
Theorem clear_forgets_every_entry :
  (forall cache : FsCache,
      FsCache_Clear cache = NewFsCache (fs cache) (parser cache) (MaxAge cache))
  /\ (forall cache : ConcurrentFsCache,
      ConcurrentFsCache_Clear cache
      = NewConcurrentFsCache (cfs cache) (cparser cache) (maxAge cache))
  /\ (forall (cache : FsCache) w now dir m,
      (exists ops', (FsCache_GetDirWithMaxAge (FsCache_ClearDirs cache) w now dir m).2
                    = OpOpen :: ops')
      /\ (exists ops', (FsCache_GetDirWithMaxAge (FsCache_Clear cache) w now dir m).2
                       = OpOpen :: ops'))
  /\ (forall (cache : ConcurrentFsCache) w now1 now2 dir m u,
      (exists ops', (getDir (ConcurrentFsCache_ClearDirs cache) w now1 now2 dir m u).2
                    = OpOpen :: ops')
      /\ (exists ops', (getDir (ConcurrentFsCache_Clear cache) w now1 now2 dir m u).2
                       = OpOpen :: ops'))
  /\ (forall (cache : FsCache) w now file m,
      time.maxDuration <= time.instant now -> m <= time.maxDuration ->
      (exists ops',
          (FsCache_GetFileWithMaxAge zeroT (FsCache_ClearFiles cache) w now file m).2
          = OpOpen :: ops')
      /\ (exists ops',
            (FsCache_GetFileWithMaxAge zeroT (FsCache_Clear cache) w now file m).2
            = OpOpen :: ops'))
  /\ (forall (cache : ConcurrentFsCache) w now1 now2 file m,
      time.maxDuration <= time.instant now2 -> m <= time.maxDuration ->
      (exists ops',
          (ConcurrentFsCache_GetFileWithMaxAge zeroT (ConcurrentFsCache_ClearFiles cache)
             w now1 now2 file m).2 = OpOpen :: ops')
      /\ (exists ops',
            (ConcurrentFsCache_GetFileWithMaxAge zeroT (ConcurrentFsCache_Clear cache)
               w now1 now2 file m).2 = OpOpen :: ops')).
Proof.
  split_and!.
  - by intros [].
  - by intros [].
  - intros cache w now dir m. split.
    + destruct (FsCache_GetDirWithMaxAge_entry (FsCache_ClearDirs cache) w now dir m)
        as (open & _ & ->).
      cbv zeta. simpl. rewrite lookup_empty. apply CachedDir_Get_zero_opens.
    + destruct (FsCache_GetDirWithMaxAge_entry (FsCache_Clear cache) w now dir m)
        as (open & _ & ->).
      cbv zeta. simpl. rewrite lookup_empty. apply CachedDir_Get_zero_opens.
  - intros cache w now1 now2 dir m u. split.
    + destruct (getDir_entry (ConcurrentFsCache_ClearDirs cache) w now1 now2 dir m u)
        as (open & _ & ->).
      cbv zeta. simpl. rewrite lookup_empty. apply ConcurrentCachedDir_Get_zero_opens.
    + destruct (getDir_entry (ConcurrentFsCache_Clear cache) w now1 now2 dir m u)
        as (open & _ & ->).
      cbv zeta. simpl. rewrite lookup_empty. apply ConcurrentCachedDir_Get_zero_opens.
  - intros cache w now file m Hnow Hm. split.
    + destruct (FsCache_GetFileWithMaxAge_entry zeroT (FsCache_ClearFiles cache)
                  w now file m) as (open & _ & ->).
      cbv zeta. simpl. rewrite lookup_empty. by apply unloaded_file_entry_opens.
    + destruct (FsCache_GetFileWithMaxAge_entry zeroT (FsCache_Clear cache)
                  w now file m) as (open & _ & ->).
      cbv zeta. simpl. rewrite lookup_empty. by apply unloaded_file_entry_opens.
  - intros cache w now1 now2 file m Hnow Hm. unfold ConcurrentFsCache_GetFileWithMaxAge.
    split.
    + destruct (getFile_entry zeroT (ConcurrentFsCache_ClearFiles cache)
                  w now1 now2 file m true) as (open & _ & ->).
      cbv zeta. simpl. rewrite lookup_empty. by apply ConcurrentCachedFile_Get_zero_opens.
    + destruct (getFile_entry zeroT (ConcurrentFsCache_Clear cache)
                  w now1 now2 file m true) as (open & _ & ->).
      cbv zeta. simpl. rewrite lookup_empty. by apply ConcurrentCachedFile_Get_zero_opens.
Qed.

(** X11. [SetMaxAge] changes the window of [GetFile] and [GetDir] and nothing
    else: on the cache after [SetMaxAge m'], a call that takes the default
    does what the call with [m'] given would have done before, and a call
    with its own [maxAge] does what it would have done before; the cache
    left is the same but for the default. *)
Theorem SetMaxAge_sets_the_default_window :
  (forall (cache : ConcurrentFsCache) m' w now1 now2 file m u,
      getFile zeroT (ConcurrentFsCache_SetMaxAge cache m') w now1 now2 file m u
      = let r := getFile zeroT cache w now1 now2 file (if u then m else m') true in
        (r.1.1, ConcurrentFsCache_SetMaxAge r.1.2 m', r.2))
  /\ (forall (cache : ConcurrentFsCache) m' w now1 now2 dir m u,
      getDir (ConcurrentFsCache_SetMaxAge cache m') w now1 now2 dir m u
      = let r := getDir cache w now1 now2 dir (if u then m else m') true in
        (r.1.1, ConcurrentFsCache_SetMaxAge r.1.2 m', r.2))
  /\ (forall (cache : ConcurrentFsCache) m' path,
      ConcurrentFsCache_GetFileEntry (ConcurrentFsCache_SetMaxAge cache m') path
      = ConcurrentFsCache_GetFileEntry cache path
      /\ ConcurrentFsCache_GetDirEntry (ConcurrentFsCache_SetMaxAge cache m') path
         = ConcurrentFsCache_GetDirEntry cache path).
Proof.
  split_and!.
  - intros cache m' w now1 now2 file m u. unfold getFile. simpl.
    destruct (opener _ _ _); [by destruct u|].
    destruct u; simpl;
      destruct (ConcurrentCachedFile_Get _ _ _ _ _ _) as [[res c'] ops];
      destruct (cfiles cache !! cleanPath file); simpl;
      repeat case_match; reflexivity.
  - intros cache m' w now1 now2 dir m u. unfold getDir. simpl.
    destruct (opener _ _ _); [by destruct u|].
    destruct u; simpl;
      destruct (ConcurrentCachedDir_Get _ _ _ _ _) as [[res c'] ops];
      destruct (cdirs cache !! cleanPath dir); simpl;
      repeat case_match; reflexivity.
  - done.
Qed.

End CacheExtras.

Section Independence.

Context {error DirEntry File : Type} `{!fs_File error DirEntry File}.
Context {T : Type} (zeroT : T) {World : Type}.

Local Abbreviation FsCache :=
  (FsCache (error := error) (DirEntry := DirEntry) (File := File) (T := T) (World := World)).
Local Abbreviation ConcurrentFsCache :=
  (ConcurrentFsCache (error := error) (DirEntry := DirEntry) (File := File)
     (T := T) (World := World)).

(** What a [Get] through a cache returns and performs is settled by the
    filesystem, the parser and the entry under the cleaned path. *)
Lemma FsCache_GetFileWithMaxAge_depends (c1 c2 : FsCache) w now file m :
  fs c1 = fs c2 -> parser c1 = parser c2 ->
  files c1 !! cleanPath file = files c2 !! cleanPath file ->
  (FsCache_GetFileWithMaxAge zeroT c1 w now file m).1.1
  = (FsCache_GetFileWithMaxAge zeroT c2 w now file m).1.1
  /\ (FsCache_GetFileWithMaxAge zeroT c1 w now file m).2
     = (FsCache_GetFileWithMaxAge zeroT c2 w now file m).2.
Proof.
  intros Hfs Hparser Hentry.
  destruct (FsCache_GetFileWithMaxAge_entry zeroT c1 w now file m) as (o1 & Ho1 & ->).
  destruct (FsCache_GetFileWithMaxAge_entry zeroT c2 w now file m) as (o2 & Ho2 & ->).
  rewrite Hfs, Ho2 in Ho1. injection Ho1 as <-.
  cbv zeta. simpl. by rewrite Hentry, Hparser.
Qed.

Lemma FsCache_GetDirWithMaxAge_depends (c1 c2 : FsCache) w now dir m :
  fs c1 = fs c2 ->
  dirs c1 !! cleanPath dir = dirs c2 !! cleanPath dir ->
  (FsCache_GetDirWithMaxAge c1 w now dir m).1.1
  = (FsCache_GetDirWithMaxAge c2 w now dir m).1.1
  /\ (FsCache_GetDirWithMaxAge c1 w now dir m).2
     = (FsCache_GetDirWithMaxAge c2 w now dir m).2.
Proof.
  intros Hfs Hentry.
  destruct (FsCache_GetDirWithMaxAge_entry c1 w now dir m) as (o1 & Ho1 & ->).
  destruct (FsCache_GetDirWithMaxAge_entry c2 w now dir m) as (o2 & Ho2 & ->).
  rewrite Hfs, Ho2 in Ho1. injection Ho1 as <-.
  cbv zeta. simpl. by rewrite Hentry.
Qed.

Lemma FsCache_GetFileWithMaxAge_config (cache : FsCache) w now file m :
  fs (FsCache_GetFileWithMaxAge zeroT cache w now file m).1.2 = fs cache
  /\ parser (FsCache_GetFileWithMaxAge zeroT cache w now file m).1.2 = parser cache
  /\ MaxAge (FsCache_GetFileWithMaxAge zeroT cache w now file m).1.2 = MaxAge cache.
Proof.
  destruct (FsCache_GetFileWithMaxAge_entry zeroT cache w now file m) as (o & _ & ->).
  done.
Qed.

Lemma FsCache_GetDirWithMaxAge_config (cache : FsCache) w now dir m :
  fs (FsCache_GetDirWithMaxAge cache w now dir m).1.2 = fs cache
  /\ parser (FsCache_GetDirWithMaxAge cache w now dir m).1.2 = parser cache
  /\ MaxAge (FsCache_GetDirWithMaxAge cache w now dir m).1.2 = MaxAge cache.
Proof.
  destruct (FsCache_GetDirWithMaxAge_entry cache w now dir m) as (o & _ & ->).
  done.
Qed.

(** X12. In the single-threaded cache the entries do not interfere: a [Get]
    on a path returns and performs the same, whether or not a [Get] on a
    path with another cleaned form, or a [Get] of the other kind on any
    path, came before it. *)
Theorem FsCache_paths_are_independent :
  (forall (cache : FsCache) w1 now1 p m1 w now q m,
      cleanPath p <> cleanPath q ->
      let after := (FsCache_GetFileWithMaxAge zeroT cache w1 now1 p m1).1.2 in
      (FsCache_GetFileWithMaxAge zeroT after w now q m).1.1
      = (FsCache_GetFileWithMaxAge zeroT cache w now q m).1.1
      /\ (FsCache_GetFileWithMaxAge zeroT after w now q m).2
         = (FsCache_GetFileWithMaxAge zeroT cache w now q m).2)
  /\ (forall (cache : FsCache) w1 now1 p m1 w now q m,
      cleanPath p <> cleanPath q ->
      let after := (FsCache_GetDirWithMaxAge cache w1 now1 p m1).1.2 in
      (FsCache_GetDirWithMaxAge after w now q m).1.1
      = (FsCache_GetDirWithMaxAge cache w now q m).1.1
      /\ (FsCache_GetDirWithMaxAge after w now q m).2
         = (FsCache_GetDirWithMaxAge cache w now q m).2)
  /\ (forall (cache : FsCache) w1 now1 p m1 w now q m,
      let after := (FsCache_GetDirWithMaxAge cache w1 now1 p m1).1.2 in
      (FsCache_GetFileWithMaxAge zeroT after w now q m).1.1
      = (FsCache_GetFileWithMaxAge zeroT cache w now q m).1.1
      /\ (FsCache_GetFileWithMaxAge zeroT after w now q m).2
         = (FsCache_GetFileWithMaxAge zeroT cache w now q m).2)
  /\ (forall (cache : FsCache) w1 now1 p m1 w now q m,
      let after := (FsCache_GetFileWithMaxAge zeroT cache w1 now1 p m1).1.2 in
      (FsCache_GetDirWithMaxAge after w now q m).1.1
      = (FsCache_GetDirWithMaxAge cache w now q m).1.1
      /\ (FsCache_GetDirWithMaxAge after w now q m).2
         = (FsCache_GetDirWithMaxAge cache w now q m).2).
Proof.
  split_and!.
  - intros cache w1 now1 p m1 w now q m Hpq after.
    destruct (FsCache_GetFileWithMaxAge_config cache w1 now1 p m1) as (? & ? & _).
    apply FsCache_GetFileWithMaxAge_depends; [done | done |].
    apply FsCache_GetFileWithMaxAge_frame. congruence.
  - intros cache w1 now1 p m1 w now q m Hpq after.
    destruct (FsCache_GetDirWithMaxAge_config cache w1 now1 p m1) as (? & ? & _).
    apply FsCache_GetDirWithMaxAge_depends; [done |].
    apply FsCache_GetDirWithMaxAge_frame. congruence.
  - intros cache w1 now1 p m1 w now q m after.
    destruct (FsCache_GetDirWithMaxAge_config cache w1 now1 p m1) as (? & ? & _).
    apply FsCache_GetFileWithMaxAge_depends; [done | done |].
    subst after.
    destruct (FsCache_GetDirWithMaxAge_entry cache w1 now1 p m1) as (o & _ & ->).
    done.
  - intros cache w1 now1 p m1 w now q m after.
    destruct (FsCache_GetFileWithMaxAge_config cache w1 now1 p m1) as (? & ? & _).
    apply FsCache_GetDirWithMaxAge_depends; [done |].
    subst after.
    destruct (FsCache_GetFileWithMaxAge_entry zeroT cache w1 now1 p m1) as (o & _ & ->).
    done.
Qed.

(** A panic of the directory engine leaves the entry alone. *)
Lemma CachedDir_Get_panic_keeps (f : CachedDir (DirEntry := DirEntry))
    now open maxAge msg :
  (CachedDir_Get f now open maxAge).1.1 = Panic msg ->
  (CachedDir_Get f now open maxAge).1.2 = f.
Proof. rewrite CachedDir_Get_paths. repeat case_match; simpl; congruence. Qed.

Lemma ConcurrentCachedDir_Get_panic_keeps (f : ConcurrentCachedDir (DirEntry := DirEntry))
    now1 now2 open maxAge msg :
  (ConcurrentCachedDir_Get f now1 now2 open maxAge).1.1 = Panic msg ->
  (ConcurrentCachedDir_Get f now1 now2 open maxAge).1.2 = f.
Proof.
  destruct f as [f]. rewrite ConcurrentCachedDir_Get_paths. simpl.
  case_match; [done|]. cbv zeta. simpl. intros Hp.
  by rewrite (CachedDir_Get_panic_keeps _ _ _ _ _ Hp).
Qed.

(** X13. When [GetDir] panics, the single-threaded cache keeps the entry it
    had made for a path that had none: an entry that was never loaded stays
    in the registry (an entry that was there stays as it was). The
    concurrency-safe cache is left as it was before the call. *)
Theorem panic_leaves_unloaded_entry_in_FsCache :
  (forall (cache : FsCache) w now dir m msg cache' ops,
      FsCache_GetDirWithMaxAge cache w now dir m = (Panic msg, cache', ops) ->
      FsCache_GetDirEntry cache' dir
      = Some (default CachedDir_zero (FsCache_GetDirEntry cache dir)))
  /\ (forall (cache : ConcurrentFsCache) w now1 now2 dir m u msg cache' ops,
      getDir cache w now1 now2 dir m u = (Panic msg, cache', ops) ->
      cache' = cache).
Proof.
  split.
  - intros cache w now dir m msg cache' ops Hget.
    destruct (FsCache_GetDirWithMaxAge_entry cache w now dir m) as (open & _ & Heq).
    rewrite Heq in Hget. cbv zeta in Hget. injection Hget as Hres <- _.
    rewrite Hres. unfold FsCache_GetDirEntry. simpl. rewrite lookup_insert_eq.
    by rewrite (CachedDir_Get_panic_keeps _ _ _ _ _ Hres).
  - intros cache w now1 now2 dir m u msg cache' ops Hget.
    destruct (getDir_entry cache w now1 now2 dir m u) as (open & _ & Heq).
    rewrite Heq in Hget. cbv zeta in Hget. injection Hget as Hres <- _.
    rewrite Hres.
    destruct (cdirs cache !! cleanPath dir) as [c|] eqn:Hfound; simpl in *; [|done].
    rewrite (ConcurrentCachedDir_Get_panic_keeps _ _ _ _ _ _ Hres).
    rewrite insert_id by done. by destruct cache.
Qed.

End Independence.

(** ** The caches in use

    One use of a cache object: a call of one of its methods, with the state
    of the world and the clock readings of the call. *)

Inductive FsCache_use (World : Type) : Type :=
| UseGetDir (w : World) (now : time.Time) (dir : string)
| UseGetDirWithMaxAge (w : World) (now : time.Time) (dir : string) (m : time.Duration)
| UseGetFile (w : World) (now : time.Time) (file : string)
| UseGetFileWithMaxAge (w : World) (now : time.Time) (file : string) (m : time.Duration)
| UseClearDirs
| UseClearFiles
| UseClear.
Arguments UseGetDir {World} w now dir.
Arguments UseGetDirWithMaxAge {World} w now dir m.
Arguments UseGetFile {World} w now file.
Arguments UseGetFileWithMaxAge {World} w now file m.
Arguments UseClearDirs {World}.
Arguments UseClearFiles {World}.
Arguments UseClear {World}.

Inductive ConcurrentFsCache_use (World : Type) : Type :=
| CUseGetDir (w : World) (now1 now2 : time.Time) (dir : string)
| CUseGetDirWithMaxAge (w : World) (now1 now2 : time.Time) (dir : string)
    (m : time.Duration)
| CUseGetFile (w : World) (now1 now2 : time.Time) (file : string)
| CUseGetFileWithMaxAge (w : World) (now1 now2 : time.Time) (file : string)
    (m : time.Duration)
| CUseClearDirs
| CUseClearFiles
| CUseClear
| CUseSetMaxAge (m : time.Duration).
Arguments CUseGetDir {World} w now1 now2 dir.
Arguments CUseGetDirWithMaxAge {World} w now1 now2 dir m.
Arguments CUseGetFile {World} w now1 now2 file.
Arguments CUseGetFileWithMaxAge {World} w now1 now2 file m.
Arguments CUseClearDirs {World}.
Arguments CUseClearFiles {World}.
Arguments CUseClear {World}.
Arguments CUseSetMaxAge {World} m.

(** The clock of a use is later than 292 years after the zero time, and the
    durations it gives are within the range of a [Duration]. *)
Definition FsCache_use_in_range {World : Type} (u : FsCache_use World) : Prop :=
  match u with
  | UseGetDir _ now _ | UseGetFile _ now _ => (time.maxDuration <= time.instant now)%Z
  | UseGetDirWithMaxAge _ now _ m | UseGetFileWithMaxAge _ now _ m =>
      (time.maxDuration <= time.instant now)%Z /\ (m <= time.maxDuration)%Z
  | _ => True
  end.

Definition ConcurrentFsCache_use_in_range {World : Type}
    (u : ConcurrentFsCache_use World) : Prop :=
  match u with
  | CUseGetDir _ _ now2 _ | CUseGetFile _ _ now2 _ => (time.maxDuration <= time.instant now2)%Z
  | CUseGetDirWithMaxAge _ _ now2 _ m | CUseGetFileWithMaxAge _ _ now2 _ m =>
      (time.maxDuration <= time.instant now2)%Z /\ (m <= time.maxDuration)%Z
  | CUseSetMaxAge m => (m <= time.maxDuration)%Z
  | _ => True
  end.

Section Uses.

Context {error DirEntry File : Type} `{!fs_File error DirEntry File}.
Context {T : Type} (zeroT : T) {World : Type}.

Local Abbreviation FsCache :=
  (FsCache (error := error) (DirEntry := DirEntry) (File := File) (T := T) (World := World)).
Local Abbreviation ConcurrentFsCache :=
  (ConcurrentFsCache (error := error) (DirEntry := DirEntry) (File := File)
     (T := T) (World := World)).

(** The cache after a use; a panic is recovered by the caller. *)
Definition FsCache_after (cache : FsCache) (u : FsCache_use World) : FsCache :=
  match u with
  | UseGetDir w now dir => (FsCache_GetDir cache w now dir).1.2
  | UseGetDirWithMaxAge w now dir m => (FsCache_GetDirWithMaxAge cache w now dir m).1.2
  | UseGetFile w now file => (FsCache_GetFile zeroT cache w now file).1.2
  | UseGetFileWithMaxAge w now file m =>
      (FsCache_GetFileWithMaxAge zeroT cache w now file m).1.2
  | UseClearDirs => FsCache_ClearDirs cache
  | UseClearFiles => FsCache_ClearFiles cache
  | UseClear => FsCache_Clear cache
  end.

Definition ConcurrentFsCache_after (cache : ConcurrentFsCache)
    (u : ConcurrentFsCache_use World) : ConcurrentFsCache :=
  match u with
  | CUseGetDir w now1 now2 dir => (ConcurrentFsCache_GetDir cache w now1 now2 dir).1.2
  | CUseGetDirWithMaxAge w now1 now2 dir m =>
      (ConcurrentFsCache_GetDirWithMaxAge cache w now1 now2 dir m).1.2
  | CUseGetFile w now1 now2 file =>
      (ConcurrentFsCache_GetFile zeroT cache w now1 now2 file).1.2
  | CUseGetFileWithMaxAge w now1 now2 file m =>
      (ConcurrentFsCache_GetFileWithMaxAge zeroT cache w now1 now2 file m).1.2
  | CUseClearDirs => ConcurrentFsCache_ClearDirs cache
  | CUseClearFiles => ConcurrentFsCache_ClearFiles cache
  | CUseClear => ConcurrentFsCache_Clear cache
  | CUseSetMaxAge m => ConcurrentFsCache_SetMaxAge cache m
  end.


Local Open Scope Z_scope.

(** An invariant of the cache that every use in [P] keeps, holds after any
    such uses. *)
Lemma uses_invariant {C U : Type} (after : C -> U -> C) (P : U -> Prop) (Inv : C -> Prop) :
  (forall c u, P u -> Inv c -> Inv (after c u)) ->
  forall uses c, Forall P uses -> Inv c -> Inv (fold_left after uses c).
Proof.
  intros Hstep. induction uses as [|u uses IH]; intros c Hall Hc; [done|].
  apply Forall_cons in Hall as [Hu Hall]. simpl. apply IH; [done|]. by apply Hstep.
Qed.

Lemma maxDuration_not_zero now :
  time.maxDuration <= time.instant now -> time.IsZero now = false.
Proof.
  unfold time.maxDuration, time.IsZero. intros Hle.
  destruct (time.monotonic now); [done|]. apply Z.eqb_neq. lia.
Qed.

Lemma never_loaded_is_not_fresh now m :
  time.maxDuration <= time.instant now -> m <= time.maxDuration ->
  (time.Sub now time.Time_zero <? m) = false.
Proof.
  intros Hnow Hm. apply Z.ltb_ge.
  unfold time.Sub, time.saturate, time.minDuration, time.maxDuration in *. simpl.
  repeat case_match; lia.
Qed.

(** The engine leaves a loaded entry loaded, and an entry that was never
    loaded is loaded after a call without error. *)
Lemma CachedDir_Get_loaded_after (f : CachedDir (DirEntry := DirEntry)) now open m :
  time.IsZero now = false ->
  time.IsZero (d_lastLoadTime f) = false
  \/ (exists v, (CachedDir_Get f now open m).1.1 = Return v None) ->
  time.IsZero (d_lastLoadTime (CachedDir_Get f now open m).1.2) = false.
Proof.
  intros Hnow. rewrite CachedDir_Get_paths.
  destruct (time.IsZero (d_lastLoadTime f)) eqn:Hl; simpl;
    repeat case_match; simpl; intros [?|[v ?]]; simplify_eq; done.
Qed.

Lemma CachedFile_Get_loaded_after (f : CachedFile (T := T)) now open parse m :
  time.maxDuration <= time.instant now -> m <= time.maxDuration ->
  time.IsZero (lastLoadTime f) = false
  \/ (lastLoadTime f = time.Time_zero
      /\ exists v, (CachedFile_Get f now open parse m).1.1 = Return v None) ->
  time.IsZero (lastLoadTime (CachedFile_Get f now open parse m).1.2) = false.
Proof.
  intros Hnow Hm. pose proof (maxDuration_not_zero now Hnow) as Hnz.
  rewrite CachedFile_Get_paths. intros [Hl | [Hz Hres]].
  - rewrite Hl. repeat case_match; simpl; done.
  - rewrite Hz in *. rewrite (never_loaded_is_not_fresh now m Hnow Hm) in *.
    destruct Hres as [v Hres]. revert Hres.
    repeat case_match; simpl; intros; simplify_eq; done.
Qed.

Lemma ConcurrentCachedDir_Get_loaded_after (f : ConcurrentCachedDir (DirEntry := DirEntry))
    now1 now2 open m :
  time.IsZero now2 = false ->
  time.IsZero (d_lastLoadTime (cachedDir f)) = false
  \/ (exists v, (ConcurrentCachedDir_Get f now1 now2 open m).1.1 = Return v None) ->
  time.IsZero
    (d_lastLoadTime (cachedDir (ConcurrentCachedDir_Get f now1 now2 open m).1.2)) = false.
Proof.
  intros Hnow. rewrite ConcurrentCachedDir_Get_paths.
  destruct (_ && _) eqn:Hfast.
  - intros _. simpl. apply andb_true_iff in Hfast as [Hl _]. by apply negb_true_iff.
  - cbv zeta. simpl. by apply CachedDir_Get_loaded_after.
Qed.

Lemma ConcurrentCachedFile_Get_loaded_after (f : ConcurrentCachedFile (T := T))
    now1 now2 open parse m :
  time.maxDuration <= time.instant now2 -> m <= time.maxDuration ->
  time.IsZero (lastLoadTime (cachedFile f)) = false
  \/ (lastLoadTime (cachedFile f) = time.Time_zero
      /\ exists v, (ConcurrentCachedFile_Get f now1 now2 open parse m).1.1 = Return v None) ->
  time.IsZero
    (lastLoadTime (cachedFile (ConcurrentCachedFile_Get f now1 now2 open parse m).1.2))
  = false.
Proof.
  intros Hnow Hm. rewrite ConcurrentCachedFile_Get_paths.
  destruct (_ && _) eqn:Hfast.
  - intros _. simpl. apply andb_true_iff in Hfast as [Hl _]. by apply negb_true_iff.
  - cbv zeta. simpl. by apply CachedFile_Get_loaded_after.
Qed.

(** What the registries of a cache hold when it is used through its
    methods: keys that are their own cleaned form, and loaded entries; the
    directory registry of the single-threaded cache may also hold an entry
    that was never loaded, left by a panic. *)
Definition FsCache_sound (cache : FsCache) : Prop :=
  MaxAge cache <= time.maxDuration
  /\ (forall k e, files cache !! k = Some e ->
                  time.IsZero (lastLoadTime e) = false /\ cleanPath k = k)
  /\ (forall k e, dirs cache !! k = Some e ->
                  (time.IsZero (d_lastLoadTime e) = false \/ e = CachedDir_zero)
                  /\ cleanPath k = k).

Definition ConcurrentFsCache_sound (cache : ConcurrentFsCache) : Prop :=
  maxAge cache <= time.maxDuration
  /\ (forall k e, cfiles cache !! k = Some e ->
                  time.IsZero (lastLoadTime (cachedFile e)) = false /\ cleanPath k = k)
  /\ (forall k e, cdirs cache !! k = Some e ->
                  time.IsZero (d_lastLoadTime (cachedDir e)) = false /\ cleanPath k = k).

Lemma FsCache_GetFileWithMaxAge_sound (cache : FsCache) w now file m :
  time.maxDuration <= time.instant now -> m <= time.maxDuration ->
  FsCache_sound cache ->
  FsCache_sound (FsCache_GetFileWithMaxAge zeroT cache w now file m).1.2.
Proof.
  intros Hnow Hm (Hmax & Hfiles & Hdirs).
  destruct (FsCache_GetFileWithMaxAge_entry zeroT cache w now file m) as (open & _ & ->).
  cbv zeta. simpl. split_and!; [done | | done].
  intros k e.
  pose proof (CachedFile_Get_loaded_after
                (default (CachedFile_zero zeroT) (files cache !! cleanPath file))
                now open (parser cache) m Hnow Hm) as Hafter.
  pose proof (CachedFile_Get_returns
                (default (CachedFile_zero zeroT) (files cache !! cleanPath file))
                now open (parser cache) m) as Hret.
  destruct (CachedFile_Get _ now open (parser cache) m) as [[res c'] ops].
  simpl in *.
  destruct res as [v [err|]|msg]; simpl.
  - rewrite lookup_delete. case_decide; [done | apply Hfiles].
  - rewrite lookup_insert. case_decide as Hk; [|apply Hfiles].
    intros [= <-]. subst k. split; [|apply PathFacts.cleanPath_of_cleanPath].
    apply Hafter.
    destruct (files cache !! cleanPath file) as [c|] eqn:Hfound; simpl.
    + left. by apply (Hfiles _ _ Hfound).
    + right. split; [done | by eexists].
  - by destruct (Hret msg).
Qed.

Lemma FsCache_GetDirWithMaxAge_sound (cache : FsCache) w now dir m :
  time.maxDuration <= time.instant now ->
  FsCache_sound cache ->
  FsCache_sound (FsCache_GetDirWithMaxAge cache w now dir m).1.2.
Proof.
  intros Hnow (Hmax & Hfiles & Hdirs).
  pose proof (maxDuration_not_zero now Hnow) as Hnz.
  destruct (FsCache_GetDirWithMaxAge_entry cache w now dir m) as (open & _ & ->).
  cbv zeta. simpl. split_and!; [done | done |].
  intros k e.
  pose proof (CachedDir_Get_loaded_after
                (default CachedDir_zero (dirs cache !! cleanPath dir))
                now open m Hnz) as Hafter.
  pose proof (CachedDir_Get_panic_keeps
                (default CachedDir_zero (dirs cache !! cleanPath dir))
                now open m) as Hkeep.
  destruct (CachedDir_Get _ now open m) as [[res c'] ops].
  simpl in *.
  destruct res as [v [err|]|msg]; simpl.
  - rewrite lookup_delete. case_decide; [done | apply Hdirs].
  - rewrite lookup_insert. case_decide as Hk; [|apply Hdirs].
    intros [= <-]. subst k. split; [|apply PathFacts.cleanPath_of_cleanPath].
    left. apply Hafter. right. by eexists.
  - rewrite lookup_insert. case_decide as Hk; [|apply Hdirs].
    intros [= <-]. subst k. split; [|apply PathFacts.cleanPath_of_cleanPath].
    rewrite (Hkeep msg eq_refl).
    destruct (dirs cache !! cleanPath dir) as [c|] eqn:Hfound; simpl.
    + by apply (Hdirs _ _ Hfound).
    + by right.
Qed.

Lemma getFile_sound (cache : ConcurrentFsCache) w now1 now2 file m u :
  time.maxDuration <= time.instant now2 -> (u = true -> m <= time.maxDuration) ->
  ConcurrentFsCache_sound cache ->
  ConcurrentFsCache_sound (getFile zeroT cache w now1 now2 file m u).1.2.
Proof.
  intros Hnow Hm (Hmax & Hfiles & Hdirs).
  assert ((if negb u then maxAge cache else m) <= time.maxDuration) as Heff
    by (destruct u; simpl; auto).
  destruct (getFile_entry zeroT cache w now1 now2 file m u) as (open & _ & ->).
  cbv zeta.
  pose proof (ConcurrentCachedFile_Get_loaded_after
                (default {| cachedFile := CachedFile_zero zeroT |}
                   (cfiles cache !! cleanPath file))
                now1 now2 open (cparser cache) _ Hnow Heff) as Hafter.
  destruct (ConcurrentCachedFile_Get _ now1 now2 open (cparser cache) _)
    as [[res c'] ops].
  simpl in *.
  assert (forall k e,
             <[cleanPath file := c']> (cfiles cache) !! k = Some e ->
             (is_Some (cfiles cache !! cleanPath file) \/ exists v, res = Return v None) ->
             time.IsZero (lastLoadTime (cachedFile e)) = false /\ cleanPath k = k)
    as Hins.
  { intros k e. rewrite lookup_insert. case_decide as Hk; [|intros ? _; by eapply Hfiles].
    intros [= <-] Hwhy. subst k. split; [|apply PathFacts.cleanPath_of_cleanPath].
    apply Hafter.
    destruct (cfiles cache !! cleanPath file) as [c|] eqn:Hfound; simpl.
    - left. by apply (Hfiles _ _ Hfound).
    - right. split; [done|]. destruct Hwhy as [[? ?]|?]; done. }
  destruct (cfiles cache !! cleanPath file) as [c|] eqn:Hfound; simpl.
  - split_and!; [done | | done]. intros k e Hk. apply (Hins k e Hk). left. by eexists.
  - destruct res as [v [err|]|msg]; simpl; [done | | done].
    split_and!; [done | | done]. intros k e Hk. apply (Hins k e Hk). right. by eexists.
Qed.

Lemma getDir_sound (cache : ConcurrentFsCache) w now1 now2 dir m u :
  time.maxDuration <= time.instant now2 ->
  ConcurrentFsCache_sound cache ->
  ConcurrentFsCache_sound (getDir cache w now1 now2 dir m u).1.2.
Proof.
  intros Hnow (Hmax & Hfiles & Hdirs).
  pose proof (maxDuration_not_zero now2 Hnow) as Hnz.
  destruct (getDir_entry cache w now1 now2 dir m u) as (open & _ & ->).
  cbv zeta.
  pose proof (ConcurrentCachedDir_Get_loaded_after
                (default {| cachedDir := CachedDir_zero |} (cdirs cache !! cleanPath dir))
                now1 now2 open (if negb u then maxAge cache else m) Hnz) as Hafter.
  destruct (ConcurrentCachedDir_Get _ now1 now2 open _) as [[res c'] ops].
  simpl in *.
  assert (forall k e,
             <[cleanPath dir := c']> (cdirs cache) !! k = Some e ->
             (is_Some (cdirs cache !! cleanPath dir) \/ exists v, res = Return v None) ->
             time.IsZero (d_lastLoadTime (cachedDir e)) = false /\ cleanPath k = k)
    as Hins.
  { intros k e. rewrite lookup_insert. case_decide as Hk; [|intros ? _; by eapply Hdirs].
    intros [= <-] Hwhy. subst k. split; [|apply PathFacts.cleanPath_of_cleanPath].
    apply Hafter.
    destruct (cdirs cache !! cleanPath dir) as [c|] eqn:Hfound; simpl.
    - left. by apply (Hdirs _ _ Hfound).
    - right. destruct Hwhy as [[? ?]|?]; done. }
  destruct (cdirs cache !! cleanPath dir) as [c|] eqn:Hfound; simpl.
  - split_and!; [done | done |]. intros k e Hk. apply (Hins k e Hk). left. by eexists.
  - destruct res as [v [err|]|msg]; simpl; [done | | done].
    split_and!; [done | done |]. intros k e Hk. apply (Hins k e Hk). right. by eexists.
Qed.

Lemma FsCache_after_sound (cache : FsCache) (u : FsCache_use World) :
  FsCache_use_in_range u -> FsCache_sound cache -> FsCache_sound (FsCache_after cache u).
Proof.
  destruct u; simpl; intros Hu Hc.
  - unfold FsCache_GetDir. by apply FsCache_GetDirWithMaxAge_sound.
  - destruct Hu. by apply FsCache_GetDirWithMaxAge_sound.
  - unfold FsCache_GetFile.
    apply FsCache_GetFileWithMaxAge_sound; [done | apply Hc | done].
  - destruct Hu. by apply FsCache_GetFileWithMaxAge_sound.
  - destruct Hc as (? & ? & _). split_and!; [done | done |]. intros k e. simpl.
    by rewrite lookup_empty.
  - destruct Hc as (? & _ & ?). split_and!; [done | | done]. intros k e. simpl.
    by rewrite lookup_empty.
  - destruct Hc as (? & _ & _). split_and!; [done | |]; intros k e; simpl;
      by rewrite lookup_empty.
Qed.

Lemma ConcurrentFsCache_after_sound (cache : ConcurrentFsCache)
    (u : ConcurrentFsCache_use World) :
  ConcurrentFsCache_use_in_range u ->
  ConcurrentFsCache_sound cache ->
  ConcurrentFsCache_sound (ConcurrentFsCache_after cache u).
Proof.
  destruct u; simpl; intros Hu Hc.
  - unfold ConcurrentFsCache_GetDir. by apply getDir_sound.
  - unfold ConcurrentFsCache_GetDirWithMaxAge. destruct Hu. by apply getDir_sound.
  - unfold ConcurrentFsCache_GetFile. by apply getFile_sound.
  - unfold ConcurrentFsCache_GetFileWithMaxAge. destruct Hu. by apply getFile_sound.
  - destruct Hc as (? & ? & _). split_and!; [done | done |]. intros k e. simpl.
    by rewrite lookup_empty.
  - destruct Hc as (? & _ & ?). split_and!; [done | | done]. intros k e. simpl.
    by rewrite lookup_empty.
  - destruct Hc as (? & _ & _). split_and!; [done | |]; intros k e; simpl;
      by rewrite lookup_empty.
  - destruct Hc as (_ & ? & ?). done.
Qed.

(** X14. In a single-threaded cache that was made by [NewFsCache] and used
    through its methods, with a clock later than 292 years after the zero
    time and durations in range, every entry of a registry is found again by
    [GetFileEntry] or [GetDirEntry] on its key; every file entry is loaded,
    and every directory entry is loaded or is an entry that was never
    loaded, as a panic leaves it. *)
Theorem FsCache_registry_invariant :
  forall (filesystem : FS) (parse : Parser) m (uses : list (FsCache_use World)),
    m <= time.maxDuration ->
    Forall FsCache_use_in_range uses ->
    let cache := fold_left FsCache_after uses (NewFsCache filesystem parse m) in
    (forall k e, files cache !! k = Some e ->
                 FsCache_GetFileEntry cache k = Some e
                 /\ (CachedFile_Cached e).2 = true)
    /\ (forall k e, dirs cache !! k = Some e ->
                    FsCache_GetDirEntry cache k = Some e
                    /\ ((CachedDir_Cached e).2 = true \/ e = CachedDir_zero)).
Proof.
  intros filesystem parse m uses Hm Huses cache.
  assert (FsCache_sound cache) as (_ & Hfiles & Hdirs).
  { apply (uses_invariant FsCache_after FsCache_use_in_range);
      [apply FsCache_after_sound | done |].
    split_and!; [done | |]; intros k e; simpl; by rewrite lookup_empty. }
  split.
  - intros k e Hk. destruct (Hfiles k e Hk) as [Hl Hclean].
    unfold FsCache_GetFileEntry, CachedFile_Cached. simpl. by rewrite Hclean, Hl.
  - intros k e Hk. destruct (Hdirs k e Hk) as [Hl Hclean].
    unfold FsCache_GetDirEntry, CachedDir_Cached. simpl. rewrite Hclean.
    split; [done|]. destruct Hl as [-> | ->]; [by left | by right].
Qed.

(** X15. In a concurrency-safe cache that was made by [NewConcurrentFsCache]
    and used through its methods one call at a time, with a clock later than
    292 years after the zero time and durations in range, every entry of a
    registry is loaded and is found again by [GetFileEntry] or [GetDirEntry]
    on its key. *)
Theorem ConcurrentFsCache_registry_invariant :
  forall (filesystem : FS) (parse : Parser) m (uses : list (ConcurrentFsCache_use World)),
    m <= time.maxDuration ->
    Forall ConcurrentFsCache_use_in_range uses ->
    let cache := fold_left ConcurrentFsCache_after uses
                   (NewConcurrentFsCache filesystem parse m) in
    (forall k e, cfiles cache !! k = Some e ->
                 ConcurrentFsCache_GetFileEntry cache k = Some e
                 /\ (ConcurrentCachedFile_Cached e).2 = true)
    /\ (forall k e, cdirs cache !! k = Some e ->
                    ConcurrentFsCache_GetDirEntry cache k = Some e
                    /\ (ConcurrentCachedDir_Cached e).2 = true).
Proof.
  intros filesystem parse m uses Hm Huses cache.
  assert (ConcurrentFsCache_sound cache) as (_ & Hfiles & Hdirs).
  { apply (uses_invariant ConcurrentFsCache_after ConcurrentFsCache_use_in_range);
      [apply ConcurrentFsCache_after_sound | done |].
    split_and!; [done | |]; intros k e; simpl; by rewrite lookup_empty. }
  split.
  - intros k e Hk. destruct (Hfiles k e Hk) as [Hl Hclean].
    unfold ConcurrentFsCache_GetFileEntry, ConcurrentCachedFile_Cached, CachedFile_Cached.
    simpl. by rewrite Hclean, Hl.
  - intros k e Hk. destruct (Hdirs k e Hk) as [Hl Hclean].
    unfold ConcurrentFsCache_GetDirEntry, ConcurrentCachedDir_Cached, CachedDir_Cached.
    simpl. by rewrite Hclean, Hl.
Qed.

End Uses.

(** ** Errors are not cached *)

Section Retry.

Context {error DirEntry File : Type} `{!fs_File error DirEntry File} {T : Type}.

Local Open Scope Z_scope.

(** [Sub] grows with its first argument. *)
Lemma Sub_monotone (t t' u : time.Time) :
  time.le t t' -> time.Sub t u <= time.Sub t' u.
Proof.
  unfold time.le, time.Sub. intros [Hwall Hmono].
  destruct (time.monotonic t), (time.monotonic t'), (time.monotonic u);
    try done; apply saturate_monotone; lia.
Qed.

(** X16. An error is never cached: after a [Get] that returned an error, a
    [Get] on the entry at the same or a later clock reading (neither the
    wall clock nor the monotonic clock went back), with a [maxAge] that is
    not greater, goes to the filesystem again; its first operation is the
    open. *)
Theorem get_retries_after_an_error :
  (forall (f : CachedFile (T := T)) now open parse maxAge v e f' ops,
      CachedFile_Get f now open parse maxAge = (Return v (Some e), f', ops) ->
      forall now' open' parse' maxAge',
        time.le now now' -> maxAge' <= maxAge ->
        exists ops', (CachedFile_Get f' now' open' parse' maxAge').2 = OpOpen :: ops')
  /\ (forall (f : CachedDir (DirEntry := DirEntry)) now open maxAge v e f' ops,
      CachedDir_Get f now open maxAge = (Return v (Some e), f', ops) ->
      forall now' open' maxAge',
        time.le now now' -> maxAge' <= maxAge ->
        exists ops', (CachedDir_Get f' now' open' maxAge').2 = OpOpen :: ops').
Proof.
  split.
  - intros f now open parse maxAge v e f' ops Hget now' open' parse' maxAge' Hnow Hmax.
    assert (f' = f /\ (time.Sub now (lastLoadTime f) <? maxAge) = false) as [-> Hage].
    { rewrite CachedFile_Get_paths in Hget.
      destruct (_ <? _); [done|]. split; [|done].
      repeat case_match; by simplify_eq. }
    apply CachedFile_Get_opens. apply Z.ltb_ge. apply Z.ltb_ge in Hage.
    pose proof (Sub_monotone now now' (lastLoadTime f) Hnow). lia.
  - intros f now open maxAge v e f' ops Hget now' open' maxAge' Hnow Hmax.
    assert (f' = f
            /\ negb (time.IsZero (d_lastLoadTime f))
               && (time.Sub now (d_lastLoadTime f) <? maxAge) = false) as [-> Hage].
    { rewrite CachedDir_Get_paths in Hget.
      destruct (_ && (_ <? _)); [done|]. split; [|done].
      repeat case_match; by simplify_eq. }
    rewrite CachedDir_Get_paths.
    assert (negb (time.IsZero (d_lastLoadTime f))
            && (time.Sub now' (d_lastLoadTime f) <? maxAge') = false) as ->.
    { destruct (negb (time.IsZero (d_lastLoadTime f))); [|done]. simpl in *.
      apply Z.ltb_ge. apply Z.ltb_ge in Hage.
      pose proof (Sub_monotone now now' (d_lastLoadTime f) Hnow). lia. }
    repeat case_match; by eexists.
Qed.

End Retry.

(** ** The added properties on the small filesystem *)

(** The cached [a.json] revalidated at 6000: the call loads nothing and
    leaves value, size and modification time as they are. *)
Lemma get_changes_entry_only_after_stat_witness :
  content (CachedFile_Get Demo.cachedA (Demo.clock 6000)
             (Demo.open_name Demo.disk "a.json") Demo.parse_length 100%Z).1.2 = 5%nat
  /\ lastSize (CachedFile_Get Demo.cachedA (Demo.clock 6000)
                 (Demo.open_name Demo.disk "a.json") Demo.parse_length 100%Z).1.2 = 5%Z
  /\ lastModTime (CachedFile_Get Demo.cachedA (Demo.clock 6000)
                    (Demo.open_name Demo.disk "a.json") Demo.parse_length 100%Z).1.2
     = Demo.modified 1000.
Proof.
  refine (proj1 (proj1 (get_changes_entry_only_after_stat (T := nat))
                   Demo.cachedA (Demo.clock 6000) (Demo.open_name Demo.disk "a.json")
                   Demo.parse_length 100%Z) _).
  vm_compute. reflexivity.
Defined.

(** A new entry loads [a.json] at 5000; at 5050 the value comes from the
    entry. *)
Lemma window_restarts_at_every_successful_check_witness :
  CachedFile_Get Demo.cachedA (Demo.clock 5050)
    (Demo.open_name (delete "a.json" Demo.disk) "a.json") Demo.parse_length 100%Z
  = (Return 5%nat None, Demo.cachedA, []).
Proof.
  refine (proj1 (window_restarts_at_every_successful_check (T := nat))
            (CachedFile_zero 0%nat) (Demo.clock 5000) (Demo.open_name Demo.disk "a.json")
            Demo.parse_length 100%Z 5%nat Demo.cachedA
            [OpOpen; OpStat; OpParse; OpClose] _ _ _
            (Demo.clock 5050) (Demo.open_name (delete "a.json" Demo.disk) "a.json")
            Demo.parse_length 100%Z _).
  - vm_compute. reflexivity.
  - discriminate.
  - reflexivity.
  - vm_compute. reflexivity.
Defined.

(** After the calls at 5000 and 6000 the age at 6000 is not negative. *)
Lemma age_is_never_negative_witness :
  (0 <= time.Sub (Demo.clock 6000)
          (lastLoadTime
             (run CachedFile_call (CachedFile_zero 0%nat)
                [Demo.load_a; Demo.miss_a]).1))%Z.
Proof.
  refine (proj2 (proj1 (age_is_never_negative 0%nat)
                   [Demo.load_a; Demo.miss_a] (Demo.clock 6000) _ _)).
  - repeat constructor.
  - simpl. lia.
Defined.

(** An entry whose only call failed is the entry as it was made. *)
Lemma unloaded_entry_is_the_zero_entry_witness :
  (run CachedFile_call (CachedFile_zero 0%nat) [Demo.miss_a]).1 = CachedFile_zero 0%nat.
Proof.
  refine (proj1 (proj1 (unloaded_entry_is_the_zero_entry 0%nat) [Demo.miss_a] _ _)).
  - repeat constructor.
  - vm_compute. reflexivity.
Defined.

(** The cache that holds [a.json], cleared and asked for [a.json] within
    the old window. *)
Lemma clear_forgets_every_entry_witness :
  exists ops',
    (FsCache_GetFileWithMaxAge 0%nat (FsCache_ClearFiles Demo.warm) Demo.disk
       (Demo.clock (2 ^ 63 + 10)) "a.json" (2 ^ 62)%Z).2 = OpOpen :: ops'.
Proof.
  refine (proj1 (proj1 (proj2 (proj2 (proj2 (proj2 (clear_forgets_every_entry 0%nat)))))
                   Demo.warm Demo.disk (Demo.clock (2 ^ 63 + 10)) "a.json" (2 ^ 62)%Z _ _)).
  - by vm_compute.
  - by vm_compute.
Defined.

(** A call on [empty.json] before a call on [a.json]. *)
Lemma FsCache_paths_are_independent_witness :
  (FsCache_GetFileWithMaxAge 0%nat
     (FsCache_GetFileWithMaxAge 0%nat Demo.warm Demo.disk (Demo.clock 6000)
        "empty.json" 100%Z).1.2
     Demo.disk (Demo.clock 6000) "a.json" 100%Z).1.1
  = (FsCache_GetFileWithMaxAge 0%nat Demo.warm Demo.disk (Demo.clock 6000)
       "a.json" 100%Z).1.1.
Proof.
  refine (proj1 (proj1 (FsCache_paths_are_independent 0%nat)
                   Demo.warm Demo.disk (Demo.clock 6000) "empty.json" 100%Z
                   Demo.disk (Demo.clock 6000) "a.json" 100%Z _)).
  intros Heq. vm_compute in Heq. discriminate Heq.
Defined.

(** [GetDir] on the regular file [a.json] through a new cache of each
    kind. *)
Lemma panic_leaves_unloaded_entry_in_FsCache_witness :
  FsCache_GetDirEntry
    (FsCache_GetDirWithMaxAge (NewFsCache (T := nat) Demo.dirfs Demo.parse_length 100%Z)
       Demo.disk (Demo.clock 5000) "a.json" 100%Z).1.2 "a.json"
  = Some CachedDir_zero
  /\ (getDir (NewConcurrentFsCache (T := nat) Demo.dirfs Demo.parse_length 100%Z)
        Demo.disk (Demo.clock 5000) (Demo.clock 5000) "a.json" 100%Z true).1.2
     = NewConcurrentFsCache Demo.dirfs Demo.parse_length 100%Z.
Proof.
  split.
  - refine (proj1 (panic_leaves_unloaded_entry_in_FsCache (T := nat))
              (NewFsCache Demo.dirfs Demo.parse_length 100%Z)
              Demo.disk (Demo.clock 5000) "a.json" 100%Z
              "directory doesn't implement ReadDirFile" _ [OpOpen; OpStat; OpClose] _).
    vm_compute. reflexivity.
  - refine (proj2 (panic_leaves_unloaded_entry_in_FsCache (T := nat))
              (NewConcurrentFsCache Demo.dirfs Demo.parse_length 100%Z)
              Demo.disk (Demo.clock 5000) (Demo.clock 5000) "a.json" 100%Z true
              "directory doesn't implement ReadDirFile" _ [OpOpen; OpStat; OpClose] _).
    vm_compute. reflexivity.
Defined.

(** A file that was gone at 6000 is asked for again at 6001. *)
Lemma get_retries_after_an_error_witness :
  exists ops',
    (CachedFile_Get Demo.cachedA (Demo.clock 6001) (Demo.open_name Demo.disk "a.json")
       Demo.parse_length 100%Z).2 = OpOpen :: ops'.
Proof.
  refine (proj1 (get_retries_after_an_error (T := nat))
            Demo.cachedA (Demo.clock 6000)
            (Demo.open_name (delete "a.json" Demo.disk) "a.json")
            Demo.parse_length 100%Z 5%nat "file does not exist" Demo.cachedA [OpOpen] _
            (Demo.clock 6001) (Demo.open_name Demo.disk "a.json") Demo.parse_length
            100%Z _ _).
  - vm_compute. reflexivity.
  - split; simpl; lia.
  - lia.
Defined.

(** A single-threaded cache that loaded [a.json], panicked on [GetDir] of
    the same path and listed the root: the entry that the panic left is
    found under its key, not loaded. *)
Lemma FsCache_registry_invariant_witness :
  FsCache_GetDirEntry
    (fold_left (FsCache_after 0%nat)
       [UseGetFile Demo.disk (Demo.clock (2 ^ 63)) "a.json";
        UseGetDirWithMaxAge Demo.disk (Demo.clock (2 ^ 63)) "a.json" 100%Z;
        UseGetDir Demo.disk (Demo.clock (2 ^ 63)) "/"]
       (NewFsCache Demo.dirfs Demo.parse_length 100%Z)) "/a.json"
  = Some CachedDir_zero
  /\ ((CachedDir_Cached (DirEntry := string) CachedDir_zero).2 = true
      \/ CachedDir_zero (DirEntry := string) = CachedDir_zero).
Proof.
  refine (proj2 (FsCache_registry_invariant 0%nat Demo.dirfs Demo.parse_length 100%Z
                   [UseGetFile Demo.disk (Demo.clock (2 ^ 63)) "a.json";
                    UseGetDirWithMaxAge Demo.disk (Demo.clock (2 ^ 63)) "a.json" 100%Z;
                    UseGetDir Demo.disk (Demo.clock (2 ^ 63)) "/"] _ _)
            "/a.json" CachedDir_zero _).
  - by vm_compute.
  - repeat (constructor || split); by vm_compute.
  - vm_compute. reflexivity.
Defined.

(** A concurrency-safe cache that loaded [a.json], had its window changed
    and found the file gone: the entry is found under its key, loaded. *)
Lemma ConcurrentFsCache_registry_invariant_witness :
  ConcurrentFsCache_GetFileEntry
    (fold_left (ConcurrentFsCache_after 0%nat)
       [CUseGetFile Demo.disk (Demo.clock (2 ^ 63)) (Demo.clock (2 ^ 63)) "a.json";
        CUseSetMaxAge 50%Z;
        CUseGetFile (delete "a.json" Demo.disk)
          (Demo.clock (2 ^ 63 + 60)) (Demo.clock (2 ^ 63 + 60)) "a.json"]
       (NewConcurrentFsCache Demo.dirfs Demo.parse_length 100%Z)) "/a.json"
  = Some {| cachedFile :=
              {| lastLoadTime := Demo.clock (2 ^ 63); lastSize := 5%Z;
                 lastModTime := Demo.modified 1000; content := 5%nat |} |}
  /\ (ConcurrentCachedFile_Cached
        {| cachedFile :=
             {| lastLoadTime := Demo.clock (2 ^ 63); lastSize := 5%Z;
                lastModTime := Demo.modified 1000; content := 5%nat |} |}).2 = true.
Proof.
  refine (proj1 (ConcurrentFsCache_registry_invariant 0%nat Demo.dirfs Demo.parse_length
                   100%Z
                   [CUseGetFile Demo.disk (Demo.clock (2 ^ 63)) (Demo.clock (2 ^ 63)) "a.json";
                    CUseSetMaxAge 50%Z;
                    CUseGetFile (delete "a.json" Demo.disk)
                      (Demo.clock (2 ^ 63 + 60)) (Demo.clock (2 ^ 63 + 60)) "a.json"] _ _)
            "/a.json" _ _).
  - by vm_compute.
  - repeat (constructor || split); by vm_compute.
  - vm_compute. reflexivity.
Defined.
